(** * Insurance-policy pipeline: conflict resolution, data-quality checks
      and churn-rate breakdowns

    A shallow embedding of the pandas scripts of the repository
    ([customer_standardize.py], [churn_rate.py], [sanity_checks.py] and
    their copies in [data_cleaning.py] / [exploratory_analysis.py]).

    A pandas [DataFrame] is modelled as an ordered list of column names and
    a list of rows; a row is a finite map from column name to cell, the way
    [iterrows] and the record dictionaries of the scripts present it.
    Cells are dynamically typed, as in a frame read by [read_csv].

    Numbers are exact rationals.  The scripts compute in binary64; every
    numeric statement below that is checked on concrete data only uses
    values that binary64 represents exactly. *)

From Stdlib Require Import QArith Qcanon Qround Sorted.
From stdpp Require Import gmap strings list fin_maps pretty.

Set Warnings "-clear-no-such-hyp".
Open Scope string_scope.
Open Scope nat_scope.

(** ** Pandas primitives used by the scripts *)

Module Pandas.

(** One cell of a frame: [NA] stands for NaN / None / NaT / pd.NA; a
    decimal literal of the CSV file is kept as the rational it denotes. *)
Inductive Cell : Type :=
| NA
| VBool (b : bool)
| VInt (z : Z)
| VFloat (q : Qc)
| VStr (s : string).

#[global] Instance Cell_eq_dec : EqDecision Cell.
Proof. solve_decision. Defined.

(** A column of cells. *)
Abbreviation Series := (list Cell).

(** Python exceptions the scripts can meet. *)
Inductive Exception : Type :=
| KeyError (key : string)
| TypeError
| AttributeError
| FileNotFoundError.

#[global] Instance Exception_eq_dec : EqDecision Exception.
Proof. solve_decision. Defined.

(** A computation that returns or raises. *)
Inductive Result (A : Type) : Type :=
| Raise (e : Exception)
| Return (a : A).
Arguments Raise {A} e.
Arguments Return {A} a.

#[global] Instance Result_eq_dec `{EqDecision A} : EqDecision (Result A).
Proof. solve_decision. Defined.

#[global] Instance Result_ret : MRet Result := λ A a, Return a.
#[global] Instance Result_bind : MBind Result := λ A B f m,
  match m with Raise e => Raise e | Return a => f a end.
#[global] Instance Result_fmap : FMap Result := λ A B f m,
  match m with Raise e => Raise e | Return a => Return (f a) end.

(** Floating-point results with the special values of IEEE 754 that a
    division by zero produces; finite values are exact rationals and
    signed zeros are not distinguished. *)
Inductive Float : Type :=
| Fin (q : Qc)
| PInf
| NInf
| NaN.

#[global] Instance Float_eq_dec : EqDecision Float.
Proof. solve_decision. Defined.

Definition inf_of_sign (pos : bool) : Float := if pos then PInf else NInf.

Definition fdiv (x y : Float) : Float :=
  match x, y with
  | Fin a, Fin b =>
      if decide (b = 0%Qc)
      then (if decide (a = 0%Qc) then NaN
            else inf_of_sign (bool_decide (0 < a)%Qc))
      else Fin (a / b)%Qc
  | Fin _, (PInf | NInf) => Fin 0%Qc
  | PInf, Fin b => inf_of_sign (bool_decide (0 ≤ b)%Qc)
  | NInf, Fin b => inf_of_sign (negb (bool_decide (0 ≤ b)%Qc))
  | _, _ => NaN
  end.

Definition fmul (x y : Float) : Float :=
  match x, y with
  | Fin a, Fin b => Fin (a * b)%Qc
  | Fin a, PInf | PInf, Fin a =>
      if decide (a = 0%Qc) then NaN else inf_of_sign (bool_decide (0 < a)%Qc)
  | Fin a, NInf | NInf, Fin a =>
      if decide (a = 0%Qc) then NaN else inf_of_sign (bool_decide (a < 0)%Qc)
  | PInf, PInf | NInf, NInf => PInf
  | PInf, NInf | NInf, PInf => NInf
  | _, _ => NaN
  end.

Definition fsub (x y : Float) : Float :=
  match x, y with
  | Fin a, Fin b => Fin (a - b)%Qc
  | Fin _, PInf | NInf, Fin _ | NInf, PInf => NInf
  | Fin _, NInf | PInf, Fin _ | PInf, NInf => PInf
  | _, _ => NaN
  end.

Definition fadd (x y : Float) : Float :=
  match x, y with
  | Fin a, Fin b => Fin (a + b)%Qc
  | Fin _, PInf | PInf, Fin _ | PInf, PInf => PInf
  | Fin _, NInf | NInf, Fin _ | NInf, NInf => NInf
  | _, _ => NaN
  end.

(** [x < y] on floats; every comparison with NaN is false. *)
Definition flt (x y : Float) : bool :=
  match x, y with
  | Fin a, Fin b => bool_decide (a < b)%Qc
  | Fin _, PInf | NInf, Fin _ | NInf, PInf => true
  | _, _ => false
  end.

Definition of_nat (n : nat) : Qc := Qc_of_Z (Z.of_nat n).
Definition hundred : Float := Fin (Qc_of_Z 100).

(** [pd.isna] / [Series.isna] / [Series.notna] on one cell. *)
Definition isna (c : Cell) : bool :=
  match c with NA => true | _ => false end.

Definition notna (c : Cell) : bool := negb (isna c).

(** [Series.dropna()]. *)
Definition dropna (s : Series) : Series :=
  filter (λ c, notna c = true) s.

(** [Series.unique()]: the distinct values in order of first appearance. *)
Fixpoint unique `{EqDecision A} (s : list A) : list A :=
  match s with
  | [] => []
  | x :: t => x :: filter (λ y, y ≠ x) (unique t)
  end.

(** Number of occurrences of [v] in [s] (one entry of [value_counts]). *)
Definition value_count `{EqDecision A} (v : A) (s : list A) : nat :=
  length (filter (λ y, y = v) s).

(** Stable insertion sort; [before x y] says that [x] must come first. *)
Fixpoint insert_by {A} (before : A → A → bool) (x : A) (l : list A)
  : list A :=
  match l with
  | [] => [x]
  | y :: t => if before y x then y :: insert_by before x t else x :: y :: t
  end.

Definition sort_by {A} (before : A → A → bool) (l : list A) : list A :=
  foldr (insert_by before) [] l.

(** [value_counts(dropna=False)]: each distinct value with its count,
    most frequent first.  The order pandas gives to equal counts is not
    relied upon. *)
Definition value_counts `{EqDecision A} (s : list A) : list (A * nat) :=
  sort_by (λ x y, y.2 <? x.2) ((λ v, (v, value_count v s)) <$> unique s).

(** The highest number of occurrences of any value of [s]. *)
Definition max_count `{EqDecision A} (s : list A) : nat :=
  max_list ((λ v, value_count v s) <$> unique s).

(** [Series.mode()]: every value that reaches the highest count.  pandas
    returns them sorted; the callers below only use the length of the
    result and its element when that length is 1, which sorting does not
    change, so the values are kept in order of first appearance. *)
Definition mode `{EqDecision A} (s : list A) : list A :=
  filter (λ v, value_count v s = max_count s) (unique s).

(** [s.iloc[0]] / [unique[0]] on a series known to be non-empty. *)
Definition iloc0 (s : Series) : Cell := default NA (head s).

(** [Series.nunique()]: number of distinct non-missing values. *)
Definition nunique (s : Series) : nat := length (unique (dropna s)).

(** The number a cell stands for in arithmetic: booleans count as 0/1,
    a missing cell has none, a string is a type error. *)
Definition to_num (c : Cell) : Result (option Qc) :=
  match c with
  | NA => Return None
  | VBool b => Return (Some (if b then 1%Qc else 0%Qc))
  | VInt z => Return (Some (Qc_of_Z z))
  | VFloat q => Return (Some q)
  | VStr _ => Raise TypeError
  end.

(** The numbers of a series, missing cells skipped ([skipna=True]). *)
Definition numbers (s : Series) : Result (list Qc) :=
  omap id <$> mapM to_num s.

Definition qsum (l : list Qc) : Qc := foldr Qcplus 0%Qc l.

(** [Series.sum()]. *)
Definition sum (s : Series) : Result Qc := qsum <$> numbers s.

(** [Series.mean()]: sum over count of the non-missing cells; NaN on an
    empty selection. *)
Definition mean (s : Series) : Result Float :=
  l ← numbers s; Return (fdiv (Fin (qsum l)) (Fin (of_nat (length l)))).

(** A frame: the ordered column labels and the rows. *)
Record DataFrame : Type := {
  columns : list string;
  rows : list (gmap string Cell)
}.

(** [row[col]] for a row of a frame that has the column. *)
Definition cell (r : gmap string Cell) (col : string) : Cell :=
  default NA (r !! col).

(** [len(df)]. *)
Definition len (df : DataFrame) : nat := length (rows df).

(** The cells of a column of the frame. *)
Definition column (df : DataFrame) (col : string) : Series :=
  (λ r, cell r col) <$> rows df.

(** [df[col]]: the column, or [KeyError] when the frame has no such
    column. *)
Definition getitem (df : DataFrame) (col : string) : Result Series :=
  if decide (col ∈ columns df)
  then Return (column df col)
  else Raise (KeyError col).

(** [df[mask]] for a boolean mask aligned with the rows. *)
Definition loc (df : DataFrame) (mask : list bool) : DataFrame :=
  {| columns := columns df;
     rows := fst <$> filter (λ rm, rm.2 = true) (zip (rows df) mask) |}.

(** [cell == flag] for a Python boolean [flag]: numbers compare by value
    ([1 == True]), strings and missing cells are never equal. *)
Definition eq_pybool (flag : bool) (c : Cell) : bool :=
  match c with
  | VBool b => bool_decide (b = flag)
  | VInt z => bool_decide (z = if flag then 1%Z else 0%Z)
  | VFloat q => bool_decide (q = if flag then 1%Qc else 0%Qc)
  | NA | VStr _ => false
  end.

(** Number of cells that satisfy a test ([mask.sum()]). *)
Definition count_if {A} (f : A → bool) (l : list A) : nat :=
  length (filter (λ x, f x = true) l).

(** [df[col] = values]: replaces the column or appends it. *)
Definition setitem (df : DataFrame) (col : string) (values : Series)
  : DataFrame :=
  {| columns := if decide (col ∈ columns df) then columns df
                else columns df ++ [col];
     rows := zip_with (λ r v, <[col := v]> r) (rows df) values |}.

(** [df.groupby(col)] with its defaults: rows whose key is missing belong
    to no group ([dropna=True]); each group is the sub-frame of the rows
    with that key.  pandas lists the groups by sorted key; here they are
    listed by first appearance, the statements below do not depend on the
    order. *)
Definition groupby (df : DataFrame) (col : string)
  : Result (list (Cell * DataFrame)) :=
  keys ← getitem df col;
  Return ((λ k, (k, {| columns := columns df;
                       rows := filter (λ r, cell r col = k) (rows df) |}))
            <$> unique (dropna keys)).

(** [df.rename(columns={old: new})]. *)
Definition rename (df : DataFrame) (old new : string) : DataFrame :=
  {| columns := (λ c, if decide (c = old) then new else c) <$> columns df;
     rows := (λ r : gmap string Cell,
                match r !! old with
                | Some v => <[new := v]> (delete old r)
                | None => r
                end) <$> rows df |}.

(** [pd.DataFrame(records)] for records that all have the keys [cols];
    an empty list of records gives a frame without columns. *)
Definition from_records (cols : list string)
    (records : list (gmap string Cell)) : DataFrame :=
  match records with
  | [] => {| columns := []; rows := [] |}
  | _ => {| columns := cols; rows := records |}
  end.

(** [left.merge(right, on=on, how='left')]: every left row, in order,
    joined with each right row of equal key, or with missing cells when
    there is none.  A non-key label present on both sides gets the
    suffixes [_x] and [_y]. *)
Definition overlap (left right : DataFrame) (on c : string) : bool :=
  bool_decide (c ≠ on ∧ c ∈ columns left ∧ c ∈ columns right).

Definition suffixed (left right : DataFrame) (on suffix c : string)
  : string :=
  if overlap left right on c then c +:+ suffix else c.

Definition right_columns (right : DataFrame) (on : string) : list string :=
  filter (λ c, c ≠ on) (columns right).

Definition join_rows (left right : DataFrame) (on : string)
    (l : gmap string Cell) (r : option (gmap string Cell))
  : gmap string Cell :=
  list_to_map
    (((λ c, (suffixed left right on "_x" c, cell l c)) <$> columns left) ++
     ((λ c, (suffixed left right on "_y" c,
             from_option (λ r, cell r c) NA r)) <$> right_columns right on)).

Definition matches (right : DataFrame) (on : string)
    (l : gmap string Cell) : list (gmap string Cell) :=
  filter (λ r, cell r on = cell l on) (rows right).

Definition merge_left (left right : DataFrame) (on : string)
  : Result DataFrame :=
  if decide (on ∈ columns left ∧ on ∈ columns right) then
    Return {| columns := (suffixed left right on "_x" <$> columns left) ++
                         (suffixed left right on "_y"
                            <$> right_columns right on);
              rows := l ← rows left;
                      match matches right on l with
                      | [] => [join_rows left right on l None]
                      | ms => (λ r, join_rows left right on l (Some r))
                                <$> ms
                      end |}
  else Raise (KeyError on).

(** [pd.cut(x, bins, labels, right)] on one number: the label of the bin
    that holds it, bins closed on the right when [right] and on the left
    otherwise; no bin, no label. *)
Fixpoint cut_label (right : bool) (x : Qc) (bins : list Z)
    (labels : list string) : Cell :=
  match bins, labels with
  | lo :: ((hi :: _) as bins'), lab :: labels' =>
      if (if right
          then bool_decide (Qc_of_Z lo < x)%Qc && bool_decide (x ≤ Qc_of_Z hi)%Qc
          else bool_decide (Qc_of_Z lo ≤ x)%Qc && bool_decide (x < Qc_of_Z hi)%Qc)
      then VStr lab
      else cut_label right x bins' labels'
  | _, _ => NA
  end.

Definition cut (s : Series) (bins : list Z) (labels : list string)
    (right : bool) : Result Series :=
  mapM (λ c, n ← to_num c;
             Return (from_option (λ x, cut_label right x bins labels) NA n)) s.

End Pandas.

Import Pandas.

(** ** customer_standardize.py *)

Module CustomerStandardize.

(** [resolve(series)], lines 33-50. *)
Definition resolve (series : Series) : Cell * Z :=
  let values := dropna series in
  if length values =? 0 then (VStr "Unknown", 0%Z)
  else
    let uniq := unique values in
    if length uniq =? 1 then (iloc0 uniq, 0%Z)
    else
      let mode := mode values in
      if length mode =? 1 then (iloc0 mode, 1%Z)
      else (VStr "Conflict", 1%Z).

(** The body of the loop of lines 55-64: the record of one customer. *)
Definition customer_record (customer_id : Cell) (group : DataFrame)
  : Result (gmap string Cell) :=
  g ← getitem group "customer_gender";
  let '(gender_val, gender_conflict) := resolve g in
  c ← getitem group "country";
  let '(country_val, country_conflict) := resolve c in
  Return (<["customer_id" := customer_id]>
          (<["gender_std" := gender_val]>
          (<["gender_conflict" := VInt gender_conflict]>
          (<["country_std" := country_val]>
          (<["country_conflict" := VInt country_conflict]> ∅))))).

Definition record_columns : list string :=
  ["customer_id"; "gender_std"; "gender_conflict";
   "country_std"; "country_conflict"].

(** Lines 54-66: the customer-level table. *)
Definition build_customer_table (df : DataFrame) : Result DataFrame :=
  groups ← groupby df "customer_id";
  records ← mapM (λ g, customer_record g.1 g.2) groups;
  Return (from_records record_columns records).

(** Lines 54-71: the standardized policy table. *)
Definition standardize (df : DataFrame) : Result DataFrame :=
  df_customer ← build_customer_table df;
  merged ← merge_left df df_customer "customer_id";
  Return (rename merged "gender_std" "customer_gender_std").

(** Lines 26-29 of the preparation: empty strings become missing and a
    missing income band becomes "Unknown".  (Lines 22-24 re-type two date
    columns that the resolution does not read.) *)
Definition prepare (df : DataFrame) : DataFrame :=
  let blank (c : Cell) := if decide (c = VStr "") then NA else c in
  let fill (r : gmap string Cell) :=
    if decide ("income_band" ∈ columns df)
    then (if isna (cell r "income_band")
          then <["income_band" := VStr "Unknown"]> r else r)
    else r in
  {| columns := columns df; rows := (λ r, fill (blank <$> r)) <$> rows df |}.

End CustomerStandardize.

Import CustomerStandardize.

(** ** churn_rate.py *)

Module ChurnRate.

(** Line 19: [overall_churn_rate = df['churned'].mean() * 100]. *)
Definition overall_churn_rate (df : DataFrame) : Result Float :=
  s ← getitem df "churned";
  m ← mean s;
  Return (fmul m hundred).

(** One row of [grp]: the group key with its [Total], [Churned] and
    [Rate%] columns. *)
Record GrpRow : Type := {
  val : Cell;
  Total : nat;
  Churned : Qc;
  Rate : Float
}.

(** [.agg(Total=('policy_id', 'nunique'), Churned=('churned', 'sum'))] on
    one group, followed by the assignment of the column
    [Rate% = Churned / Total * 100].
    A string in [churned] is reported as the type error that the
    division raises. *)
Definition agg_group (g : Cell * DataFrame) : Result GrpRow :=
  ids ← getitem g.2 "policy_id";
  flags ← getitem g.2 "churned";
  churned ← sum flags;
  let total := nunique ids in
  Return {| val := g.1; Total := total; Churned := churned;
            Rate := fmul (fdiv (Fin churned) (Fin (of_nat total))) hundred |}.

(** The aggregation of all groups.  The two aggregated columns must exist
    in the frame, whether or not there is any group; the group column
    itself may be one of them. *)
Definition agg (df : DataFrame) (col : string)
    (groups : list (Cell * DataFrame)) : Result (list GrpRow) :=
  if decide ("policy_id" ∉ columns df)
  then Raise (KeyError "policy_id")
  else if decide ("churned" ∉ columns df)
  then Raise (KeyError "churned")
  else mapM agg_group groups.

(** [.sort_values('Rate%', ascending=False)]: decreasing rate, NaN last.
    The order pandas gives to equal rates is unspecified. *)
Definition before (x y : GrpRow) : bool :=
  match Rate x, Rate y with
  | NaN, _ => false
  | _, NaN => true
  | a, b => flt b a
  end.

Definition sort_values (l : list GrpRow) : list GrpRow :=
  sort_by before l.

(** One printed line of a breakdown: value, total, churned, churn rate
    and the difference to the overall rate ([diff], line 35). *)
Record AggregationRow : Type := {
  Value : Cell;
  total_count : nat;
  churned_count : Qc;
  rate_percent : Float;
  diff : Float
}.

(** A printed breakdown: title, lines and the TOTAL line
    ([grp['Total'].sum()], [grp['Churned'].sum()]). *)
Record Table : Type := {
  title : string;
  lines : list AggregationRow;
  TOTAL : nat * Qc
}.

(** [churn_table(df, col, title)], lines 23-41.  The module-level
    variable [overall_churn_rate] that the function reads is passed as
    [overall]. *)
Definition churn_table (overall : Float) (df : DataFrame)
    (col title : string) : Result Table :=
  groups ← groupby df col;
  aggregated ← agg df col groups;
  let grp := sort_values aggregated in
  Return {| title := title;
            lines := (λ row, {| Value := val row;
                                total_count := Total row;
                                churned_count := Churned row;
                                rate_percent := Rate row;
                                diff := fsub (Rate row) overall |}) <$> grp;
            TOTAL := (sum_list (Total <$> grp), qsum (Churned <$> grp)) |}.

(** The breakdowns of the report, in order (lines 80-124). *)
Definition sections : list (string * string) :=
  [("product_type", "Product Type");
   ("payment_frequency", "Payment Frequency");
   ("acquisition_channel", "Acquisition Channel");
   ("late_payment_count", "Late Payment Count");
   ("customer_service_calls", "Customer Service Calls");
   ("beneficiary_updated", "Beneficiary Updated");
   ("age_group", "Age Group");
   ("customer_gender_std", "Gender (standardized)");
   ("marital_status", "Marital Status");
   ("income_band", "Income Band");
   ("country_std", "Country (standardized)");
   ("discount_applied", "Discount Applied");
   ("has_rider", "Has Rider");
   ("critical_illness_rider", "Critical Illness Rider");
   ("disability_rider", "Disability Rider");
   ("tenure_group", "Tenure Group");
   ("num_dependents", "Number of Dependents")].

(** Lines 45-57: the two derived band columns.  The bands are kept as
    plain labels, so that a band without any row is not listed as a
    group: this is [groupby] with [observed=True], its default from
    pandas 3 on.  Earlier versions also list the bands that hold no row,
    each with a total of 0. *)
Definition add_bands (df : DataFrame) : Result DataFrame :=
  age ← getitem df "customer_age";
  age_group ← cut age [17; 30; 40; 50; 60; 70; 120]%Z
                 ["18-30"; "31-40"; "41-50"; "51-60"; "61-70"; "71+"] true;
  let df := setitem df "age_group" age_group in
  tenure ← getitem df "tenure_months";
  tenure_group ← cut tenure
                   [0; 12; 24; 36; 48; 60; 72; 84; 96; 108; 120; 9999]%Z
                   ["0-1yr"; "1-2yr"; "2-3yr"; "3-4yr"; "4-5yr"; "5-6yr";
                    "6-7yr"; "7-8yr"; "8-9yr"; "9-10yr"; "10yr+"] false;
  Return (setitem df "tenure_group" tenure_group).

(** What one run of the script writes: the overall rate and the
    breakdowns; an exception ends the run. *)
Record Report : Type := {
  policies : nat;
  baseline_rate : Float;
  tables : list Table
}.

Definition run (df : DataFrame) : Result Report :=
  overall ← overall_churn_rate df;
  df ← add_bands df;
  ts ← mapM (λ s, churn_table overall df s.1 s.2) sections;
  Return {| policies := len df; baseline_rate := overall; tables := ts |}.

End ChurnRate.

(** ** sanity_checks.py *)

Module SanityChecks.

(** Column types as [read_csv] infers them. *)
Inductive DType : Type := bool_ | int64 | float64 | object_.

#[global] Instance DType_eq_dec : EqDecision DType.
Proof. solve_decision. Defined.

Definition is_bool (c : Cell) : bool :=
  match c with VBool _ => true | _ => false end.
Definition is_int (c : Cell) : bool :=
  match c with VInt _ => true | _ => false end.
Definition is_number (c : Cell) : bool :=
  match c with VInt _ | VFloat _ | NA => true | _ => false end.
Definition is_str (c : Cell) : bool :=
  match c with VStr _ => true | _ => false end.

Definition dtype_of (s : Series) : DType :=
  match s with
  | [] => object_
  | _ => if forallb is_bool s then bool_
         else if forallb is_int s then int64
         else if forallb is_number s then float64
         else object_
  end.

(** [df.dtypes]. *)
Definition dtypes (df : DataFrame) : list (string * DType) :=
  (λ c, (c, dtype_of (column df c))) <$> columns df.

(** What a [print] call writes: the text of its format string and the
    values that fill it, before rendering. *)
Inductive Arg : Type :=
| AStr (s : string)
| ANat (n : nat)
| ANum (q : Qc)
| AFloat (x : Float)
| ACell (c : Cell)
| ADType (d : DType)
| AExn (e : Exception).

#[global] Instance Arg_eq_dec : EqDecision Arg.
Proof. solve_decision. Defined.

Record Line : Type := { text : string; args : list Arg }.

#[global] Instance Line_eq_dec : EqDecision Line.
Proof. solve_decision. Defined.

(** A computation that prints to the report and returns or raises: the
    lines it has written, and its outcome. *)
Inductive Print (A : Type) : Type :=
| Printed (out : list Line) (res : Result A).
Arguments Printed {A} out res.

Definition output {A} (m : Print A) : list Line :=
  match m with Printed out _ => out end.
Definition outcome {A} (m : Print A) : Result A :=
  match m with Printed _ res => res end.

#[global] Instance Print_ret : MRet Print := λ A a, Printed [] (Return a).
#[global] Instance Print_bind : MBind Print := λ A B f m,
  match m with
  | Printed out (Raise e) => Printed out (Raise e)
  | Printed out (Return a) =>
      match f a with Printed out' res => Printed (out ++ out') res end
  end.

Definition print (text : string) (args : list Arg) : Print () :=
  Printed [{| text := text; args := args |}] (Return ()).

(** A pandas call inside a check: prints nothing, may raise. *)
Definition lift {A} (r : Result A) : Print A := Printed [] r.

(** [for x in l: body]. *)
Definition for_each {A} (l : list A) (body : A → Print ()) : Print () :=
  foldr (λ x rest, body x;; rest) (mret ()) l.

(** [try: m except Exception as e: handler(e)]. *)
Definition try_except {A} (m : Print A) (handler : Exception → Print A)
  : Print A :=
  match m with
  | Printed out (Raise e) =>
      match handler e with Printed out' res => Printed (out ++ out') res end
  | _ => m
  end.

Definition rule (c : string) (n : nat) : string :=
  foldr String.append "" (replicate n c).

(** The three-line banner that opens each section. *)
Definition banner (title : string) : Print () :=
  print (rule "=" 80) [];;
  print title [];;
  print (rule "=" 80) [].

(** *** 1. Shape (lines 15-20) *)
Definition print_shape (df : DataFrame) : Print () :=
  banner "1. SHAPE";;
  print "  Rows:    {len(df):,}" [ANat (len df)];;
  print "  Columns: {len(df.columns)}" [ANat (length (columns df))].

(** *** 2. Data types (lines 24-35) *)
Definition print_dtypes (df : DataFrame) : Print () :=
  banner "2. DATA TYPES";;
  for_each (value_counts (snd <$> dtypes df)) (λ dc,
    print "  {dtype}: {count} columns" [ADType dc.1; ANat dc.2]);;
  print "  Detailed:" [];;
  for_each (dtypes df) (λ cd,
    print "    {col:30} {dtype}" [AStr cd.1; ADType cd.2]).

(** *** 3. Categorical distribution (lines 39-67) *)
Definition categorical_cols : list string :=
  ["customer_gender"; "marital_status"; "product_type";
   "payment_frequency"; "acquisition_channel"; "country"; "income_band"].

Definition percent (count total : nat) : Float :=
  fmul (fdiv (Fin (of_nat count)) (Fin (of_nat total))) hundred.

(** The inner loop of lines 54-57 and 64-67. *)
Definition print_value_counts (s : Series) (total : nat) : Print () :=
  for_each (value_counts s) (λ vc,
    let label := if isna vc.1 then AStr "NULL/Missing" else ACell vc.1 in
    print "    {label:30} {count:6,}  ({pct:5.1f}%)"
          [label; ANat vc.2; AFloat (percent vc.2 total)]).

(** The body of the loop of lines 49-57 for one column. *)
Definition categorical_section (df : DataFrame) (col : string) : Print () :=
  if decide (col ∉ columns df) then mret ()
  else
    print "  {col}:" [AStr col];;
    print ("  " +:+ rule "-" 55) [];;
    s ← lift (getitem df col);
    print_value_counts s (len df).

(** Lines 60-67: churn reasons among the churned policies. *)
Definition churn_reason_section (df : DataFrame) : Print () :=
  if decide ("churn_reason" ∈ columns df ∧ "churned" ∈ columns df) then
    churned ← lift (getitem df "churned");
    let churned_df := loc df (eq_pybool true <$> churned) in
    print "  churn_reason  (churned=True only, n={len(churned_df):,}):"
          [ANat (len churned_df)];;
    print ("  " +:+ rule "-" 55) [];;
    s ← lift (getitem churned_df "churn_reason");
    print_value_counts s (len churned_df)
  else mret ().

Definition print_categorical_distribution (df : DataFrame) : Print () :=
  banner "3. CATEGORICAL DISTRIBUTION";;
  for_each categorical_cols (categorical_section df);;
  churn_reason_section df.

(** *** 4. Missing values (lines 71-110) *)

Definition count_na (s : Series) : nat := count_if isna s.

(** ASCII lower-casing; [str.lower()] agrees with it on every string
    whose lower-case form is pure ASCII, such as "agent". *)
Definition lower_ascii (c : Ascii.ascii) : Ascii.ascii :=
  let n := Ascii.nat_of_ascii c in
  if (65 <=? n) && (n <=? 90) then Ascii.ascii_of_nat (n + 32) else c.

Fixpoint lower_string (s : string) : string :=
  match s with
  | EmptyString => EmptyString
  | String c t => String (lower_ascii c) (lower_string t)
  end.

(** [series.str.lower()]: the accessor exists only on a column of text
    (some string cell, or no row at all); cells that are not strings
    become missing. *)
Definition str_lower (s : Series) : Result Series :=
  if bool_decide (s = []) || existsb is_str s
  then Return ((λ c, match c with VStr t => VStr (lower_string t) | _ => NA end)
                 <$> s)
  else Raise AttributeError.

(** [numpy.rint]: nearest integer, halves to even. *)
Definition rint (q : Qc) : Z :=
  let f := Qfloor q in
  let r := (q - Qc_of_Z f)%Qc in
  if bool_decide (r < Q2Qc (1 # 2))%Qc then f
  else if bool_decide (Q2Qc (1 # 2) < r)%Qc then (f + 1)%Z
  else if Z.even f then f else (f + 1)%Z.

(** [.round(2)]. *)
Definition round2 (x : Float) : Float :=
  match x with
  | Fin q => Fin (Qc_of_Z (rint (q * Qc_of_Z 100)) / Qc_of_Z 100)%Qc
  | _ => x
  end.

Section WithDateParser.

(** How [pd.to_datetime] reads a string: its timestamp, or nothing when
    the string is not a date. *)
Variable parse_date : string → option Z.

(** [pd.to_datetime(series, errors='coerce')]: unreadable strings,
    booleans and missing cells become NaT ([None]); numbers are
    nanoseconds since the epoch. *)
Definition to_datetime (s : Series) : Result (list (option Z)) :=
  mapM (λ c, match c with
             | NA => Return None
             | VStr t => Return (parse_date t)
             | VInt z => Return (Some z)
             | VFloat q => Return (Some (Qfloor q))
             | VBool _ => Return None
             end) s.

Definition isnat (t : option Z) : bool :=
  match t with None => true | Some _ => false end.

(** Lines 90-95. *)
Definition justify_end_date (df : DataFrame) (j : gmap string string)
  : Result (gmap string string) :=
  if decide ("churned" ∈ columns df ∧ "policy_end_date" ∈ columns df) then
    raw ← getitem df "policy_end_date";
    end_date ← to_datetime raw;
    churned ← getitem df "churned";
    if count_if isnat end_date =? count_if (eq_pybool false) churned
    then Return (<["churn_reason" := "✓ churned=False"]>
                 (<["policy_end_date" := "✓ churned=False"]> j))
    else Return j
  else Return j.

(** Lines 97-99. *)
Definition justify_discount (df : DataFrame) (j : gmap string string)
  : Result (gmap string string) :=
  if decide ("discount_applied" ∈ columns df ∧ "discount_rate" ∈ columns df)
  then
    rate ← getitem df "discount_rate";
    applied ← getitem df "discount_applied";
    if count_na rate =? count_if (eq_pybool false) applied
    then Return (<["discount_rate" := "✓ discount_applied=False"]> j)
    else Return j
  else Return j.

(** Lines 101-103. *)
Definition justify_agent (df : DataFrame) (j : gmap string string)
  : Result (gmap string string) :=
  if decide ("acquisition_channel" ∈ columns df ∧ "agent_id" ∈ columns df)
  then
    agent_id ← getitem df "agent_id";
    channel ← getitem df "acquisition_channel";
    lowered ← str_lower channel;
    if count_na agent_id
       =? count_if (λ c, bool_decide (c ≠ VStr "agent")) lowered
    then Return (<["agent_id" := "✓ acquisition_channel != Agent"]> j)
    else Return j
  else Return j.

(** Lines 88-103: the dictionary [justifications]. *)
Definition justifications (df : DataFrame) : Result (gmap string string) :=
  j ← justify_end_date df ∅;
  j ← justify_discount df j;
  justify_agent df j.

(** Lines 76-82: the columns that have missing cells with their count,
    largest count first. *)
Definition missing_df (df : DataFrame) : list (string * nat) :=
  sort_by (λ x y, y.2 <? x.2)
    (filter (λ cm, 0 < cm.2)
       ((λ c, (c, count_na (column df c))) <$> columns df)).

Definition print_missing_values (df : DataFrame) : Print () :=
  banner "4. MISSING VALUES";;
  let missing := missing_df df in
  if bool_decide (missing = []) then print "  No missing values found." []
  else
    j ← lift (justifications df);
    print "  Columns with missing values: {len(missing_df)}"
          [ANat (length missing)];;
    print "  {'Column':<30} {'Missing':>8}  {'%':>7}   Justification" [];;
    print ("  " +:+ rule "-" 70) [];;
    for_each missing (λ row,
      let justif := default "-" (j !! row.1) in
      print "  {row['Column']:<30} {row['Missing']:>8,.0f}  {row['Percent']:>6.2f}%   {justif}"
            [AStr row.1; ANat row.2;
             AFloat (round2 (percent row.2 (len df))); AStr justif]).

(** *** 5. Duplicates (lines 114-136) *)

(** [.duplicated().sum()]: how many entries repeat an earlier one. *)
Definition duplicated_count `{EqDecision A} (l : list A) : nat :=
  length l - length (unique l).

(** [s[s.duplicated(keep=False)].value_counts().head(10)]. *)
Definition top_repeated (s : Series) : list (Cell * nat) :=
  take 10 (value_counts
             (dropna (filter (λ v, 1 < value_count v s) s))).

(** Lines 121-127. *)
Definition policy_id_duplicates (df : DataFrame) : Print () :=
  if decide ("policy_id" ∈ columns df) then
    s ← lift (getitem df "policy_id");
    let id_dupes := duplicated_count s in
    print "  Duplicate policy_id:    {id_dupes:,}" [ANat id_dupes];;
    if 0 <? id_dupes then
      for_each (top_repeated s) (λ pc,
        print "    {pid}: {count} occurrences" [ACell pc.1; ANat pc.2])
    else mret ()
  else mret ().

(** Lines 129-136. *)
Definition customer_id_duplicates (df : DataFrame) : Print () :=
  if decide ("customer_id" ∈ columns df) then
    s ← lift (getitem df "customer_id");
    let cust_dupes := duplicated_count s in
    print "  Duplicate customer_id:  {cust_dupes:,}" [ANat cust_dupes];;
    if 0 <? cust_dupes then
      print "  (showing top 10)" [];;
      for_each (top_repeated s) (λ cc,
        print "    {cid}: {count} occurrences" [ACell cc.1; ANat cc.2])
    else mret ()
  else mret ().

Definition print_duplicates (df : DataFrame) : Print () :=
  banner "5. DUPLICATES";;
  print "  Full row duplicates:    {df.duplicated().sum():,}"
        [ANat (duplicated_count
                 ((λ r, cell r <$> columns df) <$> rows df))];;
  policy_id_duplicates df;;
  customer_id_duplicates df.

(** *** 6. Impossible values (lines 140-204) *)

Definition qlt (x y : Qc) : bool := bool_decide (x < y)%Qc.
Definition qle (x y : Qc) : bool := bool_decide (x ≤ y)%Qc.

(** The table [checks] of lines 148-160. *)
Definition checks : list (string * (Qc → bool) * string) :=
  [("customer_age", (λ s, qlt s (Qc_of_Z 18) || qlt (Qc_of_Z 120) s),
    "not in [18–120]");
   ("num_dependents", (λ s, qlt s 0%Qc), "< 0");
   ("coverage_amount", (λ s, qle s 0%Qc), "<= 0");
   ("premium", (λ s, qle s 0%Qc), "<= 0");
   ("tenure_months", (λ s, qlt s 0%Qc), "< 0");
   ("renewal_count", (λ s, qlt s 0%Qc), "< 0");
   ("num_riders", (λ s, qlt s 0%Qc), "< 0");
   ("late_payment_count", (λ s, qlt s 0%Qc), "< 0");
   ("customer_service_calls", (λ s, qlt s 0%Qc), "< 0");
   ("premium_change_pct", (λ s, qlt s (Qc_of_Z (-1)) || qlt 1%Qc s),
    "not in [-1, 1]");
   ("discount_rate", (λ s, qlt s 0%Qc || qlt 1%Qc s), "not in [0, 1]")].

(** [fn(df[col]).sum()]: a comparison with a missing cell is false, a
    comparison of a string with a number is a type error. *)
Definition count_where (fn : Qc → bool) (s : Series) : Result nat :=
  ns ← mapM to_num s;
  Return (count_if (from_option fn false) ns).

(** [if n > 0: issues.append(...)]. *)
Definition issue (text : string) (args : list Arg) (n : nat) : list Line :=
  if 0 <? n then [{| text := text; args := args ++ [ANat n] |}] else [].

(** Lines 162-165: one entry of [checks]. *)
Definition range_issue (df : DataFrame) (check : string * (Qc → bool) * string)
  : Result (list Line) :=
  let '(col, fn, label) := check in
  if decide (col ∈ columns df) then
    s ← getitem df col;
    n ← count_where fn s;
    Return (issue "  {col} {label}: {n:,}" [AStr col; AStr label] n)
  else Return [].

(** Lines 161-165. *)
Definition range_issues (df : DataFrame) : Result (list Line) :=
  (λ found : list (list Line), mjoin found) <$> mapM (range_issue df) checks.

(** Lines 168-175. *)
Definition date_issues (df : DataFrame) : Result (list Line) :=
  if decide ("policy_start_date" ∈ columns df ∧ "policy_end_date" ∈ columns df)
  then
    raw_start ← getitem df "policy_start_date";
    raw_end ← getitem df "policy_end_date";
    start ← to_datetime raw_start;
    end_date ← to_datetime raw_end;
    let n := count_if (λ se : option Z * option Z,
                         match se with
                         | (Some s, Some e) => (e <? s)%Z
                         | _ => false
                         end) (zip start end_date) in
    Return (issue "  policy_end_date before policy_start_date: {n:,}" [] n)
  else Return [].

(** Lines 178-184. *)
Definition churn_issues (df : DataFrame) : Result (list Line) :=
  if decide ("churned" ∈ columns df ∧ "policy_end_date" ∈ columns df) then
    raw_end ← getitem df "policy_end_date";
    end_date ← to_datetime raw_end;
    churned ← getitem df "churned";
    let n1 := count_if (λ ce : Cell * option Z,
                          eq_pybool true ce.1 && isnat ce.2)
                       (zip churned end_date) in
    let n2 := count_if (λ ce : Cell * option Z,
                          negb (isnat ce.2) && eq_pybool false ce.1)
                       (zip churned end_date) in
    Return (issue "  churned=True but policy_end_date missing: {n1:,}" [] n1
            ++ issue "  policy_end_date exists but churned=False: {n2:,}" [] n2)%list
  else Return [].

(** Lines 186-190. *)
Definition discount_issues (df : DataFrame) : Result (list Line) :=
  if decide ("discount_applied" ∈ columns df ∧ "discount_rate" ∈ columns df)
  then
    applied ← getitem df "discount_applied";
    rate ← getitem df "discount_rate";
    let n1 := count_if (λ ar : Cell * Cell,
                          eq_pybool true ar.1 && isna ar.2)
                       (zip applied rate) in
    let n2 := count_if (λ ar : Cell * Cell,
                          notna ar.2 && eq_pybool false ar.1)
                       (zip applied rate) in
    Return (issue "  discount_applied=True but discount_rate missing: {n1:,}" [] n1
            ++ issue "  discount_rate exists but discount_applied=False: {n2:,}" [] n2)%list
  else Return [].

(** Lines 192-197. *)
Definition agent_issues (df : DataFrame) : Result (list Line) :=
  if decide ("acquisition_channel" ∈ columns df ∧ "agent_id" ∈ columns df)
  then
    channel ← getitem df "acquisition_channel";
    lowered ← str_lower channel;
    let is_agent := (λ c, bool_decide (c = VStr "agent")) <$> lowered in
    agent_id ← getitem df "agent_id";
    let n1 := count_if (λ ia : bool * Cell, ia.1 && isna ia.2)
                       (zip is_agent agent_id) in
    let n2 := count_if (λ ia : bool * Cell, notna ia.2 && negb ia.1)
                       (zip is_agent agent_id) in
    Return (issue "  acquisition_channel=Agent but agent_id missing: {n1:,}" [] n1
            ++ issue "  agent_id exists but acquisition_channel != Agent: {n2:,}" [] n2)%list
  else Return [].

Definition print_impossible_values (df : DataFrame) : Print () :=
  banner "6. IMPOSSIBLE VALUES";;
  i1 ← lift (range_issues df);
  i2 ← lift (date_issues df);
  i3 ← lift (churn_issues df);
  i4 ← lift (discount_issues df);
  i5 ← lift (agent_issues df);
  let issues := (i1 ++ i2 ++ i3 ++ i4 ++ i5)%list in
  if bool_decide (issues ≠ []) then
    print "  Issues found: {len(issues)}" [ANat (length issues)];;
    for_each issues (λ l, Printed [l] (Return ()))
  else print "  No impossible values detected." [].

(** *** 7. Outliers (lines 208-242) *)

Definition numeric_cols : list string :=
  ["customer_age"; "coverage_amount"; "premium"; "tenure_months";
   "num_dependents"; "renewal_count"; "num_riders"; "late_payment_count";
   "customer_service_calls"; "premium_change_pct"; "discount_rate"].

(** [Series.quantile(q)] with the default linear interpolation: the
    value at position [(n - 1) * q] of the sorted data, interpolated
    between its two neighbours. *)
Definition quantile (xs : list Qc) (q : Qc) : Qc :=
  let sorted := sort_by qlt xs in
  let pos := (of_nat (length xs - 1) * q)%Qc in
  let i := Z.to_nat (Qfloor pos) in
  let frac := (pos - of_nat i)%Qc in
  let lo := default 0%Qc (sorted !! i) in
  let hi := default lo (sorted !! (i + 1)) in
  (lo + (hi - lo) * frac)%Qc.

(** The figures of one row of the outlier table. *)
Record Outliers : Type := {
  q1 : Qc; q3 : Qc; iqr : Qc; lower : Qc; upper : Qc; n_out : nat
}.

#[global] Instance Outliers_eq_dec : EqDecision Outliers.
Proof. solve_decision. Defined.

(** Lines 226-234 for one column: nothing when the column has no value
    or its IQR is zero.  The quartiles of a column of dtype bool are
    booleans, and their difference is a type error. *)
Definition outlier_stats (column : Series) : Result (option Outliers) :=
  let s := dropna column in
  if length s =? 0 then Return None
  else if decide (dtype_of column = bool_) then Raise TypeError
  else
    xs ← numbers s;
    let q1 := quantile xs (Q2Qc (1 # 4)) in
    let q3 := quantile xs (Q2Qc (3 # 4)) in
    let iqr := (q3 - q1)%Qc in
    if decide (iqr = 0%Qc) then Return None
    else
      let lower := (q1 - Q2Qc (3 # 2) * iqr)%Qc in
      let upper := (q3 + Q2Qc (3 # 2) * iqr)%Qc in
      let n_out := count_if (λ x, qlt x lower || qlt upper x) xs in
      Return (Some {| q1 := q1; q3 := q3; iqr := iqr; lower := lower;
                      upper := upper; n_out := n_out |}).

(** The body of the loop of lines 223-239 for one column: prints the row
    of the column, if it has one, and tells whether it has outliers. *)
Definition outlier_row (df : DataFrame) (col : string) : Print bool :=
  if decide (col ∉ columns df) then mret false
  else
    column ← lift (getitem df col);
    stats ← lift (outlier_stats column);
    match stats with
    | None => mret false
    | Some o =>
        let pct := percent (n_out o) (length (dropna column)) in
        let flag := if 0 <? n_out o then "  <--" else "" in
        print "  {col:<28} {q1:>8.2f} {q3:>8.2f} {iqr:>8.2f} {lower:>10.2f} {upper:>10.2f} {n_out:>10,} {pct:>5.1f}%{flag}"
              [AStr col; ANum (q1 o); ANum (q3 o); ANum (iqr o);
               ANum (lower o); ANum (upper o); ANat (n_out o);
               AFloat pct; AStr flag];;
        mret (0 <? n_out o)
    end.

(** The loop of lines 223-239, with the flag [any_outliers]. *)
Fixpoint outliers_loop (df : DataFrame) (cols : list string)
    (any_outliers : bool) : Print bool :=
  match cols with
  | [] => mret any_outliers
  | col :: rest =>
      found ← outlier_row df col;
      outliers_loop df rest (any_outliers || found)
  end.

Definition print_outliers (df : DataFrame) : Print () :=
  banner "7. OUTLIERS  (IQR method: outside Q1 − 1.5×IQR  /  Q3 + 1.5×IQR)";;
  print "  {'Column':<28} {'Q1':>8} {'Q3':>8} {'IQR':>8} {'Lower':>10} {'Upper':>10} {'Outliers':>10} {'%':>6}" [];;
  print ("  " +:+ rule "-" 92) [];;
  any_outliers ← outliers_loop df numeric_cols false;
  if negb any_outliers then print "  No outliers detected." []
  else mret ().

(** *** Main (lines 246-278) *)

(** [pd.read_csv(CSV_FILE)]: the table of the file, when there is one. *)
Definition read_csv (file : option DataFrame) : Result DataFrame :=
  match file with
  | Some df => Return df
  | None => Raise FileNotFoundError
  end.

(** The seven checks in their fixed order. *)
Definition battery : list (DataFrame → Print ()) :=
  [print_shape; print_dtypes; print_categorical_distribution;
   print_missing_values; print_duplicates; print_impossible_values;
   print_outliers].

(** Lines 258-269: the body of the inner [try]. *)
Definition run_checks (file : option DataFrame) : Print () :=
  df ← lift (read_csv file);
  print_shape df;;
  print_dtypes df;;
  print_categorical_distribution df;;
  print_missing_values df;;
  print_duplicates df;;
  print_impossible_values df;;
  print_outliers df;;
  banner "CHECKS COMPLETE".

(** The [except] clauses of lines 271-274. *)
Definition report_error (e : Exception) : Print () :=
  match e with
  | FileNotFoundError =>
      print "Error: '{CSV_FILE}' not found. Run from the folder containing the file." []
  | _ => print "Error: {e}" [AExn e]
  end.

(** [main()]: what is written to the report file. *)
Definition main (file : option DataFrame) : Print () :=
  print (rule "=" 80) [];;
  print "DATA SANITY CHECKS — policies.csv" [];;
  print (rule "=" 80) [];;
  try_except (run_checks file) report_error.

(** [run_quality_checks()] of data_cleaning.py (lines 222-243): the
    same battery without any [except] clause. *)
Definition run_quality_checks (file : option DataFrame) : Print () :=
  print (rule "=" 80) [];;
  print "DATA QUALITY CHECKS — policies.csv" [];;
  print (rule "=" 80) [];;
  run_checks file.

End WithDateParser.

End SanityChecks.

Import ChurnRate SanityChecks.

(** * Vocabulary of the statements

    The notions and the concrete tables that the theorems below are
    stated with. *)

(** The raw observations of [field] for one customer. *)
Definition observations (df : DataFrame) (customer : Cell) (field : string)
  : Series :=
  (λ r, cell r field) <$> filter (λ r, cell r "customer_id" = customer) (rows df).

(** The record that lines 56-64 build for a customer. *)
Definition record_of (df : DataFrame) (customer : Cell) : gmap string Cell :=
  let g := resolve (observations df customer "customer_gender") in
  let c := resolve (observations df customer "country") in
  <["customer_id" := customer]>
  (<["gender_std" := g.1]>
  (<["gender_conflict" := VInt g.2]>
  (<["country_std" := c.1]>
  (<["country_conflict" := VInt c.2]> ∅)))).

Definition customers (df : DataFrame) : list Cell :=
  unique (dropna (column df "customer_id")).

(** The columns that the merge adds. *)
Definition derived : list string :=
  ["gender_std"; "gender_conflict"; "country_std"; "country_conflict"].

(** The customer-level table of lines 54-66 on a table with customers. *)
Definition customer_table (df : DataFrame) : DataFrame :=
  {| columns := record_columns; rows := record_of df <$> customers df |}.

(** The customer record joined to a policy row, if its key has one. *)
Definition partner (df : DataFrame) (l : gmap string Cell)
  : option (gmap string Cell) :=
  if decide (cell l "customer_id" ∈ customers df)
  then Some (record_of df (cell l "customer_id")) else None.

(** The table of the end-to-end scenario: three policies of customer C1
    with genders F, F, M and one policy of customer C2 without gender. *)
Definition scenario : DataFrame :=
  let policy (pid cid : string) (gender : Cell) : gmap string Cell :=
    <["policy_id" := VStr pid]> (<["customer_id" := VStr cid]>
    (<["customer_gender" := gender]> (<["country" := VStr "IL"]> ∅))) in
  {| columns := ["policy_id"; "customer_id"; "customer_gender"; "country"];
     rows := [policy "P1" "C1" (VStr "F"); policy "P2" "C1" (VStr "F");
              policy "P3" "C1" (VStr "M"); policy "P4" "C2" NA] |}.

Definition fresh_columns (df : DataFrame) : Prop :=
  ∀ c, c ∈ ["customer_gender_std"; "gender_std"; "gender_conflict";
            "country_std"; "country_conflict"] → c ∉ columns df.

(** What C2 asks of the standardized table [out] of [df]: the policy rows
    are kept in place, and the row of every policy of a customer carries
    the resolver's output on all the raw observations of that customer. *)
Definition broadcast (df out : DataFrame) : Prop :=
  length (rows out) = length (rows df) ∧
  ∀ i r, rows df !! i = Some r → cell r "customer_id" ≠ NA →
    ∃ r', rows out !! i = Some r' ∧
      cell r' "customer_id" = cell r "customer_id" ∧
      let gender := resolve (observations df (cell r "customer_id")
                                          "customer_gender") in
      let country := resolve (observations df (cell r "customer_id")
                                           "country") in
      cell r' "customer_gender_std" = gender.1 ∧
      cell r' "gender_conflict" = VInt gender.2 ∧
      cell r' "country_std" = country.1 ∧
      cell r' "country_conflict" = VInt country.2.

(** The number of a cell of the churn column, when it has one. *)
Definition num_opt (c : Cell) : option Qc :=
  match c with
  | VBool b => Some (if b then 1%Qc else 0%Qc)
  | VInt z => Some (Qc_of_Z z)
  | VFloat q => Some q
  | NA | VStr _ => None
  end.

(** The churn flag of a row as a number, zero when it is missing. *)
Definition churn_flag (r : gmap string Cell) : Qc :=
  default 0%Qc (num_opt (cell r "churned")).

(** The group keys of a breakdown and the rows of one group. *)
Definition keys (df : DataFrame) (col : string) : list Cell :=
  unique (dropna (column df col)).

Definition group_rows (df : DataFrame) (col : string) (k : Cell)
  : list (gmap string Cell) :=
  filter (λ r, cell r col = k) (rows df).

(** The policy identities of a list of rows. *)
Definition policy_ids (l : list (gmap string Cell)) : list Cell :=
  unique (dropna ((λ r, cell r "policy_id") <$> l)).

(** The row of [grp] for one key. *)
Definition grp_row (df : DataFrame) (col : string) (k : Cell) : GrpRow :=
  let g := group_rows df col k in
  let churned := qsum (churn_flag <$> g) in
  let total := length (policy_ids g) in
  {| val := k; Total := total; Churned := churned;
     Rate := fmul (fdiv (Fin churned) (Fin (of_nat total))) hundred |}.

Definition line_of (overall : Float) (row : GrpRow) : AggregationRow :=
  {| Value := val row; total_count := Total row;
     churned_count := Churned row; rate_percent := Rate row;
     diff := fsub (Rate row) overall |}.

(** A table on which a breakdown by [col] can be computed: the three
    columns exist and the churn column holds no text. *)
Record churn_ready (df : DataFrame) (col : string) : Prop := {
  ready_col : col ∈ columns df;
  ready_id : "policy_id" ∈ columns df;
  ready_churned : "churned" ∈ columns df;
  ready_numeric : Forall (λ r, is_str (cell r "churned") = false) (rows df)
}.

(** A table with every column the report reads. *)
Definition sample_columns : list string :=
  ["policy_id"; "churned"; "customer_age"; "tenure_months";
   "product_type"; "payment_frequency"; "acquisition_channel";
   "late_payment_count"; "customer_service_calls"; "beneficiary_updated";
   "customer_gender_std"; "marital_status"; "income_band"; "country_std";
   "discount_applied"; "has_rider"; "critical_illness_rider";
   "disability_rider"; "num_dependents"].

Definition sample_policies : DataFrame :=
  let policy (values : list Cell) : gmap string Cell :=
    list_to_map (zip sample_columns values) in
  {| columns := sample_columns;
     rows :=
       [policy [VStr "P1"; VBool true; VInt 25; VInt 6;
                VStr "Term"; VStr "Monthly"; VStr "Agent";
                VInt 2; VInt 1; VBool false;
                VStr "F"; VStr "Single"; VStr "Low"; VStr "IL";
                VBool false; VBool false; VBool false; VBool false; VInt 0];
        policy [VStr "P2"; VBool false; VInt 45; VInt 30;
                VStr "Term"; VStr "Annual"; VStr "Online";
                VInt 0; VInt 0; VBool true;
                VStr "M"; VStr "Married"; VStr "High"; VStr "US";
                VBool true; VBool true; VBool false; VBool true; VInt 2];
        policy [VStr "P3"; VBool false; VInt 63; VInt 130;
                VStr "Whole"; NA; VStr "Online";
                VInt 0; VInt 3; VBool true;
                VStr "M"; VStr "Married"; VStr "Unknown"; VStr "US";
                VBool false; VBool true; VBool true; VBool false; VInt 1]] |}.

(** The rows of a table that a breakdown by [col] looks at. *)
Definition dropna_rows (df : DataFrame) (col : string) : DataFrame :=
  {| columns := columns df;
     rows := filter (λ r, cell r col ≠ NA) (rows df) |}.

(** A table with one policy split over two product types. *)
Definition split_policy : DataFrame :=
  let policy (pid product : string) (churned : bool) : gmap string Cell :=
    <["policy_id" := VStr pid]> (<["product_type" := VStr product]>
    (<["churned" := VBool churned]> ∅)) in
  {| columns := ["policy_id"; "product_type"; "churned"];
     rows := [policy "P1" "Term" false; policy "P1" "Whole" false] |}.

(** A table in which the row of policy P1, which churned, occurs twice. *)
Definition duplicated_policy : DataFrame :=
  let policy : gmap string Cell :=
    <["policy_id" := VStr "P1"]> (<["product_type" := VStr "Term"]>
    (<["churned" := VBool true]> ∅)) in
  {| columns := ["policy_id"; "product_type"; "churned"];
     rows := [policy; policy] |}.

(** The data of the outlier example. *)
Definition example_data : Series := VInt <$> [1; 2; 3; 4; 5; 100]%Z.

(** A date parser for tables that hold no date text. *)
Definition never_a_date : string → option Z := λ _, None.

(** A table whose acquisition_channel column is empty in every row. *)
Definition empty_channel : DataFrame :=
  let policy (pid : string) (agent : Cell) (age : Z) : gmap string Cell :=
    <["policy_id" := VStr pid]> (<["acquisition_channel" := NA]>
    (<["agent_id" := agent]> (<["customer_age" := VInt age]> ∅))) in
  {| columns := ["policy_id"; "acquisition_channel"; "agent_id"; "customer_age"];
     rows := [policy "P1" NA 30%Z; policy "P2" (VStr "A7") 200%Z] |}.

(** The lines each check of a list prints on [df], in order. *)
Definition sections_of (df : DataFrame) (cs : list (DataFrame → Print ()))
  : list Line :=
  cs ≫= λ c, output (c df).

(** A computation that does not end in a [KeyError]. *)
Definition no_key_error {A} (r : Result A) : Prop :=
  ∀ k, r ≠ Raise (KeyError k).

Definition prints_safely {A} (m : Print A) : Prop :=
  no_key_error (outcome m).

(** The sample table without its product_type column. *)
Definition without_product_type : DataFrame :=
  {| columns := filter (λ c, c ≠ "product_type") (columns sample_policies);
     rows := delete "product_type" <$> rows sample_policies |}.

(** The justification on the row that section 4 prints for [col], when
    [line] is that row. *)
Definition row_of (col : string) (line : Line) : option string :=
  match args line with
  | [AStr c; ANat _; AFloat _; AStr justif] =>
      if decide (c = col) then Some justif else None
  | _ => None
  end.

(** The report marks the missingness of [col] as justified. *)
Definition flagged (parse_date : string → option Z) (df : DataFrame)
    (col : string) : Prop :=
  ∃ line justif,
    line ∈ output (print_missing_values parse_date df) ∧
    row_of col line = Some justif ∧ justif ≠ "-".

(** The three tests of lines 90-103. *)
Definition end_date_test (parse_date : string → option Z) (df : DataFrame)
  : Prop :=
  "churned" ∈ columns df ∧ "policy_end_date" ∈ columns df ∧
  ∃ dates, to_datetime parse_date (column df "policy_end_date") = Return dates ∧
    count_if isnat dates = count_if (eq_pybool false) (column df "churned").

Definition discount_test (df : DataFrame) : Prop :=
  "discount_applied" ∈ columns df ∧ "discount_rate" ∈ columns df ∧
  count_na (column df "discount_rate")
    = count_if (eq_pybool false) (column df "discount_applied").

Definition agent_test (df : DataFrame) : Prop :=
  "acquisition_channel" ∈ columns df ∧ "agent_id" ∈ columns df ∧
  ∃ lowered, str_lower (column df "acquisition_channel") = Return lowered ∧
    count_na (column df "agent_id")
      = count_if (λ c, bool_decide (c ≠ VStr "agent")) lowered.

(** The row of section 4 for one entry of [missing_df]. *)
Definition missing_row (df : DataFrame) (j : gmap string string)
    (row : string * nat) : Line :=
  {| text := "  {row['Column']:<30} {row['Missing']:>8,.0f}  {row['Percent']:>6.2f}%   {justif}";
     args := [AStr row.1; ANat row.2;
              AFloat (round2 (percent row.2 (len df)));
              AStr (default "-" (j !! row.1))] |}.

(** The lines above the rows of section 4. *)
Definition missing_head (df : DataFrame) : list Line :=
  (output (banner "4. MISSING VALUES") ++
   [{| text := "  Columns with missing values: {len(missing_df)}";
       args := [ANat (length (missing_df df))] |};
    {| text := "  {'Column':<30} {'Missing':>8}  {'%':>7}   Justification";
       args := [] |};
    {| text := "  " +:+ rule "-" 70; args := [] |}])%list.

(** The missing-value scenario of the discount columns: the discount rate
    is missing on exactly the rows without a discount. *)
Definition discount_scenario (df : DataFrame) : Prop :=
  "discount_applied" ∈ columns df ∧ "discount_rate" ∈ columns df ∧
  ∀ r, r ∈ rows df →
    isna (cell r "discount_rate") = eq_pybool false (cell r "discount_applied").

(** A table in which a policy that did not churn still has no churn
    reason missing: one of two. *)
Definition unexplained_reason : DataFrame :=
  let policy (pid : string) (reason : Cell) : gmap string Cell :=
    <["policy_id" := VStr pid]> (<["churned" := VBool false]>
    (<["policy_end_date" := NA]> (<["churn_reason" := reason]> ∅))) in
  {| columns := ["policy_id"; "churned"; "policy_end_date"; "churn_reason"];
     rows := [policy "P1" NA; policy "P2" (VStr "Price")] |}.

(** Two runs of the discount scenario: in the second the discount rate of
    policy P3, which has no discount, is filled in. *)
Definition discounts (rate3 : Cell) : DataFrame :=
  let policy (pid : string) (applied : bool) (rate : Cell)
    : gmap string Cell :=
    <["policy_id" := VStr pid]> (<["discount_applied" := VBool applied]>
    (<["discount_rate" := rate]> ∅)) in
  {| columns := ["policy_id"; "discount_applied"; "discount_rate"];
     rows := [policy "P1" false NA;
              policy "P2" true (VFloat (Q2Qc (1 # 10)));
              policy "P3" false rate3] |}.

(** Two policies that name no customer. *)
Definition anonymous_policies : DataFrame :=
  let policy (pid : string) (gender : Cell) : gmap string Cell :=
    <["policy_id" := VStr pid]> (<["customer_id" := NA]>
    (<["customer_gender" := gender]> (<["country" := VStr "IL"]> ∅))) in
  {| columns := ["policy_id"; "customer_id"; "customer_gender"; "country"];
     rows := [policy "P1" (VStr "F"); policy "P2" (VStr "M")] |}.

(** A policy of customer C1 followed by a policy that names no
    customer. *)
Definition stray_policy : DataFrame :=
  let policy (pid : string) (cid gender : Cell) : gmap string Cell :=
    <["policy_id" := VStr pid]> (<["customer_id" := cid]>
    (<["customer_gender" := gender]> (<["country" := VStr "IL"]> ∅))) in
  {| columns := ["policy_id"; "customer_id"; "customer_gender"; "country"];
     rows := [policy "P1" (VStr "C1") (VStr "F"); policy "P2" NA (VStr "M")] |}.

(** [replace('', pd.NA)] on one cell (line 26). *)
Definition blank (c : Cell) : Cell := if decide (c = VStr "") then NA else c.

(** Lines 26-29 on one row of a table with the columns [cols]. *)
Definition prepare_row (cols : list string) (r : gmap string Cell)
  : gmap string Cell :=
  if decide ("income_band" ∈ cols)
  then (if isna (blank (cell r "income_band"))
        then <["income_band" := VStr "Unknown"]> (blank <$> r)
        else blank <$> r)
  else blank <$> r.

(** [x] lies in the bin from [lo] to [hi] of [pd.cut]: closed on the right
    when [right], on the left otherwise. *)
Definition in_bin (right : bool) (x : Qc) (lo hi : Z) : Prop :=
  if right then (Qc_of_Z lo < x)%Qc ∧ (x ≤ Qc_of_Z hi)%Qc
  else (Qc_of_Z lo ≤ x)%Qc ∧ (x < Qc_of_Z hi)%Qc.

#[global] Instance in_bin_dec right x lo hi : Decision (in_bin right x lo hi).
Proof. unfold in_bin. destruct right; apply _. Defined.

(** The bins and labels of lines 45-57 of churn_rate.py. *)
Definition age_bins : list Z := [17; 30; 40; 50; 60; 70; 120]%Z.
Definition age_labels : list string :=
  ["18-30"; "31-40"; "41-50"; "51-60"; "61-70"; "71+"].
Definition tenure_bins : list Z :=
  [0; 12; 24; 36; 48; 60; 72; 84; 96; 108; 120; 9999]%Z.
Definition tenure_labels : list string :=
  ["0-1yr"; "1-2yr"; "2-3yr"; "3-4yr"; "4-5yr"; "5-6yr";
   "6-7yr"; "7-8yr"; "8-9yr"; "9-10yr"; "10yr+"].

(** The band of one cell: a cell without a number has none. *)
Definition band (right : bool) (bins : list Z) (labels : list string)
    (c : Cell) : Cell :=
  from_option (λ x, cut_label right x bins labels) NA (num_opt c).

(** The count on a line of a distribution of section 3. *)
Definition printed_count (line : Line) : option nat :=
  match args line with
  | [_; ANat count; AFloat _] => Some count
  | _ => None
  end.

(** The counts that a printing computation shows, in order. *)
Definition printed_counts {A} (m : Print A) : list nat :=
  omap printed_count (output m).

(** Two churned policies, one of them without a reason, and a policy
    that did not churn. *)
Definition churn_reasons : DataFrame :=
  let policy (pid : string) (churned : bool) (reason : Cell)
    : gmap string Cell :=
    <["policy_id" := VStr pid]> (<["churned" := VBool churned]>
    (<["churn_reason" := reason]> ∅)) in
  {| columns := ["policy_id"; "churned"; "churn_reason"];
     rows := [policy "P1" true (VStr "Price"); policy "P2" true NA;
              policy "P3" false NA] |}.

(** A table in which policy P1 occurs twice. *)
Definition repeated_policy : DataFrame :=
  let policy (pid : string) : gmap string Cell :=
    <["policy_id" := VStr pid]> ∅ in
  {| columns := ["policy_id"];
     rows := [policy "P1"; policy "P2"; policy "P1"] |}.

(** Discounts that agree with their flag: a rate on the row with a
    discount, none on the row without. *)
Definition consistent_discounts : DataFrame :=
  let policy (pid : string) (applied : bool) (rate : Cell)
    : gmap string Cell :=
    <["policy_id" := VStr pid]> (<["discount_applied" := VBool applied]>
    (<["discount_rate" := rate]> ∅)) in
  {| columns := ["policy_id"; "discount_applied"; "discount_rate"];
     rows := [policy "P1" false NA;
              policy "P2" true (VFloat (Q2Qc (1 # 10)))] |}.

(** An agent sale with its agent and an online sale without one. *)
Definition consistent_agents : DataFrame :=
  let policy (pid channel : string) (agent : Cell) : gmap string Cell :=
    <["policy_id" := VStr pid]> (<["acquisition_channel" := VStr channel]>
    (<["agent_id" := agent]> ∅)) in
  {| columns := ["policy_id"; "acquisition_channel"; "agent_id"];
     rows := [policy "P1" "Agent" (VStr "A7"); policy "P2" "Online" NA] |}.

(** A churned policy with its end date and an active policy without
    one; the end date is given as a timestamp. *)
Definition consistent_end_dates : DataFrame :=
  let policy (pid : string) (churned : bool) (end_date : Cell)
    : gmap string Cell :=
    <["policy_id" := VStr pid]> (<["churned" := VBool churned]>
    (<["policy_end_date" := end_date]> ∅)) in
  {| columns := ["policy_id"; "churned"; "policy_end_date"];
     rows := [policy "P1" true (VInt 1700000000); policy "P2" false NA] |}.

(** The line that section 4 prints for a table without missing cells. *)
Definition no_missing_line : Line :=
  {| text := "  No missing values found."; args := [] |}.

(** A table that has every cell of its two columns. *)
Definition complete_policies : DataFrame :=
  let policy (pid channel : string) : gmap string Cell :=
    <["policy_id" := VStr pid]> (<["acquisition_channel" := VStr channel]> ∅) in
  {| columns := ["policy_id"; "acquisition_channel"];
     rows := [policy "P1" "Agent"; policy "P2" "Online"] |}.

(** A computation that returns. *)
Definition ok {A} (r : Result A) : Prop := ∃ a, r = Return a.

(** A printing computation that runs to its end. *)
Definition completes {A} (m : Print A) : Prop := ok (outcome m).

(** A column of numbers: every cell is an integer, a float or missing. *)
Definition numeric (s : Series) : Prop := Forall (λ c, is_number c = true) s.

(** Two policies whose premium column was read as booleans. *)
Definition boolean_premium : DataFrame :=
  let policy (pid : string) (premium : bool) : gmap string Cell :=
    <["policy_id" := VStr pid]> (<["premium" := VBool premium]> ∅) in
  {| columns := ["policy_id"; "premium"];
     rows := [policy "P1" true; policy "P2" false] |}.

(** Ages of three policies, one of them below the allowed range and one
    missing. *)
Definition some_ages : DataFrame :=
  let policy (pid : string) (age : Cell) : gmap string Cell :=
    <["policy_id" := VStr pid]> (<["customer_age" := age]> ∅) in
  {| columns := ["policy_id"; "customer_age"];
     rows := [policy "P1" (VInt 17); policy "P2" NA; policy "P3" (VInt 40)] |}.

(** A table whose premium is the same on every row that has one. *)
Definition flat_premium : DataFrame :=
  let policy (pid : string) (premium : Cell) : gmap string Cell :=
    <["policy_id" := VStr pid]> (<["premium" := premium]> ∅) in
  {| columns := ["policy_id"; "premium"];
     rows := [policy "P1" (VInt 100); policy "P2" NA;
              policy "P3" (VInt 100); policy "P4" (VInt 100)] |}.

(** ** tenure_churn_plot.py *)

Module TenureChurnPlot.

(** The largest of a list of numbers, if it has one. *)
Definition qmax (l : list Qc) : option Qc :=
  foldr (λ x acc, Some match acc with
                       | Some y => if qlt x y then y else x
                       | None => x
                       end) None l.

(** [Series.max()]: the largest number of the column, missing cells
    skipped; nothing on a column without numbers. *)
Definition max (s : Series) : Result (option Qc) := qmax <$> numbers s.

(** [int(x)]: truncation toward zero. *)
Definition int (x : Qc) : Z :=
  if bool_decide (0 ≤ x)%Qc then Qfloor x else Qceiling x.

(** [list(range(0, stop, 12))]. *)
Definition range12 (stop : Z) : list Z :=
  (λ k, 12 * Z.of_nat k)%Z <$> seq 0 (Z.to_nat ((stop + 11) / 12)).

(** Line 22: the edges of the 12-month buckets, for [max_tenure] the
    largest tenure of the table (line 21). *)
Definition bins (max_tenure : Qc) : list Z := range12 (int max_tenure + 13).

(** The label of the bucket of the year [years]. *)
Definition bucket (years : Z) : string :=
  pretty years +:+ "-" +:+ pretty (years + 1)%Z +:+ "yr".

(** Line 23: one label for each edge but the last. *)
Definition labels (bins : list Z) : list string :=
  (λ b, bucket (b / 12)) <$> take (length bins - 1) bins.

(** Line 24: the column [tenure_bin]. *)
Definition tenure_bin (max_tenure : Qc) (tenure : Series) : Result Series :=
  cut tenure (bins max_tenure) (labels (bins max_tenure)) false.

End TenureChurnPlot.

(** ** risky_channels.py *)

Module RiskyChannels.

(** The two colours of the bars. *)
Inductive Color : Type := ABOVE_COLOR | BELOW_COLOR.

#[global] Instance Color_eq_dec : EqDecision Color.
Proof. solve_decision. Defined.

(** Lines 22-26 and 76-80: the groups of a column with their totals,
    churned counts and churn rates, highest rate first. *)
Definition rates (df : DataFrame) (col : string) : Result (list GrpRow) :=
  groups ← groupby df col;
  aggregated ← agg df col groups;
  Return (sort_values aggregated).

(** One bar of the chart: its label, its height and its colour. *)
Record Bar : Type := { label : Cell; height : Float; color : Color }.

(** Lines 18 and 22-33: the bars of the payment-frequency chart. *)
Definition bar (overall_churn : Float) (row : GrpRow) : Bar :=
  {| label := val row;
     height := Rate row;
     color := if flt overall_churn (Rate row)
              then ABOVE_COLOR else BELOW_COLOR |}.

Definition bars (df : DataFrame) : Result (list Bar) :=
  overall_churn ← overall_churn_rate df;
  grp ← rates df "payment_frequency";
  Return (fmap (M := list) (bar overall_churn) grp).

End RiskyChannels.

(** Three policies with their payment frequency. *)
Definition paying_policies : DataFrame :=
  let policy (pid : string) (churned : bool) (frequency : string)
    : gmap string Cell :=
    <["policy_id" := VStr pid]> (<["churned" := VBool churned]>
    (<["payment_frequency" := VStr frequency]> ∅)) in
  {| columns := ["policy_id"; "churned"; "payment_frequency"];
     rows := [policy "P1" true "Monthly"; policy "P2" false "Monthly";
              policy "P3" false "Annual"] |}.

(** The figures of the summary that the standardization prints (lines
    75-80 of customer_standardize.py): the number of customers and, for
    gender and for country, the number of customers in conflict with its
    percentage. *)
Record ConflictSummary : Type := {
  customers_total : nat;
  gender_conflicts : Qc;
  gender_percent : Float;
  country_conflicts : Qc;
  country_percent : Float
}.

Definition summary (df_customer : DataFrame) : Result ConflictSummary :=
  gender ← getitem df_customer "gender_conflict";
  gender_sum ← sum gender;
  gender_mean ← mean gender;
  country ← getitem df_customer "country_conflict";
  country_sum ← sum country;
  country_mean ← mean country;
  Return {| customers_total := len df_customer;
            gender_conflicts := gender_sum;
            gender_percent := fmul gender_mean hundred;
            country_conflicts := country_sum;
            country_percent := fmul country_mean hundred |}.

(** The customers of the table whose observations of [field] are in
    conflict. *)
Definition in_conflict (df : DataFrame) (field : string) : list Cell :=
  filter (λ k, (resolve (observations df k field)).2 = 1%Z) (customers df).

(** ** price_per_coverage_plot.py *)

Module PricePerCoverage.

Definition PRODUCT_TYPES : list string := ["Term"; "Whole"; "Universal"].

(** [premium / coverage_amount] on one row (line 17): not a number when
    a side is missing, an infinity when a premium is divided by zero. *)
Definition ratio (premium coverage : Cell) : Result Float :=
  p ← to_num premium;
  c ← to_num coverage;
  Return match p, c with
         | Some x, Some y => fdiv (Fin x) (Fin y)
         | _, _ => NaN
         end.

(** The column [price_per_coverage], row by row. *)
Definition price_per_coverage (df : DataFrame) : Result (list Float) :=
  premium ← getitem df "premium";
  coverage ← getitem df "coverage_amount";
  mapM (λ pc : Cell * Cell, ratio pc.1 pc.2) (zip premium coverage).

Definition is_nan (x : Float) : bool :=
  match x with NaN => true | _ => false end.

(** Lines 20-23, one box: the prices of the policies of one product
    type, without the values that are not a number, times 1000. *)
Definition box (types : Series) (prices : list Float) (pt : string)
  : list Float :=
  (λ x, fmul x (Fin (Qc_of_Z 1000)))
    <$> filter (λ x, is_nan x = false)
          (snd <$> filter (λ tp : Cell * Float, tp.1 = VStr pt)
                     (zip types prices)).

(** Lines 17-23: the data of the three boxes. *)
Definition data (df : DataFrame) : Result (list (list Float)) :=
  prices ← price_per_coverage df;
  types ← getitem df "product_type";
  Return (box types prices <$> PRODUCT_TYPES).

End PricePerCoverage.

(** Policies with and without coverage. *)
Definition uncovered_policy : DataFrame :=
  let policy (pid product : string) (premium coverage : Z)
    : gmap string Cell :=
    <["policy_id" := VStr pid]> (<["product_type" := VStr product]>
    (<["premium" := VInt premium]>
    (<["coverage_amount" := VInt coverage]> ∅))) in
  {| columns := ["policy_id"; "product_type"; "premium"; "coverage_amount"];
     rows := [policy "P1" "Term" 120%Z 60000%Z; policy "P2" "Whole" 80%Z 0%Z;
              policy "P3" "Group" 50%Z 10000%Z] |}.

(** A premium column with one missing value and one value far from the
    others. *)
Definition some_premiums : Series :=
  [VInt 100; NA; VInt 120; VInt 90; VInt 110; VInt 1000].

(** Decides a closed decidable proposition by evaluation. *)
Ltac by_computation :=
  apply (bool_decide_unpack _); vm_compute; exact I.

(** * Properties of the pandas primitives *)

Section Counting.
Context `{EqDecision A}.
Implicit Types (s : list A) (v : A).

Lemma elem_of_unique s v : v ∈ unique s ↔ v ∈ s.
Proof.
  induction s as [|x t IH]; simpl; [done|].
  rewrite !elem_of_cons, list_elem_of_filter, IH.
  destruct (decide (v = x)); naive_solver.
Qed.

Lemma NoDup_unique s : NoDup (unique s).
Proof.
  induction s as [|x t IH]; simpl; [constructor|].
  constructor; [|by apply NoDup_filter].
  rewrite list_elem_of_filter. naive_solver.
Qed.

Lemma value_count_cons v x s :
  value_count v (x :: s) = (if decide (x = v) then 1 else 0) + value_count v s.
Proof. unfold value_count. rewrite filter_cons. by destruct (decide (x = v)). Qed.

Lemma value_count_pos s v : v ∈ s ↔ 0 < value_count v s.
Proof.
  induction s as [|x t IH].
  - unfold value_count; simpl. split; [by intros ?%elem_of_nil|lia].
  - rewrite value_count_cons, elem_of_cons, IH.
    destruct (decide (x = v)); split; try lia; naive_solver lia.
Qed.

Lemma value_count_le_max s v : v ∈ s → value_count v s ≤ max_count s.
Proof.
  intros Hv. unfold max_count.
  apply max_list_elem_of_le, list_elem_of_fmap.
  exists v. by rewrite elem_of_unique.
Qed.

Lemma max_count_reached s : s ≠ [] → ∃ v, v ∈ s ∧ value_count v s = max_count s.
Proof.
  intros Hne. unfold max_count.
  assert (Hu : (λ v, value_count v s) <$> unique s ≠ []).
  { destruct s; [done|]. simpl. done. }
  apply max_list_elem_of in Hu.
  apply list_elem_of_fmap in Hu as (v & Hv & Hin).
  exists v. by rewrite <-elem_of_unique.
Qed.

Lemma elem_of_mode s v :
  v ∈ mode s ↔ v ∈ s ∧ ∀ u, u ∈ s → value_count u s ≤ value_count v s.
Proof.
  unfold mode. rewrite list_elem_of_filter, elem_of_unique. split.
  - intros [Hmax Hv]. split; [done|]. intros u Hu.
    rewrite Hmax. by apply value_count_le_max.
  - intros [Hv Hle]. split; [|done].
    destruct (max_count_reached s) as (w & Hw & Hmax);
      [by intros ->; inversion Hv|].
    pose proof (Hle w Hw). pose proof (value_count_le_max s v Hv). lia.
Qed.

Lemma NoDup_mode s : NoDup (mode s).
Proof. apply NoDup_filter, NoDup_unique. Qed.

Lemma length_eqb_0 (l : list A) v : v ∈ l → (length l =? 0) = false.
Proof. destruct l; [by intros ?%elem_of_nil|done]. Qed.

Lemma length_eqb_1 (l : list A) : 2 ≤ length l → (length l =? 1) = false.
Proof. intros. apply Nat.eqb_neq. lia. Qed.

(** A duplicate-free list whose members all equal [v] is [[v]]. *)
Lemma NoDup_singleton_eq (l : list A) v :
  NoDup l → v ∈ l → (∀ w, w ∈ l → w = v) → l = [v].
Proof.
  intros Hnd Hv Hall. destruct l as [|a [|b l]].
  - by apply elem_of_nil in Hv.
  - f_equal. apply Hall. by left.
  - exfalso. assert (a = v) as -> by (apply Hall; by left).
    assert (b = v) as -> by (apply Hall; right; by left).
    inversion Hnd as [|?? Hnot _]; subst. apply Hnot. by left.
Qed.

(** Two distinct members make the length at least two. *)
Lemma two_members_length (l : list A) v w :
  v ∈ l → w ∈ l → v ≠ w → 2 ≤ length l.
Proof.
  intros Hv Hw Hne. destruct l as [|a [|b l]]; simpl; [|
    apply list_elem_of_singleton in Hv, Hw; congruence | lia].
  by apply elem_of_nil in Hv.
Qed.
End Counting.

(** * Conflict resolution *)

Section Resolve.
Implicit Types (series : Series) (v w : Cell).

Lemma elem_of_dropna series v : v ∈ dropna series ↔ v ∈ series ∧ v ≠ NA.
Proof.
  unfold dropna. rewrite list_elem_of_filter.
  destruct v; simpl; naive_solver.
Qed.

Lemma value_count_dropna series v :
  v ≠ NA → value_count v (dropna series) = value_count v series.
Proof.
  intros Hv. unfold value_count, dropna.
  induction series as [|x t IH]; [done|].
  rewrite !(filter_cons _ x t).
  destruct (decide (notna x = true)) as [Hx|Hx].
  - rewrite filter_cons.
    destruct (decide (x = v)); [cbn [length]; f_equal|]; exact IH.
  - destruct (decide (x = v)) as [->|]; [|done].
    by destruct v.
Qed.

Lemma resolve_unknown series :
  (∀ c, c ∈ series → c = NA) → resolve series = (VStr "Unknown", 0%Z).
Proof.
  intros Hall. unfold resolve.
  assert (dropna series = []) as ->; [|done].
  destruct (dropna series) as [|x t] eqn:E; [done|].
  assert (Hx : x ∈ dropna series) by (rewrite E; by left).
  apply elem_of_dropna in Hx as [Hx Hne]. by apply Hall in Hx.
Qed.

Lemma resolve_agree series v :
  v ≠ NA → v ∈ series → (∀ w, w ∈ series → w = NA ∨ w = v) →
  resolve series = (v, 0%Z).
Proof.
  intros Hne Hv Hall. unfold resolve.
  assert (Hin : v ∈ dropna series) by by apply elem_of_dropna.
  rewrite (length_eqb_0 _ v Hin).
  assert (unique (dropna series) = [v]) as ->; [|done].
  apply NoDup_singleton_eq; [apply NoDup_unique|by apply elem_of_unique|].
  intros w [Hw Hw']%elem_of_unique%elem_of_dropna.
  by destruct (Hall w Hw).
Qed.

Lemma resolve_majority series v :
  v ≠ NA → v ∈ series →
  (∃ w, w ∈ series ∧ w ≠ NA ∧ w ≠ v) →
  (∀ w, w ≠ NA → w ≠ v → value_count w series < value_count v series) →
  resolve series = (v, 1%Z).
Proof.
  intros Hne Hv (w & Hw & HwNA & Hwv) Hlt. unfold resolve.
  assert (Hin : v ∈ dropna series) by by apply elem_of_dropna.
  assert (Hin' : w ∈ dropna series) by by apply elem_of_dropna.
  rewrite (length_eqb_0 _ v Hin), length_eqb_1.
  2:{ apply (two_members_length _ v w); by rewrite ?elem_of_unique. }
  assert (mode (dropna series) = [v]) as ->; [|done].
  apply NoDup_singleton_eq; [apply NoDup_mode| |].
  - apply elem_of_mode. split; [done|]. intros u [Hu HuNA]%elem_of_dropna.
    rewrite !value_count_dropna by done.
    destruct (decide (u = v)) as [->|Huv]; [done|].
    specialize (Hlt u HuNA Huv). lia.
  - intros u [Hu Hmax]%elem_of_mode.
    destruct (decide (u = v)) as [|Huv]; [done|exfalso].
    apply elem_of_dropna in Hu as [Hu HuNA].
    specialize (Hmax v Hin). specialize (Hlt u HuNA Huv).
    rewrite !value_count_dropna in Hmax by done. lia.
Qed.

Lemma resolve_tie series v w :
  v ≠ NA → w ≠ NA → v ≠ w → v ∈ series →
  value_count v series = value_count w series →
  (∀ u, u ≠ NA → value_count u series ≤ value_count v series) →
  resolve series = (VStr "Conflict", 1%Z).
Proof.
  intros Hv Hw Hvw Hin Heq Hmax. unfold resolve.
  assert (Hw' : w ∈ series).
  { apply value_count_pos. rewrite <-Heq. by apply value_count_pos. }
  assert (Hdv : v ∈ dropna series) by by apply elem_of_dropna.
  assert (Hdw : w ∈ dropna series) by by apply elem_of_dropna.
  rewrite (length_eqb_0 _ v Hdv), length_eqb_1.
  2:{ apply (two_members_length _ v w); by rewrite ?elem_of_unique. }
  rewrite length_eqb_1; [done|].
  apply (two_members_length _ v w); [| |done].
  - apply elem_of_mode. split; [done|]. intros u [Hu HuNA]%elem_of_dropna.
    rewrite !value_count_dropna by done. by apply Hmax.
  - apply elem_of_mode. split; [done|]. intros u [Hu HuNA]%elem_of_dropna.
    rewrite !value_count_dropna by done. rewrite <-Heq. by apply Hmax.
Qed.
End Resolve.

(** C1.  For every multiset of optional observations: when all of them are
    absent [resolve] gives ("Unknown", 0); when exactly one distinct value
    remains, however often it occurs, it gives (that value, 0); when at
    least two distinct values remain and one of them is strictly the most
    frequent it gives (that value, 1); when two values tie for the highest
    frequency it gives ("Conflict", 1).  Values are compared by equality of
    cells, which for strings is exact and case-sensitive. *)
Theorem resolve_policy (series : Series) :
  ((∀ c, c ∈ series → c = NA) → resolve series = (VStr "Unknown", 0%Z)) ∧
  (∀ v, v ≠ NA → v ∈ series → (∀ w, w ∈ series → w = NA ∨ w = v) →
        resolve series = (v, 0%Z)) ∧
  (∀ v, v ≠ NA → v ∈ series → (∃ w, w ∈ series ∧ w ≠ NA ∧ w ≠ v) →
        (∀ w, w ≠ NA → w ≠ v → value_count w series < value_count v series) →
        resolve series = (v, 1%Z)) ∧
  (∀ v w, v ≠ NA → w ≠ NA → v ≠ w → v ∈ series →
        value_count v series = value_count w series →
        (∀ u, u ≠ NA → value_count u series ≤ value_count v series) →
        resolve series = (VStr "Conflict", 1%Z)).
Proof.
  split; [apply resolve_unknown|].
  split; [apply resolve_agree|].
  split; [apply resolve_majority|apply resolve_tie].
Qed.

(** The four cases of C1 on concrete observations; "F" and "f" are two
    values. *)
Lemma resolve_policy_witness :
  resolve [NA; NA] = (VStr "Unknown", 0%Z) ∧
  resolve [VStr "F"; NA; VStr "F"] = (VStr "F", 0%Z) ∧
  resolve [VStr "F"; VStr "F"; VStr "M"] = (VStr "F", 1%Z) ∧
  resolve [VStr "F"; VStr "f"] = (VStr "Conflict", 1%Z).
Proof.
  split; [|split; [|split]].
  - apply (proj1 (resolve_policy [NA; NA])).
    intros c Hc. repeat (apply elem_of_cons in Hc as [->|Hc]; [done|]).
    by apply elem_of_nil in Hc.
  - apply (proj1 (proj2 (resolve_policy [VStr "F"; NA; VStr "F"])));
      [done|by left|].
    intros w Hw. repeat (apply elem_of_cons in Hw as [->|Hw]; [by auto|]).
    by apply elem_of_nil in Hw.
  - apply (proj1 (proj2 (proj2 (resolve_policy [VStr "F"; VStr "F"; VStr "M"]))));
      [done|by left| |].
    + exists (VStr "M"). split; [by do 2 right; left|done].
    + intros w _ Hw. unfold value_count. rewrite !filter_cons, filter_nil.
      repeat case_decide; simplify_eq; simpl; lia.
  - apply (proj2 (proj2 (proj2 (resolve_policy [VStr "F"; VStr "f"])))
             (VStr "F") (VStr "f")); [done|done|done|by left|done|].
    intros u _. unfold value_count. rewrite !filter_cons, filter_nil.
    repeat case_decide; simplify_eq; simpl; lia.
Defined.

(** * The error monad *)

Section ResultMonad.
Context {A B : Type}.

Lemma mapM_Return (f : A → Result B) (g : A → B) (l : list A) :
  (∀ x, x ∈ l → f x = Return (g x)) → mapM f l = Return (g <$> l).
Proof.
  induction l as [|x t IH]; intros Hf; [done|].
  simpl. rewrite Hf by by left. simpl.
  rewrite IH; [done|]. intros y Hy. apply Hf. by right.
Qed.

Lemma mapM_Raise (f : A → Result B) (l : list A) x e :
  x ∈ l → f x = Raise e → ∃ e', mapM f l = Raise e'.
Proof.
  induction l as [|y t IH]; intros Hx Hf; [by apply elem_of_nil in Hx|].
  simpl. destruct (f y) as [e'|b] eqn:E; simpl; [by eauto|].
  apply elem_of_cons in Hx as [->|Hx]; [congruence|].
  destruct (IH Hx Hf) as [e' ->]. by eauto.
Qed.
End ResultMonad.

Lemma filter_key_NoDup {A B} `{EqDecision B} (f : A → B) (g : B → A)
    (ks : list B) (k : B) :
  (∀ k', f (g k') = k') → NoDup ks →
  filter (λ r, f r = k) (g <$> ks) = if decide (k ∈ ks) then [g k] else [].
Proof.
  intros Hfg. induction 1 as [|x t Hx Hnd IH]; [done|].
  rewrite fmap_cons, filter_cons, Hfg, IH.
  repeat case_decide; simplify_eq; try done; set_solver.
Qed.

Lemma bind_singleton {A B} (f : A → B) (l : list A) :
  (x ← l; [f x]) = f <$> l.
Proof. induction l as [|x t IH]; [done|]. by rewrite bind_cons, IH. Qed.

(** * Standardization *)

Section Standardize.
Variable df : DataFrame.
Hypothesis Hid : "customer_id" ∈ columns df.
Hypothesis Hgender : "customer_gender" ∈ columns df.
Hypothesis Hcountry : "country" ∈ columns df.

Lemma groupby_customer :
  groupby df "customer_id" =
  Return ((λ k, (k, {| columns := columns df;
                       rows := filter (λ r, cell r "customer_id" = k) (rows df) |}))
            <$> customers df).
Proof. unfold groupby, getitem. by rewrite decide_True. Qed.

Lemma customer_record_group k :
  customer_record k {| columns := columns df;
                       rows := filter (λ r, cell r "customer_id" = k) (rows df) |}
  = Return (record_of df k).
Proof.
  unfold customer_record, getitem; simpl.
  rewrite !decide_True by done. simpl.
  unfold record_of, observations, column. simpl.
  by do 2 destruct (resolve _).
Qed.

Lemma build_customer_table_eq :
  build_customer_table df =
  Return (from_records record_columns (record_of df <$> customers df)).
Proof.
  unfold build_customer_table. rewrite groupby_customer. simpl.
  rewrite (mapM_Return _ (λ g, record_of df g.1)).
  - simpl. by rewrite <-list_fmap_compose.
  - intros [k g] (k' & [= -> ->] & _)%list_elem_of_fmap. simpl.
    apply customer_record_group.
Qed.

Hypothesis Hfresh : ∀ c, c ∈ "customer_gender_std" :: derived → c ∉ columns df.

Lemma right_columns_customer : right_columns (customer_table df) "customer_id" = derived.
Proof. reflexivity. Qed.

Lemma overlap_customer c : overlap df (customer_table df) "customer_id" c = false.
Proof.
  unfold overlap. apply bool_decide_eq_false. intros (Hne & Hc & Hrec).
  simpl in Hrec. apply elem_of_cons in Hrec as [->|Hrec]; [done|].
  apply (Hfresh c); [by right|done].
Qed.

Lemma suffixed_customer suffix c :
  suffixed df (customer_table df) "customer_id" suffix c = c.
Proof. unfold suffixed. by rewrite overlap_customer. Qed.

Lemma join_rows_customer l r :
  join_rows df (customer_table df) "customer_id" l r =
  list_to_map (((λ c, (c, cell l c)) <$> columns df) ++
               ((λ c, (c, from_option (λ r, cell r c) NA r)) <$> derived)).
Proof.
  unfold join_rows. rewrite right_columns_customer. f_equal. f_equal.
  - apply list_fmap_ext. intros _ c _. by rewrite suffixed_customer.
  - apply list_fmap_ext. intros _ c _. by rewrite suffixed_customer.
Qed.

Lemma lookup_left_part (l : gmap string Cell) (cols : list string) c :
  (list_to_map ((λ c, (c, cell l c)) <$> cols) : gmap string Cell) !! c
  = if decide (c ∈ cols) then Some (cell l c) else None.
Proof.
  induction cols as [|x t IH]; [done|].
  rewrite fmap_cons, list_to_map_cons.
  destruct (decide (x = c)) as [->|Hne].
  - rewrite lookup_insert_eq, decide_True; [done|by left].
  - rewrite lookup_insert_ne, IH by done.
    destruct (decide (c ∈ t)).
    + rewrite decide_True; [done|by right].
    + rewrite decide_False; [done|]. intros [?|?]%elem_of_cons; naive_solver.
Qed.

Lemma lookup_join_left l r c :
  c ∈ columns df →
  join_rows df (customer_table df) "customer_id" l r !! c = Some (cell l c).
Proof.
  intros Hc. rewrite join_rows_customer, list_to_map_app, lookup_union_l'.
  - by rewrite lookup_left_part, decide_True.
  - rewrite lookup_left_part, decide_True; [by eauto|done].
Qed.

Lemma lookup_join_right l rec c :
  c ∈ derived →
  join_rows df (customer_table df) "customer_id" l (Some rec) !! c = Some (cell rec c).
Proof.
  intros Hc. rewrite join_rows_customer, list_to_map_app, lookup_union_r.
  - unfold derived in *. simpl.
    repeat (apply elem_of_cons in Hc as [->|Hc]; [by simplify_map_eq|]).
    by apply elem_of_nil in Hc.
  - rewrite lookup_left_part, decide_False; [done|].
    apply Hfresh. by right.
Qed.

Lemma cell_record_id k : cell (record_of df k) "customer_id" = k.
Proof. unfold cell, record_of. by rewrite lookup_insert_eq. Qed.

Lemma matches_customer l :
  matches (customer_table df) "customer_id" l =
  if decide (cell l "customer_id" ∈ customers df)
  then [record_of df (cell l "customer_id")] else [].
Proof.
  unfold matches. simpl.
  apply (filter_key_NoDup (λ r, cell r "customer_id") (record_of df)).
  - apply cell_record_id.
  - apply NoDup_unique.
Qed.

Lemma merge_customer :
  customers df ≠ [] →
  merge_left df (from_records record_columns (record_of df <$> customers df))
             "customer_id" =
  Return {| columns := columns df ++ derived;
            rows := (λ l, join_rows df (customer_table df) "customer_id" l (partner df l))
                      <$> rows df |}.
Proof.
  intros Hne.
  assert (from_records record_columns (record_of df <$> customers df)
          = (customer_table df)) as ->.
  { unfold from_records, customer_table. by destruct (customers df). }
  unfold merge_left. rewrite decide_True by (split; [done|by left]).
  f_equal. f_equal.
  - rewrite right_columns_customer. f_equal.
    + rewrite <-(list_fmap_id (columns df)) at 2.
      apply list_fmap_ext. intros _ c _. by rewrite suffixed_customer.
    + rewrite <-(list_fmap_id derived) at 2.
      apply list_fmap_ext. intros _ c _. by rewrite suffixed_customer.
  - rewrite <-bind_singleton. apply list_bind_ext; [|done].
    intros l. rewrite matches_customer. unfold partner.
    by destruct (decide _).
Qed.

Lemma customer_listed r :
  r ∈ rows df → cell r "customer_id" ≠ NA → cell r "customer_id" ∈ customers df.
Proof.
  intros Hr Hna. unfold customers. apply elem_of_unique, elem_of_dropna.
  split; [|done]. unfold column. apply list_elem_of_fmap. by exists r.
Qed.

Lemma standardize_eq :
  customers df ≠ [] →
  standardize df =
  Return (rename {| columns := columns df ++ derived;
                    rows := (λ l, join_rows df (customer_table df) "customer_id" l
                                    (partner df l)) <$> rows df |}
                 "gender_std" "customer_gender_std").
Proof.
  intros Hne. unfold standardize. rewrite build_customer_table_eq. simpl.
  by rewrite merge_customer.
Qed.

(** The cells of a standardized row whose customer has a record. *)
Lemma renamed_row_cells l rec :
  let r := join_rows df (customer_table df) "customer_id" l (Some rec) in
  let r' := match r !! "gender_std" with
            | Some v => <["customer_gender_std" := v]> (delete "gender_std" r)
            | None => r
            end in
  cell r' "customer_gender_std" = cell rec "gender_std" ∧
  cell r' "gender_conflict" = cell rec "gender_conflict" ∧
  cell r' "country_std" = cell rec "country_std" ∧
  cell r' "country_conflict" = cell rec "country_conflict" ∧
  ∀ c, c ∈ columns df → cell r' c = cell l c.
Proof.
  intros r r'. subst r'.
  assert (Hr : ∀ c, c ∈ derived → r !! c = Some (cell rec c))
    by (intros; by apply lookup_join_right).
  rewrite (Hr "gender_std") by by left.
  set (v := cell rec "gender_std").
  assert (Hother : ∀ c, c ≠ "customer_gender_std" → c ≠ "gender_std" →
            cell (<["customer_gender_std" := v]> (delete "gender_std" r)) c
            = cell r c).
  { intros c ??. unfold cell. by rewrite lookup_insert_ne, lookup_delete_ne. }
  assert (Hcell : ∀ c, c ∈ derived → cell r c = cell rec c).
  { intros c Hc. unfold cell at 1. by rewrite Hr. }
  split; [unfold cell at 1; by rewrite lookup_insert_eq|].
  do 3 (split; [rewrite Hother by done; apply Hcell; unfold derived;
                set_solver|]).
  intros c Hc.
  assert (c ≠ "customer_gender_std") by (intros ->; by eapply Hfresh; [left|]).
  assert (c ≠ "gender_std") by (intros ->; by eapply Hfresh; [right; left|]).
  rewrite Hother by done. unfold cell at 1.
  subst r. by rewrite lookup_join_left.
Qed.
End Standardize.

Lemma record_of_cells df k :
  cell (record_of df k) "gender_std"
    = (resolve (observations df k "customer_gender")).1 ∧
  cell (record_of df k) "gender_conflict"
    = VInt (resolve (observations df k "customer_gender")).2 ∧
  cell (record_of df k) "country_std"
    = (resolve (observations df k "country")).1 ∧
  cell (record_of df k) "country_conflict"
    = VInt (resolve (observations df k "country")).2.
Proof. unfold cell, record_of. by simplify_map_eq. Qed.

(** C2.  On a table that has the columns customer_id, customer_gender and
    country, none of the derived columns yet, and at least one customer,
    standardization returns a table in which every policy row of a
    customer carries customer_gender_std, gender_conflict, country_std and
    country_conflict equal to the resolver's output on that customer's raw
    observations, hence identical on all rows of the customer.  On the
    scenario table the three rows of C1 show ("F", 1) and the row of C2
    shows ("Unknown", 0). *)
Theorem standardize_broadcast :
  (∀ df : DataFrame,
     "customer_id" ∈ columns df → "customer_gender" ∈ columns df →
     "country" ∈ columns df → fresh_columns df →
     (∃ r, r ∈ rows df ∧ cell r "customer_id" ≠ NA) →
     ∃ out, standardize df = Return out ∧ broadcast df out) ∧
  (λ out, (λ r, (cell r "customer_id", cell r "customer_gender_std",
                 cell r "gender_conflict")) <$> rows out) <$> standardize scenario
  = Return [(VStr "C1", VStr "F", VInt 1); (VStr "C1", VStr "F", VInt 1);
            (VStr "C1", VStr "F", VInt 1); (VStr "C2", VStr "Unknown", VInt 0)].
Proof.
  split; [|by vm_compute].
  intros df Hid Hgender Hcountry Hfresh (r0 & Hr0 & Hna0).
  assert (Hne : customers df ≠ []).
  { intros Hnil. pose proof (customer_listed df r0 Hr0 Hna0) as Hin.
    rewrite Hnil in Hin. by apply elem_of_nil in Hin. }
  eexists. split; [by apply standardize_eq|].
  split; [simpl; by rewrite !length_fmap|].
  intros i r Hi Hna. simpl.
  rewrite !list_lookup_fmap, Hi. simpl. eexists. split; [done|].
  assert (Hr : r ∈ rows df) by (apply list_elem_of_lookup; eauto).
  unfold partner. rewrite decide_True by by apply customer_listed.
  destruct (renamed_row_cells df Hid Hgender Hcountry Hfresh r
              (record_of df (cell r "customer_id")))
    as (Hg & Hgc & Hc & Hcc & Hraw).
  destruct (record_of_cells df (cell r "customer_id")) as (Rg & Rgc & Rc & Rcc).
  rewrite Hg, Hgc, Hc, Hcc, Rg, Rgc, Rc, Rcc.
  split; [by apply Hraw|]. by repeat split.
Qed.

(** The general part of C2 applied to the scenario table. *)
Lemma standardize_broadcast_witness :
  ∃ out, standardize scenario = Return out ∧ broadcast scenario out.
Proof.
  apply (proj1 standardize_broadcast scenario).
  - by_computation.
  - by_computation.
  - by_computation.
  - intros c Hc.
    repeat (apply elem_of_cons in Hc as [->|Hc]; [by_computation|]).
    by apply elem_of_nil in Hc.
  - eexists. split; [by left|]. by vm_compute.
Defined.

(** * Sorting and sums *)

Lemma insert_by_Permutation {A} (before : A → A → bool) x l :
  insert_by before x l ≡ₚ x :: l.
Proof.
  induction l as [|y t IH]; [done|]. simpl.
  destruct (before y x); [|done]. rewrite IH. apply Permutation_swap.
Qed.

Lemma sort_by_Permutation {A} (before : A → A → bool) l :
  sort_by before l ≡ₚ l.
Proof.
  induction l as [|x t IH]; [done|]. unfold sort_by in *. simpl.
  by rewrite insert_by_Permutation, IH.
Qed.

Lemma qsum_app l k : qsum (l ++ k) = (qsum l + qsum k)%Qc.
Proof.
  induction l as [|x t IH]; simpl; [by rewrite Qcplus_0_l|].
  rewrite IH. ring.
Qed.

#[global] Instance qsum_Permutation : Proper ((≡ₚ) ==> (=)) qsum.
Proof.
  induction 1 as [|x l k _ IH|x y l|l k m _ IH1 _ IH2]; simpl.
  - done.
  - by rewrite IH.
  - ring.
  - by rewrite IH1.
Qed.

Lemma qsum_bind {A} (w : A → Qc) {B} (f : B → list A) (ks : list B) :
  qsum (w <$> (ks ≫= f)) = qsum ((λ k, qsum (w <$> f k)) <$> ks).
Proof.
  induction ks as [|k t IH]; [done|].
  rewrite bind_cons, fmap_app, qsum_app, IH. done.
Qed.

Lemma sum_list_length_bind {A B} (f : B → list A) (ks : list B) :
  sum_list ((λ k, length (f k)) <$> ks) = length (ks ≫= f).
Proof.
  induction ks as [|k t IH]; [done|].
  rewrite bind_cons, length_app, <-IH. done.
Qed.

#[global] Instance sum_list_Permutation : Proper ((≡ₚ) ==> (=)) sum_list.
Proof.
  induction 1 as [|x l k _ IH|x y l|l k m _ IH1 _ IH2]; simpl; lia.
Qed.

Lemma filter_ext_in {A} (P Q : A → Prop) `{∀ x, Decision (P x)}
    `{∀ x, Decision (Q x)} (l : list A) :
  (∀ x, x ∈ l → P x ↔ Q x) → filter P l = filter Q l.
Proof.
  induction l as [|x t IH]; intros Hext; [done|].
  rewrite !filter_cons, IH by (intros; apply Hext; by right).
  destruct (decide (P x)) as [HP|HP].
  - by rewrite decide_True by (apply Hext; [by left|done]).
  - rewrite decide_False; [done|]. intros HQ. apply HP, Hext; [by left|done].
Qed.

(** * Grouping *)

Section Partition.
Context {A : Type} `{EqDecision K} (key : A → K).

Lemma filter_disjoint_or (P Q : A → Prop)
    `{∀ x, Decision (P x)} `{∀ x, Decision (Q x)} (l : list A) :
  (∀ x, P x → Q x → False) →
  filter P l ++ filter Q l ≡ₚ filter (λ x, P x ∨ Q x) l.
Proof.
  intros Hdisj. induction l as [|x t IH]; [done|].
  rewrite !filter_cons.
  destruct (decide (P x)) as [HP|HP], (decide (Q x)) as [HQ|HQ].
  - by destruct (Hdisj x).
  - rewrite decide_True by by left. simpl. by rewrite IH.
  - rewrite decide_True by by right.
    rewrite <-Permutation_middle. by rewrite IH.
  - rewrite decide_False by naive_solver. done.
Qed.

(** The groups of the keys [ks] hold, between them, exactly the rows
    whose key is one of [ks]. *)
Lemma groups_partition (ks : list K) (l : list A) :
  NoDup ks →
  (ks ≫= λ k, filter (λ x, key x = k) l) ≡ₚ filter (λ x, key x ∈ ks) l.
Proof.
  induction 1 as [|k t Hk Hnd IH].
  - simpl. induction l as [|x l IHl]; [done|].
    rewrite filter_cons, decide_False; [done|]. apply not_elem_of_nil.
  - rewrite bind_cons, IH.
    rewrite (filter_disjoint_or (λ x, key x = k) (λ x, key x ∈ t)).
    + apply reflexive_eq, list_filter_iff. intros x.
      rewrite elem_of_cons. naive_solver.
    + intros x <- ?. done.
Qed.
End Partition.

(** * Churn breakdowns *)

Lemma omap_id_fmap {A B} (f : A → option B) (l : list A) :
  omap id (f <$> l) = omap f l.
Proof.
  induction l as [|x t IH]; [done|]. csimpl. rewrite IH. by destruct (f x).
Qed.

Lemma numbers_Return (s : Series) :
  Forall (λ c, is_str c = false) s → numbers s = Return (omap num_opt s).
Proof.
  intros Hs. unfold numbers.
  rewrite (mapM_Return _ num_opt).
  - simpl. f_equal. apply omap_id_fmap.
  - intros c Hc. rewrite Forall_forall in Hs. specialize (Hs c Hc).
    by destruct c.
Qed.

Lemma qsum_omap_num (s : Series) :
  qsum (omap num_opt s) = qsum ((λ c, default 0%Qc (num_opt c)) <$> s).
Proof.
  induction s as [|c t IH]; [done|]. csimpl.
  destruct (num_opt c); simpl; rewrite IH; [done|ring].
Qed.

Lemma sum_rows (l : list (gmap string Cell)) :
  Forall (λ r, is_str (cell r "churned") = false) l →
  sum ((λ r, cell r "churned") <$> l) = Return (qsum (churn_flag <$> l)).
Proof.
  intros Hl. unfold sum. rewrite numbers_Return.
  - simpl. by rewrite qsum_omap_num, <-list_fmap_compose.
  - by apply Forall_fmap.
Qed.

Section ChurnTable.
Variables (df : DataFrame) (col : string).
Hypothesis Hready : churn_ready df col.

Lemma groupby_keys :
  groupby df col =
  Return ((λ k, (k, {| columns := columns df;
                       rows := group_rows df col k |})) <$> keys df col).
Proof.
  unfold groupby, getitem. by rewrite decide_True by apply Hready.
Qed.

Lemma agg_group_eq k :
  agg_group (k, {| columns := columns df; rows := group_rows df col k |})
  = Return (grp_row df col k).
Proof.
  destruct Hready. unfold agg_group, getitem. simpl.
  rewrite !decide_True by done. simpl. unfold column. simpl.
  rewrite sum_rows; [done|].
  unfold group_rows. apply Forall_forall.
  intros r [_ Hr]%list_elem_of_filter. revert r Hr. by apply Forall_forall.
Qed.

Lemma agg_eq groups :
  groups = (λ k, (k, {| columns := columns df;
                        rows := group_rows df col k |})) <$> keys df col →
  agg df col groups = Return (grp_row df col <$> keys df col).
Proof.
  intros ->. destruct Hready. unfold agg.
  rewrite !decide_False by naive_solver.
  rewrite (mapM_Return _ (λ g, grp_row df col g.1)).
  - by rewrite <-list_fmap_compose.
  - intros g (k & -> & _)%list_elem_of_fmap. apply agg_group_eq.
Qed.

(** What [churn_table] returns on a ready table. *)
Lemma churn_table_eq overall title :
  churn_table overall df col title =
  Return (let grp := sort_values (grp_row df col <$> keys df col) in
          {| title := title;
             lines := line_of overall <$> grp;
             TOTAL := (sum_list (Total <$> grp), qsum (Churned <$> grp)) |}).
Proof.
  unfold churn_table. rewrite groupby_keys. simpl.
  by rewrite (agg_eq _ eq_refl).
Qed.

Lemma lines_Permutation overall title t :
  churn_table overall df col title = Return t →
  lines t ≡ₚ line_of overall <$> (grp_row df col <$> keys df col).
Proof.
  rewrite churn_table_eq. intros [= <-]. simpl.
  unfold sort_values. by rewrite sort_by_Permutation.
Qed.
End ChurnTable.

Lemma mapM_Return_inv {A B} (f : A → Result B) (l : list A) (k : list B) :
  mapM f l = Return k → Forall2 (λ x y, f x = Return y) l k.
Proof.
  revert k. induction l as [|x t IH]; intros k; simpl.
  - intros [= <-]. constructor.
  - destruct (f x) as [e|y] eqn:Ey; simpl; [done|].
    destruct (mapM f t) as [e|k'] eqn:Ek; simpl; [done|].
    intros [= <-]. constructor; [done|]. by apply IH.
Qed.

Lemma bind_Return_inv {A B} (m : Result A) (f : A → Result B) (b : B) :
  m ≫= f = Return b → ∃ a, m = Return a ∧ f a = Return b.
Proof. destruct m as [e|a]; simpl; [done|]. by exists a. Qed.

Lemma of_nat_S n : of_nat (S n) = (1 + of_nat n)%Qc.
Proof.
  unfold of_nat. apply Qc_is_canon. simpl.
  rewrite !Qred_correct, Nat2Z.inj_succ, <-Z.add_1_l, inject_Z_plus.
  reflexivity.
Qed.

Lemma of_nat_nonneg n : (0 ≤ of_nat n)%Qc.
Proof.
  induction n as [|n IH]; [done|]. rewrite of_nat_S.
  replace 0%Qc with (0 + 0)%Qc by apply Qcplus_0_l.
  by apply Qcplus_le_compat.
Qed.

Lemma of_nat_pos n : 0 < n → (0 < of_nat n)%Qc.
Proof.
  destruct n as [|n]; [lia|]. intros _. rewrite of_nat_S.
  apply Qclt_le_trans with (1 + 0)%Qc; [done|].
  apply Qcplus_le_compat; [apply Qcle_refl|apply of_nat_nonneg].
Qed.

Lemma numbers_Return_inv (s : Series) (xs : list Qc) :
  numbers s = Return xs →
  Forall (λ c, is_str c = false) s ∧ xs = omap num_opt s.
Proof.
  intros H.
  assert (Forall (λ c, is_str c = false) s) as Hs.
  { unfold numbers in H.
    destruct (mapM to_num s) as [e|ns] eqn:E; [done|].
    apply mapM_Return_inv in E. clear H.
    induction E as [|c n t ns Hc _ IH]; constructor; [|done].
    by destruct c. }
  split; [done|]. rewrite numbers_Return in H by done. by injection H.
Qed.

Lemma of_nat_0_iff n : of_nat n = 0%Qc ↔ n = 0.
Proof.
  split.
  - intros H. destruct n as [|n]; [done|]. exfalso.
    assert (0 < of_nat (S n))%Qc as Hpos by (apply of_nat_pos; lia).
    rewrite H in Hpos. by apply Qclt_not_eq in Hpos.
  - intros ->. by apply Qc_is_canon.
Qed.

(** The overall rate is a hundred times the mean of the churn flags of
    all rows that have one; without any flag it is not a number. *)
Lemma overall_churn_rate_mean df overall :
  overall_churn_rate df = Return overall →
  overall =
    let flags := omap num_opt (column df "churned") in
    if decide (flags = []) then NaN
    else Fin (qsum flags / of_nat (length flags) * Qc_of_Z 100)%Qc.
Proof.
  unfold overall_churn_rate. intros H.
  apply bind_Return_inv in H as (s & Hs & H).
  apply bind_Return_inv in H as (m & Hm & [= <-]).
  unfold getitem in Hs. case_decide; [|done]. injection Hs as <-.
  unfold mean in Hm.
  apply bind_Return_inv in Hm as (l & Hl & [= <-]).
  apply numbers_Return_inv in Hl as [_ ->]. cbv zeta.
  set (flags := omap num_opt (column df "churned")).
  unfold fdiv. destruct flags as [|x flags'] eqn:E.
  - rewrite decide_True by (by apply Qc_is_canon).
    rewrite decide_True by done. by rewrite decide_True by done.
  - rewrite decide_False by (rewrite of_nat_0_iff; simpl; lia).
    by rewrite decide_False by done.
Qed.

(** The rate of a line is its churned count over its total, times a
    hundred. *)
Lemma churn_table_rate overall df col title t line :
  churn_table overall df col title = Return t →
  line ∈ lines t →
  total_count line ≠ 0 →
  rate_percent line
  = Fin (churned_count line / of_nat (total_count line) * Qc_of_Z 100)%Qc.
Proof.
  unfold churn_table. intros H.
  apply bind_Return_inv in H as (groups & _ & H).
  apply bind_Return_inv in H as (aggregated & Hagg & [= <-]).
  simpl. intros (row & -> & Hrow)%list_elem_of_fmap. simpl.
  unfold sort_values in Hrow. rewrite sort_by_Permutation in Hrow.
  unfold agg in Hagg. repeat case_decide; try done.
  apply mapM_Return_inv in Hagg.
  apply list_elem_of_lookup in Hrow as [i Hi].
  destruct (Forall2_lookup_r _ _ _ _ _ Hagg Hi) as (g & _ & Hg).
  unfold agg_group in Hg.
  apply bind_Return_inv in Hg as (ids & _ & Hg).
  apply bind_Return_inv in Hg as (flags & _ & Hg).
  apply bind_Return_inv in Hg as (churned & _ & [= <-]).
  simpl. intros Htotal. unfold fdiv.
  by rewrite decide_False by (by rewrite of_nat_0_iff).
Qed.

(** Every printed line carries its rate minus [overall] as its
    difference: the difference of two numbers, the rate itself when the
    rate is infinite or not a number, and not a number when [overall] is
    not a number. *)
Lemma churn_table_diff overall df col title t line :
  churn_table overall df col title = Return t →
  line ∈ lines t →
  (overall = NaN → diff line = NaN) ∧
  (∀ b, overall = Fin b →
     diff line = match rate_percent line with
                 | Fin r => Fin (r - b)%Qc
                 | other => other
                 end).
Proof.
  unfold churn_table.
  destruct (groupby df col) as [e|groups]; simpl; [done|].
  destruct (agg df col groups) as [e|aggregated]; simpl; [done|].
  intros [= <-]. simpl. intros (row & -> & _)%list_elem_of_fmap. simpl.
  split.
  - intros ->. by destruct (Rate row).
  - intros b ->. by destruct (Rate row).
Qed.

(** C4.  In one run of the report, the baseline is the churn rate of the
    entire table, a hundred times the mean of the churn flags of all its
    rows, one value for all breakdowns.  The rate of a line is its
    churned count over its total, times a hundred, and every line of
    every breakdown carries as its deviation its own rate minus that
    baseline. *)
Theorem deviation_from_baseline (df : DataFrame) (report : Report) :
  run df = Return report →
  let flags := omap num_opt (column df "churned") in
  baseline_rate report
  = (if decide (flags = []) then NaN
     else Fin (qsum flags / of_nat (length flags) * Qc_of_Z 100)%Qc) ∧
  ∀ t line, t ∈ tables report → line ∈ lines t →
    (total_count line ≠ 0 →
     rate_percent line
     = Fin (churned_count line / of_nat (total_count line)
            * Qc_of_Z 100)%Qc) ∧
    (∀ r b, rate_percent line = Fin r → baseline_rate report = Fin b →
       diff line = Fin (r - b)%Qc) ∧
    (∀ b, baseline_rate report = Fin b →
       (rate_percent line = PInf ∨ rate_percent line = NInf ∨
        rate_percent line = NaN) →
       diff line = rate_percent line) ∧
    (baseline_rate report = NaN → diff line = NaN).
Proof.
  unfold run. intros H.
  apply bind_Return_inv in H as (overall & Hoverall & H).
  apply bind_Return_inv in H as (banded & _ & H).
  apply bind_Return_inv in H as (ts & Hts & [= <-]).
  cbn [baseline_rate tables]. split; [by apply overall_churn_rate_mean|].
  intros t line Ht Hline.
  apply mapM_Return_inv in Hts.
  apply list_elem_of_lookup in Ht as [i Hi].
  destruct (Forall2_lookup_r _ _ _ _ _ Hts Hi) as (s & _ & Hs).
  destruct (churn_table_diff _ _ _ _ _ _ Hs Hline) as [Hnan Hfin].
  split_and!.
  - by eapply churn_table_rate.
  - intros r b Hr ->. by rewrite (Hfin b eq_refl), Hr.
  - intros b -> Hrate. rewrite (Hfin b eq_refl).
    by destruct Hrate as [->|[->| ->]].
  - done.
Qed.

Lemma deviation_from_baseline_witness :
  ∃ report b, run sample_policies = Return report ∧
    length (tables report) = 17 ∧
    baseline_rate report = Fin b ∧
    ∀ t line, t ∈ tables report → line ∈ lines t →
      ∀ r, rate_percent line = Fin r → diff line = Fin (r - b)%Qc.
Proof.
  destruct (run sample_policies) as [e|report] eqn:E.
  { exfalso. vm_compute in E. discriminate E. }
  exists report, (Q2Qc (100 # 3)).
  destruct (deviation_from_baseline sample_policies report E)
    as [Hbase Hlines].
  assert (baseline_rate report = Fin (Q2Qc (100 # 3))) as Hb.
  { rewrite Hbase. by_computation. }
  split; [done|]. split.
  - assert (H : length <$> (tables <$> run sample_policies) = Return 17)
      by (by vm_compute).
    rewrite E in H. by injection H.
  - split; [exact Hb|]. intros t line Ht Hline r Hr.
    destruct (Hlines t line Ht Hline) as (_ & Hdiff & _).
    by apply Hdiff.
Defined.

Section Breakdown.
Variables (df : DataFrame) (col : string).

Lemma elem_of_keys k :
  k ∈ keys df col ↔ k ≠ NA ∧ ∃ r, r ∈ rows df ∧ cell r col = k.
Proof.
  unfold keys, column. rewrite elem_of_unique, elem_of_dropna, list_elem_of_fmap.
  naive_solver.
Qed.

Lemma keyed_rows :
  filter (λ r, cell r col ∈ keys df col) (rows df) = rows (dropna_rows df col).
Proof.
  simpl. apply filter_ext_in. intros r Hr.
  rewrite elem_of_keys. naive_solver.
Qed.

(** The groups, put together, are the rows with a key. *)
Lemma groups_cover :
  (keys df col ≫= group_rows df col) ≡ₚ rows (dropna_rows df col).
Proof.
  rewrite <-keyed_rows. unfold group_rows.
  apply (groups_partition (λ r, cell r col)), NoDup_unique.
Qed.

Lemma churned_sum :
  qsum (Churned <$> (grp_row df col <$> keys df col))
  = qsum (churn_flag <$> rows (dropna_rows df col)).
Proof.
  rewrite <-groups_cover, qsum_bind, <-list_fmap_compose. done.
Qed.

Lemma elem_of_policy_ids (l : list (gmap string Cell)) p :
  p ∈ policy_ids l ↔ p ≠ NA ∧ ∃ r, r ∈ l ∧ cell r "policy_id" = p.
Proof.
  unfold policy_ids. rewrite elem_of_unique, elem_of_dropna, list_elem_of_fmap.
  naive_solver.
Qed.

(** When no policy occurs under two keys, the groups' policy counts add
    up to the number of policies among the rows with a key. *)
Lemma total_sum :
  (∀ r1 r2, r1 ∈ rows df → r2 ∈ rows df →
     cell r1 "policy_id" = cell r2 "policy_id" →
     cell r1 "policy_id" ≠ NA → cell r1 col ≠ NA → cell r2 col ≠ NA →
     cell r1 col = cell r2 col) →
  sum_list (Total <$> (grp_row df col <$> keys df col))
  = length (policy_ids (rows (dropna_rows df col))).
Proof.
  intros Hone.
  rewrite <-list_fmap_compose.
  rewrite (sum_list_length_bind (λ k, policy_ids (group_rows df col k))).
  apply Permutation_length, NoDup_Permutation.
  - apply NoDup_bind; [|intros; apply NoDup_unique|apply NoDup_unique].
    intros k1 k2 p Hk1 Hk2.
    rewrite !elem_of_policy_ids. unfold group_rows.
    intros (Hp & r1 & [<- Hr1]%list_elem_of_filter & H1)
           (_ & r2 & [<- Hr2]%list_elem_of_filter & H2).
    apply elem_of_keys in Hk1 as [? _], Hk2 as [? _].
    apply Hone; try done; congruence.
  - apply NoDup_unique.
  - intros p. rewrite list_elem_of_bind.
    setoid_rewrite elem_of_policy_ids. simpl. unfold group_rows.
    setoid_rewrite list_elem_of_filter. split.
    + intros (k & (Hp & r & [<- Hr] & Hid) & [Hk _]%elem_of_keys).
      naive_solver.
    + intros (Hp & r & [Hk Hr] & Hid). exists (cell r col).
      rewrite elem_of_keys. naive_solver.
Qed.
End Breakdown.

Lemma dropna_rows_complete df col :
  (∀ r, r ∈ rows df → cell r col ≠ NA) → rows (dropna_rows df col) = rows df.
Proof.
  intros Hall. simpl. induction (rows df) as [|r t IH]; [done|].
  rewrite filter_cons, decide_True by (apply Hall; by left).
  rewrite IH; [done|]. intros; apply Hall; by right.
Qed.

Lemma fmap_lines_Permutation {B} (f : GrpRow → B) (g : AggregationRow → B)
    overall (l : list GrpRow) :
  (∀ row, g (line_of overall row) = f row) →
  g <$> (line_of overall <$> sort_values l) ≡ₚ f <$> l.
Proof.
  intros Hfg. rewrite <-list_fmap_compose.
  unfold sort_values. rewrite sort_by_Permutation.
  apply reflexive_eq, list_fmap_ext. intros _ row _. apply Hfg.
Qed.

(** C5 as stated fails: every row of [split_policy] has a product type,
    the groups' total counts add up to 2, and the table holds 1 policy. *)
Lemma total_count_sum_counterexample :
  Forall (λ r, cell r "product_type" ≠ NA) (rows split_policy) ∧
  (λ t, sum_list (total_count <$> lines t))
    <$> churn_table (Fin 0%Qc) split_policy "product_type" "Product Type"
  = Return 2 ∧
  nunique (column split_policy "policy_id") = 1.
Proof. split; [by_computation|]. split; by vm_compute. Qed.

(** C5, amended.  On a table whose rows all have a value in the group
    column, the breakdown returns, its TOTAL line holds the sums of the
    two count columns, the churned counts of the groups add up to the
    churned count of the whole table, and, when no policy identity occurs
    under two different group values, the total counts add up to the
    number of distinct policies of the table. *)
Theorem partition_sums (overall : Float) (df : DataFrame) (col title : string) :
  churn_ready df col →
  (∀ r, r ∈ rows df → cell r col ≠ NA) →
  ∃ t, churn_table overall df col title = Return t ∧
    TOTAL t = (sum_list (total_count <$> lines t),
               qsum (churned_count <$> lines t)) ∧
    Pandas.sum (column df "churned")
      = Return (qsum (churned_count <$> lines t)) ∧
    ((∀ r1 r2, r1 ∈ rows df → r2 ∈ rows df →
        cell r1 "policy_id" = cell r2 "policy_id" →
        cell r1 "policy_id" ≠ NA → cell r1 col = cell r2 col) →
     sum_list (total_count <$> lines t) = nunique (column df "policy_id")).
Proof.
  intros Hready Hall. eexists. split; [by apply churn_table_eq|]. simpl.
  pose proof (dropna_rows_complete df col Hall) as Hrows.
  rewrite (fmap_lines_Permutation Total total_count) by done.
  rewrite (fmap_lines_Permutation Churned churned_count) by done.
  split; [|split].
  - unfold sort_values. by rewrite !sort_by_Permutation.
  - unfold column. rewrite sum_rows by apply (ready_numeric _ _ Hready).
    by rewrite churned_sum, Hrows.
  - intros Hone. rewrite total_sum, Hrows; [done|].
    intros r1 r2 ??????. by apply Hone.
Qed.

Lemma partition_sums_witness :
  ∃ t, churn_table (Fin 0%Qc) sample_policies "product_type" "Product Type"
       = Return t ∧
    TOTAL t = (sum_list (total_count <$> lines t),
               qsum (churned_count <$> lines t)) ∧
    Pandas.sum (column sample_policies "churned")
      = Return (qsum (churned_count <$> lines t)) ∧
    sum_list (total_count <$> lines t)
      = nunique (column sample_policies "policy_id").
Proof.
  destruct (partition_sums (Fin 0%Qc) sample_policies "product_type"
              "Product Type") as (t & Ht & Htotal & Hchurned & Hcount).
  - split; by_computation.
  - intros r Hr. revert r Hr. apply Forall_forall. by_computation.
  - exists t. split; [exact Ht|]. split; [exact Htotal|].
    split; [exact Hchurned|]. apply Hcount.
    intros r1 r2 Hr1 Hr2.
    assert (H : Forall (λ r1, Forall (λ r2,
                  cell r1 "policy_id" = cell r2 "policy_id" →
                  cell r1 "policy_id" ≠ NA →
                  cell r1 "product_type" = cell r2 "product_type")
                  (rows sample_policies)) (rows sample_policies))
      by by_computation.
    rewrite Forall_forall in H. specialize (H r1 Hr1).
    rewrite Forall_forall in H. exact (H r2 Hr2).
Defined.

Lemma dropna_fmap_filter {A} (f : A → Cell) (l : list A) :
  dropna (f <$> filter (λ r, f r ≠ NA) l) = dropna (f <$> l).
Proof.
  unfold dropna. induction l as [|a t IH]; [done|].
  rewrite (filter_cons _ a t), (fmap_cons f a t), (filter_cons _ (f a)).
  destruct (decide (f a ≠ NA)) as [Ha|Ha].
  - rewrite fmap_cons, filter_cons, IH. done.
  - rewrite IH, decide_False; [done|].
    destruct (f a); simpl; naive_solver.
Qed.

Section NullKeys.
Variables (df : DataFrame) (col : string).

Lemma keys_dropna_rows : keys (dropna_rows df col) col = keys df col.
Proof.
  unfold keys, column, dropna_rows. simpl. f_equal.
  apply (dropna_fmap_filter (λ r, cell r col)).
Qed.

Lemma group_rows_dropna_rows k :
  k ≠ NA → group_rows (dropna_rows df col) col k = group_rows df col k.
Proof.
  intros Hk. unfold group_rows, dropna_rows. simpl.
  rewrite list_filter_filter. apply filter_ext_in. intros r _.
  naive_solver.
Qed.

Lemma grp_row_dropna_rows k :
  k ≠ NA → grp_row (dropna_rows df col) col k = grp_row df col k.
Proof. intros Hk. unfold grp_row. by rewrite group_rows_dropna_rows. Qed.

Lemma churn_ready_dropna_rows :
  churn_ready df col → churn_ready (dropna_rows df col) col.
Proof.
  intros []. split; try done. simpl. apply Forall_forall.
  intros r [_ Hr]%list_elem_of_filter. revert r Hr. by apply Forall_forall.
Qed.

(** The rows without a key change nothing in the breakdown. *)
Lemma churn_table_dropna_rows overall title :
  churn_ready df col →
  churn_table overall (dropna_rows df col) col title
  = churn_table overall df col title.
Proof.
  intros Hready.
  rewrite !churn_table_eq by auto using churn_ready_dropna_rows.
  rewrite keys_dropna_rows.
  assert (grp_row (dropna_rows df col) col <$> keys df col
          = grp_row df col <$> keys df col) as ->; [|done].
  apply list_fmap_ext. intros _ k Hk%list_elem_of_lookup_2.
  apply grp_row_dropna_rows. by apply elem_of_keys in Hk as [? _].
Qed.

Lemma overall_churn_rate_bool :
  "churned" ∈ columns df →
  Forall (λ r, is_bool (cell r "churned") = true) (rows df) →
  overall_churn_rate df =
  Return (fmul (fdiv (Fin (qsum (churn_flag <$> rows df)))
                     (Fin (of_nat (len df)))) hundred).
Proof.
  intros Hc Hbool. unfold overall_churn_rate, getitem.
  rewrite decide_True by done. simpl. unfold mean.
  rewrite numbers_Return.
  2:{ unfold column. apply Forall_fmap. eapply Forall_impl; [done|].
      intros r. simpl. by destruct (cell r "churned"). }
  simpl.
  assert (qsum (omap num_opt (column df "churned"))
          = qsum (churn_flag <$> rows df)) as ->.
  { unfold column. by rewrite qsum_omap_num, <-list_fmap_compose. }
  assert (length (omap num_opt (column df "churned")) = len df) as ->;
    [|done].
  unfold len, column.
  induction Hbool as [|r t Hr _ IH]; [done|]. csimpl.
  destruct (cell r "churned"); try done. simpl. by rewrite IH.
Qed.
End NullKeys.

(** C10.  In a breakdown the rows without a value in the group column are
    left out: the breakdown of the table is the breakdown of its rows that
    have a value, no line has a missing value as its group, and the
    churned counts of the lines add up to those rows only; the baseline is
    the rate over all rows of the table, the rows without a value included,
    and these are strictly more rows whenever the group column has a
    missing value. *)
Theorem null_keys_excluded (overall : Float) (df : DataFrame)
    (col title : string) :
  churn_ready df col →
  Forall (λ r, is_bool (cell r "churned") = true) (rows df) →
  ∃ t, churn_table overall df col title = Return t ∧
    churn_table overall (dropna_rows df col) col title = Return t ∧
    (∀ line, line ∈ lines t → Value line ≠ NA) ∧
    qsum (churned_count <$> lines t)
      = qsum (churn_flag <$> rows (dropna_rows df col)) ∧
    overall_churn_rate df =
      Return (fmul (fdiv (Fin (qsum (churn_flag <$> rows df)))
                         (Fin (of_nat (len df)))) hundred) ∧
    ((∃ r, r ∈ rows df ∧ cell r col = NA) →
     len (dropna_rows df col) < len df).
Proof.
  intros Hready Hbool.
  destruct (churn_table overall df col title) as [e|t] eqn:Ht.
  { rewrite churn_table_eq in Ht by done. discriminate Ht. }
  exists t. split; [done|].
  split; [by rewrite churn_table_dropna_rows|].
  pose proof (lines_Permutation df col Hready overall title t Ht) as Hperm.
  split; [|split; [|split]].
  - intros line Hline. rewrite Hperm in Hline.
    apply list_elem_of_fmap in Hline as (row & -> & Hrow).
    apply list_elem_of_fmap in Hrow as (k & -> & Hk).
    simpl. by apply elem_of_keys in Hk as [? _].
  - rewrite Hperm, <-churned_sum, <-list_fmap_compose. done.
  - apply overall_churn_rate_bool; [apply Hready|done].
  - intros (r & Hr & Hna). unfold len. simpl.
    apply (length_filter_lt _ _ r); [done|]. intros H. by apply H.
Qed.

Lemma null_keys_excluded_witness :
  ∃ t, churn_table (Fin 0%Qc) sample_policies "payment_frequency"
                   "Payment Frequency" = Return t ∧
    churn_table (Fin 0%Qc) (dropna_rows sample_policies "payment_frequency")
                "payment_frequency" "Payment Frequency" = Return t ∧
    (∀ line, line ∈ lines t → Value line ≠ NA) ∧
    len (dropna_rows sample_policies "payment_frequency")
      < len sample_policies.
Proof.
  destruct (null_keys_excluded (Fin 0%Qc) sample_policies "payment_frequency"
              "Payment Frequency") as (t & Ht & Hdrop & Hna & _ & _ & Hlen).
  - split; by_computation.
  - by_computation.
  - exists t. split; [exact Ht|]. split; [exact Hdrop|].
    split; [exact Hna|]. apply Hlen.
    apply Exists_exists. by_computation.
Defined.

(** C3 on the code.  For the duplicated policy the breakdown counts one
    policy in the group and two churned: the total is taken over distinct
    policy identities, the churned count over rows, and the rate is 200%. *)
Theorem churned_count_counts_rows :
  (overall ← overall_churn_rate duplicated_policy;
   t ← churn_table overall duplicated_policy "product_type" "Product Type";
   Return ((λ l, (Value l, total_count l, churned_count l, rate_percent l))
             <$> lines t))
  = Return [(VStr "Term", 1, Qc_of_Z 2, Fin (Qc_of_Z 200))].
Proof. by_computation. Qed.

(** * Outliers *)

(** C7 as stated fails: on the example data the first quartile is 2.25
    and not 2, the third is 4.75 and not 4.5, and the bounds are -1.5 and
    8.5, not -1.75 and 8.25. *)
Lemma quartiles_counterexample :
  (stats ← outlier_stats example_data;
   Return (match stats with
           | Some o => Some (q1 o, q3 o, lower o, upper o)
           | None => None
           end))
  = Return (Some (Q2Qc (9 # 4), Q2Qc (19 # 4), Q2Qc (-3 # 2), Q2Qc (17 # 2))) ∧
  Q2Qc (9 # 4) ≠ Qc_of_Z 2 ∧ Q2Qc (19 # 4) ≠ Q2Qc (9 # 2) ∧
  Q2Qc (-3 # 2) ≠ Q2Qc (-7 # 4) ∧ Q2Qc (17 # 2) ≠ Q2Qc (33 # 4).
Proof. repeat split; by_computation. Qed.

(** C7, amended.  On the data 1, 2, 3, 4, 5, 100 the check computes
    Q1 = 2.25 and Q3 = 4.75 (linear interpolation), IQR = 2.5, the bounds
    -1.5 and 8.5, and counts one outlier, the value 100. *)
Theorem outliers_of_example :
  outlier_stats example_data
  = Return (Some {| q1 := Q2Qc (9 # 4); q3 := Q2Qc (19 # 4);
                    iqr := Q2Qc (5 # 2); lower := Q2Qc (-3 # 2);
                    upper := Q2Qc (17 # 2); n_out := 1 |}) ∧
  (xs ← numbers example_data;
   Return (filter (λ x, qlt x (Q2Qc (-3 # 2)) || qlt (Q2Qc (17 # 2)) x = true) xs))
  = Return [Qc_of_Z 100].
Proof. split; by_computation. Qed.

(** * The report monad *)

Section PrintMonad.
Context {A B C : Type}.

Lemma Print_ret_bind (a : A) (f : A → Print B) : mret a ≫= f = f a.
Proof. unfold mret, Print_ret, mbind, Print_bind. by destruct (f a). Qed.

Lemma Print_bind_assoc (m : Print A) (f : A → Print B) (g : B → Print C) :
  (m ≫= f) ≫= g = m ≫= (λ a, f a ≫= g).
Proof.
  destruct m as [out [e|a]]; [done|]. unfold mbind, Print_bind.
  destruct (f a) as [out1 [e|b]]; [done|].
  destruct (g b) as [out2 res]. by rewrite app_assoc.
Qed.

Lemma Print_bind_Printed out a (f : A → Print B) :
  Printed out (Return a) ≫= f
  = Printed (out ++ output (f a)) (outcome (f a)).
Proof. unfold mbind, Print_bind. by destruct (f a). Qed.

Lemma Print_bind_Raise out e (f : A → Print B) :
  Printed out (Raise e) ≫= f = Printed out (Raise e).
Proof. done. Qed.

Lemma Print_eta (m : Print A) : m = Printed (output m) (outcome m).
Proof. by destruct m. Qed.
End PrintMonad.

Section ForEach.
Context {A : Type} (body : A → Print ()).

Lemma for_each_then {B} (l : list A) (k : Print B) :
  for_each l body ≫= (λ _, k) = foldr (λ x rest, body x ≫= λ _, rest) k l.
Proof.
  induction l as [|x t IH].
  - apply (Print_ret_bind () (λ _, k)).
  - unfold for_each in *. cbn [foldr]. by rewrite Print_bind_assoc, IH.
Qed.

(** A loop whose iterations all return prints their outputs in order. *)
Lemma for_each_return (l : list A) :
  (∀ x, x ∈ l → outcome (body x) = Return ()) →
  for_each l body = Printed (l ≫= λ x, output (body x)) (Return ()).
Proof.
  induction l as [|x t IH]; intros Hall; [done|].
  unfold for_each in *. simpl.
  rewrite (Print_eta (body x)), Hall by by left.
  rewrite Print_bind_Printed, IH by (intros; apply Hall; by right). done.
Qed.

(** A loop stops at its first iteration that raises. *)
Lemma for_each_raise (pre post : list A) x e :
  (∀ y, y ∈ pre → outcome (body y) = Return ()) →
  outcome (body x) = Raise e →
  for_each (pre ++ x :: post) body
  = Printed ((pre ≫= λ y, output (body y)) ++ output (body x)) (Raise e).
Proof.
  intros Hpre Hx. induction pre as [|y t IH]; unfold for_each in *; simpl.
  - by rewrite (Print_eta (body x)), Hx.
  - rewrite (Print_eta (body y)), Hpre by by left.
    rewrite Print_bind_Printed, IH by (intros; apply Hpre; by right).
    simpl. by rewrite app_assoc.
Qed.
End ForEach.

(** * The battery of checks *)

(** C8 as stated fails: on [empty_channel] the missing-values check raises,
    the duplicates and outliers checks would each return and print their
    section, and the report holds neither section. *)
Lemma failure_blocks_later_checks :
  outcome (print_missing_values never_a_date empty_channel)
    = Raise AttributeError ∧
  outcome (print_duplicates empty_channel) = Return () ∧
  outcome (print_outliers empty_channel) = Return () ∧
  ({| text := "5. DUPLICATES"; args := [] |}
     ∈ output (print_duplicates empty_channel)) ∧
  ({| text := "5. DUPLICATES"; args := [] |}
     ∉ output (main never_a_date (Some empty_channel))) ∧
  Forall (λ line, line ∉ output (main never_a_date (Some empty_channel)))
    (drop 3 (output (print_outliers empty_channel))) ∧
  last (output (main never_a_date (Some empty_channel)))
    = Some {| text := "Error: {e}"; args := [AExn AttributeError] |}.
Proof. repeat split; by_computation. Qed.

Section Battery.
Variable parse_date : string → option Z.
Variable df : DataFrame.

Lemma run_checks_battery :
  run_checks parse_date (Some df)
  = for_each (battery parse_date) (λ c, c df)
      ≫= λ _, banner "CHECKS COMPLETE".
Proof.
  rewrite for_each_then. unfold run_checks, battery. simpl read_csv.
  change (lift (Return df)) with (mret df : Print DataFrame).
  by rewrite Print_ret_bind.
Qed.

Lemma run_checks_raise pre check post e :
  battery parse_date = (pre ++ check :: post)%list →
  (∀ c, c ∈ pre → outcome (c df) = Return ()) →
  outcome (check df) = Raise e →
  run_checks parse_date (Some df)
  = Printed (sections_of df pre ++ output (check df))%list (Raise e).
Proof.
  intros Hsplit Hpre Hcheck.
  rewrite run_checks_battery, Hsplit.
  by rewrite (for_each_raise _ pre post check e).
Qed.

Lemma run_checks_return :
  (∀ c, c ∈ battery parse_date → outcome (c df) = Return ()) →
  run_checks parse_date (Some df)
  = Printed (sections_of df (battery parse_date)
             ++ output (banner "CHECKS COMPLETE"))%list (Return ()).
Proof.
  intros Hall. rewrite run_checks_battery, for_each_return by done.
  by rewrite Print_bind_Printed.
Qed.
End Battery.

(** C8, amended.  The seven checks run in their fixed order inside one
    [try]: when a check raises, the report keeps the sections of the checks
    before it and what the failing check had printed, [main] adds one
    error line and returns, [run_quality_checks] lets the error through,
    and no later check runs; when no check raises, the report holds the
    seven sections in order and the closing banner. *)
Theorem first_failure_ends_battery (parse_date : string → option Z)
    (df : DataFrame) :
  (∀ pre check post e,
     battery parse_date = (pre ++ check :: post)%list →
     (∀ c, c ∈ pre → outcome (c df) = Return ()) →
     outcome (check df) = Raise e →
     main parse_date (Some df)
     = Printed (output (banner "DATA SANITY CHECKS — policies.csv")
                ++ sections_of df pre ++ output (check df)
                ++ output (report_error e))%list (Return ()) ∧
     run_quality_checks parse_date (Some df)
     = Printed (output (banner "DATA QUALITY CHECKS — policies.csv")
                ++ sections_of df pre ++ output (check df))%list (Raise e)) ∧
  ((∀ c, c ∈ battery parse_date → outcome (c df) = Return ()) →
   main parse_date (Some df)
   = Printed (output (banner "DATA SANITY CHECKS — policies.csv")
              ++ sections_of df (battery parse_date)
              ++ output (banner "CHECKS COMPLETE"))%list (Return ())).
Proof.
  split.
  - intros pre check post e Hsplit Hpre Hcheck.
    unfold main, run_quality_checks.
    rewrite (run_checks_raise parse_date df pre check post e) by done.
    split.
    + destruct e; simpl; by rewrite <-?app_assoc.
    + simpl. done.
  - intros Hall. unfold main.
    rewrite run_checks_return by done. simpl. by rewrite <-?app_assoc.
Qed.

Lemma first_failure_ends_battery_witness :
  main never_a_date (Some empty_channel)
  = Printed (output (banner "DATA SANITY CHECKS — policies.csv")
             ++ sections_of empty_channel
                  [print_shape; print_dtypes; print_categorical_distribution]
             ++ output (print_missing_values never_a_date empty_channel)
             ++ output (report_error AttributeError))%list (Return ()).
Proof.
  apply (proj1 (first_failure_ends_battery never_a_date empty_channel)
           [print_shape; print_dtypes; print_categorical_distribution]
           (print_missing_values never_a_date)
           [print_duplicates; print_impossible_values never_a_date;
            print_outliers] AttributeError).
  - reflexivity.
  - intros c Hc.
    repeat (apply elem_of_cons in Hc as [->|Hc]; [by_computation|]).
    by apply elem_of_nil in Hc.
  - by_computation.
Defined.

(** * Absent columns *)

Lemma nke_Return {A} (a : A) : no_key_error (Return a).
Proof. by intros k. Qed.

Lemma nke_bind {A B} (r : Result A) (f : A → Result B) :
  no_key_error r → (∀ a, r = Return a → no_key_error (f a)) →
  no_key_error (r ≫= f).
Proof.
  intros Hr Hf. destruct r as [e|a].
  - intros k Hk. simpl in Hk. injection Hk as ->. by apply (Hr k).
  - by apply Hf.
Qed.

Lemma nke_fmap {A B} (r : Result A) (f : A → B) :
  no_key_error r → no_key_error (f <$> r).
Proof.
  intros Hr. destruct r as [e|a]; [|by intros k].
  intros k Hk. simpl in Hk. injection Hk as ->. by apply (Hr k).
Qed.

Lemma nke_mapM {A B} (f : A → Result B) (l : list A) :
  (∀ x, x ∈ l → no_key_error (f x)) → no_key_error (mapM f l).
Proof.
  induction l as [|x t IH]; intros Hf; [by intros k|].
  simpl. apply nke_bind; [apply Hf; by left|]. intros b _.
  apply nke_bind; [apply IH; intros; apply Hf; by right|].
  by intros ?? k.
Qed.

Lemma safe_mret {A} (a : A) : prints_safely (mret a : Print A).
Proof. by intros k. Qed.

Lemma safe_lift {A} (r : Result A) : no_key_error r → prints_safely (lift r).
Proof. done. Qed.

Lemma safe_bind {A B} (m : Print A) (f : A → Print B) :
  prints_safely m → (∀ a, outcome m = Return a → prints_safely (f a)) →
  prints_safely (m ≫= f).
Proof.
  intros Hm Hf. destruct m as [out [e|a]].
  - intros k Hk. simpl in Hk. injection Hk as ->. by apply (Hm k).
  - specialize (Hf a eq_refl). unfold prints_safely in *. simpl.
    by destruct (f a).
Qed.

Lemma nke_getitem df col : col ∈ columns df → no_key_error (getitem df col).
Proof. intros Hc. unfold getitem. rewrite decide_True by done. by intros k. Qed.

Lemma getitem_Return df col :
  col ∈ columns df → getitem df col = Return (column df col).
Proof. intros Hc. unfold getitem. by rewrite decide_True. Qed.

Lemma nke_to_num c : no_key_error (to_num c).
Proof. by destruct c. Qed.

Lemma nke_numbers s : no_key_error (numbers s).
Proof. apply nke_fmap, nke_mapM. intros; apply nke_to_num. Qed.

Lemma nke_count_where fn s : no_key_error (count_where fn s).
Proof.
  apply nke_bind; [apply nke_mapM; intros; apply nke_to_num|].
  by intros ?? k.
Qed.

Lemma nke_str_lower s : no_key_error (str_lower s).
Proof. unfold str_lower. by destruct (_ || _). Qed.

Lemma nke_to_datetime parse_date s : no_key_error (to_datetime parse_date s).
Proof. apply nke_mapM. intros c _. by destruct c. Qed.

Lemma nke_outlier_stats s : no_key_error (outlier_stats s).
Proof.
  unfold outlier_stats. destruct (_ =? 0); [by intros k|].
  destruct (decide (dtype_of s = bool_)); [by intros k|].
  apply nke_bind; [apply nke_numbers|]. intros xs _.
  by destruct (decide _); intros k.
Qed.

Lemma safe_print text args : prints_safely (print text args).
Proof. by intros k. Qed.

Lemma safe_banner title : prints_safely (banner title).
Proof. by intros k. Qed.

Lemma safe_for_each {A} (l : list A) (body : A → Print ()) :
  (∀ x, x ∈ l → prints_safely (body x)) → prints_safely (for_each l body).
Proof.
  induction l as [|x t IH]; intros Hbody; [by intros k|].
  unfold for_each in *. simpl. apply safe_bind; [apply Hbody; by left|].
  intros _ _. apply IH. intros; apply Hbody; by right.
Qed.

(** Takes one step through a check: a sequence, a loop, a guard, or a
    pandas call that cannot end in a [KeyError]. *)
Ltac safe_step :=
  cbv beta;
  lazymatch goal with
  | |- prints_safely (print _ _) => apply safe_print
  | |- prints_safely (banner _) => apply safe_banner
  | |- prints_safely (mret _) => apply safe_mret
  | |- prints_safely (Printed _ (Return _)) => by intros ?
  | |- prints_safely (for_each _ _) => apply safe_for_each; intros ? _
  | |- prints_safely (lift _) => apply safe_lift
  | |- prints_safely (_ ≫= _) => apply safe_bind; [|intros ? _]
  | |- no_key_error (Return _) => apply nke_Return
  | |- no_key_error (numbers _) => apply nke_numbers
  | |- no_key_error (count_where _ _) => apply nke_count_where
  | |- no_key_error (str_lower _) => apply nke_str_lower
  | |- no_key_error (to_datetime _ _) => apply nke_to_datetime
  | |- no_key_error (outlier_stats _) => apply nke_outlier_stats
  | |- no_key_error (getitem _ _) =>
      apply nke_getitem; simpl; first [tauto | apply dec_stable; tauto]
  | |- no_key_error (_ ≫= _) => apply nke_bind; [|intros ? _]
  | |- no_key_error (_ <$> _) => apply nke_fmap
  | |- no_key_error (mapM _ _) => apply nke_mapM; intros ? _
  | |- context [decide ?P] => destruct (decide P)
  | |- context [if ?b then _ else _] => destruct b
  | |- context [match ?x with _ => _ end] => destruct x
  end.

Section Validator.
Variable parse_date : string → option Z.
Variable df : DataFrame.

Lemma safe_print_shape : prints_safely (print_shape df).
Proof. unfold print_shape. repeat safe_step. Qed.

Lemma safe_print_dtypes : prints_safely (print_dtypes df).
Proof. unfold print_dtypes. repeat safe_step. Qed.

Lemma safe_print_categorical_distribution :
  prints_safely (print_categorical_distribution df).
Proof.
  unfold print_categorical_distribution, categorical_section,
    churn_reason_section, print_value_counts.
  repeat safe_step.
Qed.

Lemma safe_print_missing_values :
  prints_safely (print_missing_values parse_date df).
Proof.
  unfold print_missing_values, justifications, justify_end_date,
    justify_discount, justify_agent.
  repeat safe_step.
Qed.

Lemma safe_print_duplicates : prints_safely (print_duplicates df).
Proof.
  unfold print_duplicates, policy_id_duplicates, customer_id_duplicates.
  repeat safe_step.
Qed.

Lemma safe_print_impossible_values :
  prints_safely (print_impossible_values parse_date df).
Proof.
  unfold print_impossible_values, range_issues, range_issue, date_issues,
    churn_issues, discount_issues, agent_issues.
  repeat safe_step.
Qed.

Lemma safe_outliers_loop cols any_outliers :
  prints_safely (outliers_loop df cols any_outliers).
Proof.
  revert any_outliers. induction cols as [|col rest IH]; intros any_outliers.
  - apply safe_mret.
  - simpl. apply safe_bind; [|intros; apply IH].
    unfold outlier_row. repeat safe_step.
Qed.

Lemma safe_print_outliers : prints_safely (print_outliers df).
Proof.
  unfold print_outliers.
  do 3 (apply safe_bind; [repeat safe_step|intros ? _]).
  apply safe_bind; [apply safe_outliers_loop|intros ? _].
  repeat safe_step.
Qed.

(** No check of the battery ends in a [KeyError]. *)
Lemma safe_battery c :
  c ∈ battery parse_date → prints_safely (c df).
Proof.
  unfold battery. intros Hc.
  repeat (apply elem_of_cons in Hc as [->|Hc];
          [auto using safe_print_shape, safe_print_dtypes,
             safe_print_categorical_distribution, safe_print_missing_values,
             safe_print_duplicates, safe_print_impossible_values,
             safe_print_outliers|]).
  by apply elem_of_nil in Hc.
Qed.
End Validator.

Lemma outcome_try_except (m : Print ()) :
  outcome (try_except m report_error) = Return ().
Proof.
  destruct m as [out [e|[]]]; [|done]. simpl. by destruct e.
Qed.

Lemma outcome_main parse_date file :
  outcome (main parse_date file) = Return ().
Proof.
  unfold main. pose proof (outcome_try_except (run_checks parse_date file)).
  destruct (try_except _ _) as [out res]. simpl in *. by subst.
Qed.

Lemma churn_table_KeyError overall df col title :
  col ∉ columns df → churn_table overall df col title = Raise (KeyError col).
Proof.
  intros Hc. unfold churn_table, groupby, getitem. by rewrite decide_False.
Qed.

Lemma churn_table_column overall df col title t :
  churn_table overall df col title = Return t → col ∈ columns df.
Proof.
  intros Ht. destruct (decide (col ∈ columns df)) as [|Hc]; [done|].
  by rewrite churn_table_KeyError in Ht.
Qed.

Lemma add_bands_columns df banded col :
  add_bands df = Return banded → col ∈ columns banded →
  col ∈ columns df ∨ col = "age_group" ∨ col = "tenure_group".
Proof.
  unfold add_bands. intros H.
  apply bind_Return_inv in H as (age & _ & H).
  apply bind_Return_inv in H as (age_group & _ & H).
  apply bind_Return_inv in H as (tenure & _ & H).
  apply bind_Return_inv in H as (tenure_group & _ & [= <-]).
  simpl. repeat case_decide; rewrite ?elem_of_app, ?list_elem_of_singleton;
    naive_solver.
Qed.

(** A run of the churn report that completes had every column it breaks
    down. *)
Lemma run_columns df report col :
  ChurnRate.run df = Return report → col ∈ sections.*1 →
  col ∈ columns df ∨ col = "age_group" ∨ col = "tenure_group".
Proof.
  unfold ChurnRate.run. intros H Hcol.
  apply bind_Return_inv in H as (overall & _ & H).
  apply bind_Return_inv in H as (banded & Hbands & H).
  apply bind_Return_inv in H as (ts & Hts & _).
  apply mapM_Return_inv in Hts.
  apply list_elem_of_fmap in Hcol as (s & -> & Hs).
  apply list_elem_of_lookup in Hs as [i Hi].
  destruct (Forall2_lookup_l _ _ _ _ _ Hts Hi) as (t & _ & Ht).
  apply churn_table_column in Ht. by eapply add_bands_columns.
Qed.

(** C9 as stated fails: the churn report completes on the sample table and
    ends in a [KeyError] once the product_type column is absent. *)
Lemma absent_column_fails_report :
  ("product_type" ∉ columns without_product_type) ∧
  ChurnRate.run without_product_type = Raise (KeyError "product_type") ∧
  length <$> (tables <$> ChurnRate.run sample_policies) = Return 17.
Proof. split; [by_computation|]. split; by vm_compute. Qed.

(** C9, amended.  In the validator every section that reads an absent
    column is skipped without a line and without an error, no check ends in
    a [KeyError], and [main] always completes.  The churn breakdowns are
    not guarded: a breakdown by an absent column raises [KeyError], and a
    run of the churn report ends in an exception when a column it breaks
    down is absent. *)
Theorem absent_columns (parse_date : string → option Z) (df : DataFrame)
    (col : string) :
  col ∉ columns df →
  (categorical_section df col = mret () ∧
   outlier_row df col = mret false ∧
   (∀ fn label, range_issue df (col, fn, label) = Return []) ∧
   (col = "churn_reason" ∨ col = "churned" →
    churn_reason_section df = mret ()) ∧
   (col = "policy_id" → policy_id_duplicates df = mret ()) ∧
   (col = "customer_id" → customer_id_duplicates df = mret ()) ∧
   (col = "churned" ∨ col = "policy_end_date" →
    (∀ j, justify_end_date parse_date df j = Return j) ∧
    churn_issues parse_date df = Return []) ∧
   (col = "policy_start_date" ∨ col = "policy_end_date" →
    date_issues parse_date df = Return []) ∧
   (col = "discount_applied" ∨ col = "discount_rate" →
    (∀ j, justify_discount df j = Return j) ∧
    discount_issues df = Return []) ∧
   (col = "acquisition_channel" ∨ col = "agent_id" →
    (∀ j, justify_agent df j = Return j) ∧ agent_issues df = Return [])) ∧
  (∀ c, c ∈ battery parse_date → ∀ k, outcome (c df) ≠ Raise (KeyError k)) ∧
  outcome (main parse_date (Some df)) = Return () ∧
  (∀ overall title, churn_table overall df col title = Raise (KeyError col)) ∧
  (col ∈ sections.*1 → col ≠ "age_group" → col ≠ "tenure_group" →
   ∃ e, ChurnRate.run df = Raise e).
Proof.
  intros Hcol. split; [|split; [|split; [|split]]].
  - unfold categorical_section, outlier_row, range_issue, churn_reason_section,
      policy_id_duplicates, customer_id_duplicates, justify_end_date,
      churn_issues, date_issues, justify_discount, discount_issues,
      justify_agent, agent_issues.
    repeat split; intros;
      repeat case_decide; try done; naive_solver.
  - intros c Hc. exact (safe_battery parse_date df c Hc).
  - apply outcome_main.
  - intros. by apply churn_table_KeyError.
  - intros Hsec Hage Htenure.
    destruct (ChurnRate.run df) as [e|report] eqn:Hrun; [by eauto|].
    destruct (run_columns df report col Hrun Hsec) as [?|[?|?]]; done.
Qed.

Lemma absent_columns_witness :
  categorical_section without_product_type "product_type" = mret () ∧
  (∀ c, c ∈ battery never_a_date →
     ∀ k, outcome (c without_product_type) ≠ Raise (KeyError k)) ∧
  outcome (main never_a_date (Some without_product_type)) = Return () ∧
  churn_table (Fin 0%Qc) without_product_type "product_type" "Product Type"
    = Raise (KeyError "product_type") ∧
  ∃ e, ChurnRate.run without_product_type = Raise e.
Proof.
  destruct (absent_columns never_a_date without_product_type "product_type")
    as ((Hskip & _) & Hsafe & Hmain & Htable & Hrun).
  - by_computation.
  - split; [exact Hskip|]. split; [exact Hsafe|]. split; [exact Hmain|].
    split; [apply Htable|]. apply Hrun; by_computation.
Defined.

(** * Justified missingness *)

Section Justifications.
Variable parse_date : string → option Z.
Variable df : DataFrame.

Lemma justify_end_date_spec j j' :
  justify_end_date parse_date df j = Return j' →
  (end_date_test parse_date df ∧
   j' = <["churn_reason" := "✓ churned=False"]>
        (<["policy_end_date" := "✓ churned=False"]> j)) ∨
  (¬ end_date_test parse_date df ∧ j' = j).
Proof.
  unfold justify_end_date, end_date_test.
  destruct (decide _) as [[Hc He]|Hno]; [|intros [= <-]; right; tauto].
  rewrite !getitem_Return by done. simpl.
  destruct (to_datetime _ _) as [e|dates] eqn:Hd; simpl; [done|].
  destruct (_ =? _) eqn:Hn; intros [= <-].
  - left. apply Nat.eqb_eq in Hn. eauto 10.
  - right. split; [|done]. intros (_ & _ & dates' & [= <-] & Heq).
    apply Nat.eqb_neq in Hn. done.
Qed.

Lemma justify_discount_spec j j' :
  justify_discount df j = Return j' →
  (discount_test df ∧
   j' = <["discount_rate" := "✓ discount_applied=False"]> j) ∨
  (¬ discount_test df ∧ j' = j).
Proof.
  unfold justify_discount, discount_test.
  destruct (decide _) as [[Ha Hr]|Hno]; [|intros [= <-]; right; tauto].
  rewrite !getitem_Return by done. simpl.
  destruct (_ =? _) eqn:Hn; intros [= <-].
  - left. apply Nat.eqb_eq in Hn. eauto.
  - right. split; [|done]. intros (_ & _ & Heq).
    apply Nat.eqb_neq in Hn. done.
Qed.

Lemma justify_agent_spec j j' :
  justify_agent df j = Return j' →
  (agent_test df ∧
   j' = <["agent_id" := "✓ acquisition_channel != Agent"]> j) ∨
  (¬ agent_test df ∧ j' = j).
Proof.
  unfold justify_agent, agent_test.
  destruct (decide _) as [[Hc Ha]|Hno]; [|intros [= <-]; right; tauto].
  rewrite !getitem_Return by done. simpl.
  destruct (str_lower _) as [e|lowered] eqn:Hl; simpl; [done|].
  destruct (_ =? _) eqn:Hn; intros [= <-].
  - left. apply Nat.eqb_eq in Hn. eauto 10.
  - right. split; [|done]. intros (_ & _ & lowered' & [= <-] & Heq).
    apply Nat.eqb_neq in Hn. done.
Qed.

(** Which columns the dictionary [justifications] holds. *)
Lemma justifications_spec j :
  justifications parse_date df = Return j →
  (is_Some (j !! "policy_end_date") ↔ end_date_test parse_date df) ∧
  (is_Some (j !! "churn_reason") ↔ end_date_test parse_date df) ∧
  (is_Some (j !! "discount_rate") ↔ discount_test df) ∧
  (is_Some (j !! "agent_id") ↔ agent_test df) ∧
  (∀ c, j !! c ≠ Some "-").
Proof.
  unfold justifications. intros H.
  apply bind_Return_inv in H as (j1 & H1 & H).
  apply bind_Return_inv in H as (j2 & H2 & H3).
  apply justify_end_date_spec in H1 as [[T1 ->]|[T1 ->]];
  apply justify_discount_spec in H2 as [[T2 ->]|[T2 ->]];
  apply justify_agent_spec in H3 as [[T3 ->]|[T3 ->]];
  (split_and!; [..|intros c;
     repeat (rewrite lookup_insert; case_decide; [done|]);
     by rewrite lookup_empty]);
  rewrite ?lookup_insert_eq, ?lookup_insert_ne, ?lookup_empty by done;
  rewrite ?lookup_insert_eq, ?lookup_insert_ne, ?lookup_empty by done;
  rewrite ?lookup_insert_eq, ?lookup_insert_ne, ?lookup_empty by done;
  rewrite ?is_Some_alt; naive_solver.
Qed.
End Justifications.

Lemma output_bind {A B} (m : Print A) (f : A → Print B) a :
  outcome m = Return a → output (m ≫= f) = (output m ++ output (f a))%list.
Proof.
  destruct m as [out res]. simpl. intros ->. simpl. by destruct (f a).
Qed.

Section MissingValues.
Variable parse_date : string → option Z.
Variable df : DataFrame.

Lemma elem_of_missing_df c m :
  (c, m) ∈ missing_df df ↔
  c ∈ columns df ∧ m = count_na (column df c) ∧ 0 < m.
Proof.
  unfold missing_df. rewrite sort_by_Permutation.
  rewrite list_elem_of_filter, list_elem_of_fmap. simpl. naive_solver.
Qed.

Lemma output_missing_values j :
  justifications parse_date df = Return j →
  missing_df df ≠ [] →
  output (print_missing_values parse_date df)
  = (missing_head df ++ (missing_row df j <$> missing_df df))%list.
Proof.
  intros Hj Hne. unfold print_missing_values. cbv zeta.
  rewrite bool_decide_eq_false_2 by done. rewrite Hj.
  change (lift (Return j)) with (mret j : Print (gmap string string)).
  rewrite (output_bind (banner _) _ ()) by done. cbv beta.
  rewrite Print_ret_bind.
  do 3 (rewrite (output_bind (print _ _) _ ()) by done; cbv beta).
  rewrite for_each_return by done.
  unfold missing_head. rewrite <-!app_assoc. do 2 f_equal.
Qed.

Lemma output_missing_values_Raise e line :
  justifications parse_date df = Raise e →
  line ∈ output (print_missing_values parse_date df) → args line = [].
Proof.
  intros Hj. unfold print_missing_values.
  destruct (bool_decide _); rewrite ?Hj; simpl; intros Hline;
    repeat (apply elem_of_cons in Hline as [->|Hline]; [done|]);
    by apply elem_of_nil in Hline.
Qed.

Lemma output_no_missing_values line :
  missing_df df = [] →
  line ∈ output (print_missing_values parse_date df) → args line = [].
Proof.
  intros Hnil. unfold print_missing_values.
  rewrite bool_decide_eq_true_2 by done. simpl. intros Hline.
  repeat (apply elem_of_cons in Hline as [->|Hline]; [done|]).
  by apply elem_of_nil in Hline.
Qed.

Lemma row_of_head col line :
  line ∈ missing_head df → row_of col line = None.
Proof.
  unfold missing_head. simpl. intros Hline.
  repeat (apply elem_of_cons in Hline as [->|Hline]; [done|]).
  by apply elem_of_nil in Hline.
Qed.

(** A flag is a row of the column whose entry in the dictionary exists. *)
Lemma flagged_iff j col :
  justifications parse_date df = Return j →
  flagged parse_date df col ↔
  col ∈ columns df ∧ 0 < count_na (column df col) ∧ is_Some (j !! col).
Proof.
  intros Hj. destruct (justifications_spec parse_date df j Hj)
    as (_ & _ & _ & _ & Hdash).
  unfold flagged. split.
  - intros (line & justif & Hline & Hrow & Hjustif).
    destruct (decide (missing_df df = [])) as [Hnil|Hne].
    { apply output_no_missing_values in Hline; [|done].
      unfold row_of in Hrow. by rewrite Hline in Hrow. }
    rewrite (output_missing_values j) in Hline by done.
    apply elem_of_app in Hline as [Hline|Hline].
    { by rewrite row_of_head in Hrow. }
    apply list_elem_of_fmap in Hline as ([c m] & -> & Hcm).
    unfold row_of, missing_row in Hrow. simpl in Hrow.
    destruct (decide (c = col)) as [->|]; [|done].
    injection Hrow as <-.
    apply elem_of_missing_df in Hcm as (Hc & -> & Hm).
    split; [done|]. split; [done|].
    destruct (j !! col); [by eauto|done].
  - intros (Hc & Hm & [label Hlabel]).
    assert (Hin : (col, count_na (column df col)) ∈ missing_df df)
      by by apply elem_of_missing_df.
    exists (missing_row df j (col, count_na (column df col))), label.
    split; [|split].
    + rewrite (output_missing_values j); [|done|].
      * apply elem_of_app. right. apply list_elem_of_fmap. eauto.
      * intros Hnil. rewrite Hnil in Hin. by apply elem_of_nil in Hin.
    + unfold row_of, missing_row. simpl.
      by rewrite decide_True, Hlabel by done.
    + intros ->. by apply (Hdash col).
Qed.

(** Without a dictionary there is no flag. *)
Lemma flagged_Return col :
  flagged parse_date df col →
  ∃ j, justifications parse_date df = Return j.
Proof.
  intros (line & justif & Hline & Hrow & _).
  destruct (justifications parse_date df) as [e|j] eqn:Hj; [|by eauto].
  apply (output_missing_values_Raise e) in Hline; [|done].
  unfold row_of in Hrow. by rewrite Hline in Hrow.
Qed.
End MissingValues.

Lemma count_if_pointwise {A} (f g : A → bool) (l : list A) :
  (∀ x, x ∈ l → f x = g x) → count_if f l = count_if g l.
Proof.
  intros Hfg. unfold count_if. f_equal. apply filter_ext_in.
  intros x Hx. by rewrite Hfg.
Qed.

Lemma count_if_fmap {A B} (f : B → bool) (g : A → B) (l : list A) :
  count_if f (g <$> l) = count_if (f ∘ g) l.
Proof.
  unfold count_if. induction l as [|x t IH]; [done|].
  rewrite fmap_cons, !filter_cons. simpl.
  destruct (decide (f (g x) = true)); simpl; by rewrite IH.
Qed.

(** Replacing a cell that passes a test by one that fails it lowers the
    count by one. *)
Lemma count_if_insert {A} (f : A → bool) (l : list A) i x v :
  l !! i = Some x → f x = true → f v = false →
  S (count_if f (<[i := v]> l)) = count_if f l.
Proof.
  unfold count_if. revert i. induction l as [|y t IH]; intros i Hi Hx Hv.
  - by rewrite lookup_nil in Hi.
  - destruct i as [|i]; simpl in *.
    + injection Hi as ->. rewrite !filter_cons.
      rewrite decide_False by congruence. by rewrite decide_True.
    + rewrite !filter_cons.
      destruct (decide (f y = true)); simpl; by rewrite <-(IH i).
  Qed.

Lemma discount_scenario_test df : discount_scenario df → discount_test df.
Proof.
  intros (Ha & Hr & Hrows). split; [done|]. split; [done|].
  unfold count_na, column. rewrite !count_if_fmap.
  by apply count_if_pointwise.
Qed.

(** C6 as stated fails: churn_reason has one missing cell, two rows have
    churned = False, and the report marks churn_reason as justified. *)
Lemma churn_reason_flag_counterexample :
  count_na (column unexplained_reason "churn_reason") = 1 ∧
  count_if (eq_pybool false) (column unexplained_reason "churned") = 2 ∧
  missing_row unexplained_reason
    (<["churn_reason" := "✓ churned=False"]> ∅) ("churn_reason", 1)
    ∈ output (print_missing_values never_a_date unexplained_reason).
Proof. split; [by vm_compute|]. split; [by vm_compute|]. by_computation. Qed.

(** C6, amended.  When the inference of lines 88-103 raises nothing, the
    report marks a column as justified exactly when the column has a
    missing cell and its test succeeds: for discount_rate and agent_id the
    count of their missing cells equals the count of rows failing the
    paired predicate; for policy_end_date the count of cells that are
    missing after date coercion equals the count of churned = False rows;
    churn_reason is marked by the test of policy_end_date.  Hence a table
    in which discount_rate is missing on exactly the rows without a
    discount, and there is one, has discount_rate marked, and filling one
    of these cells removes the mark. *)
Theorem justified_missingness (parse_date : string → option Z)
    (df : DataFrame) (j : gmap string string) :
  justifications parse_date df = Return j →
  (flagged parse_date df "policy_end_date" ↔
   0 < count_na (column df "policy_end_date") ∧ end_date_test parse_date df) ∧
  (flagged parse_date df "churn_reason" ↔
   "churn_reason" ∈ columns df ∧ 0 < count_na (column df "churn_reason") ∧
   end_date_test parse_date df) ∧
  (flagged parse_date df "discount_rate" ↔
   0 < count_na (column df "discount_rate") ∧ discount_test df) ∧
  (flagged parse_date df "agent_id" ↔
   0 < count_na (column df "agent_id") ∧ agent_test df) ∧
  (discount_scenario df →
   (∃ r, r ∈ rows df ∧ eq_pybool false (cell r "discount_applied") = true) →
   flagged parse_date df "discount_rate") ∧
  (discount_scenario df →
   ∀ df' i v,
     columns df' = columns df →
     column df' "discount_applied" = column df "discount_applied" →
     column df "discount_rate" !! i = Some NA → v ≠ NA →
     column df' "discount_rate" = <[i := v]> (column df "discount_rate") →
     ¬ flagged parse_date df' "discount_rate").
Proof.
  intros Hj.
  destruct (justifications_spec parse_date df j Hj)
    as (Hend & Hreason & Hdiscount & Hagent & _).
  pose proof (flagged_iff parse_date df j) as Hflag.
  split_and!.
  - rewrite Hflag, Hend by done. unfold end_date_test. naive_solver.
  - rewrite Hflag, Hreason by done. naive_solver.
  - rewrite Hflag, Hdiscount by done. unfold discount_test. naive_solver.
  - rewrite Hflag, Hagent by done. unfold agent_test. naive_solver.
  - intros Hscenario (r & Hr & Hfalse).
    rewrite Hflag, Hdiscount by done.
    destruct Hscenario as (Ha & Hrate & Hrows).
    split; [done|]. split; [|by apply discount_scenario_test].
    unfold count_na, count_if.
    assert (Hin : cell r "discount_rate"
                  ∈ filter (λ x, isna x = true) (column df "discount_rate")).
    { apply list_elem_of_filter. split; [by rewrite Hrows|].
      unfold column. apply list_elem_of_fmap. eauto. }
    destruct (filter _ _); [by apply elem_of_nil in Hin|simpl; lia].
  - intros Hscenario df' i v Hcols Happlied Hi Hv Hrate Hflagged.
    destruct (flagged_Return parse_date df' _ Hflagged) as [j' Hj'].
    pose proof (proj1 (flagged_iff parse_date df' j' "discount_rate" Hj')
                  Hflagged) as (_ & _ & Hsome).
    destruct (justifications_spec parse_date df' j' Hj')
      as (_ & _ & Hdiscount' & _ & _).
    apply Hdiscount' in Hsome as (_ & _ & Hcount).
    apply discount_scenario_test in Hscenario as (_ & _ & Hcount0).
    rewrite Happlied, <-Hcount0, Hrate in Hcount. unfold count_na in *.
    assert (Hfilled : isna v = false) by (destruct v; simpl; congruence).
    pose proof (count_if_insert isna _ i NA v Hi eq_refl Hfilled). lia.
Qed.

Lemma justified_missingness_witness :
  flagged never_a_date (discounts NA) "discount_rate" ∧
  ¬ flagged never_a_date (discounts (VFloat (Q2Qc (1 # 20)))) "discount_rate".
Proof.
  destruct (justifications never_a_date (discounts NA)) as [e|j] eqn:Hj.
  { exfalso.
    assert (H : match justifications never_a_date (discounts NA) with
                | Return _ => true
                | Raise _ => false
                end = true) by (by vm_compute).
    rewrite Hj in H. discriminate H. }
  destruct (justified_missingness never_a_date (discounts NA) j Hj)
    as (_ & _ & _ & _ & Hmarked & Hfilled).
  assert (Hscenario : discount_scenario (discounts NA)).
  { split; [by_computation|]. split; [by_computation|].
    apply Forall_forall. by_computation. }
  split.
  - apply Hmarked; [done|]. apply Exists_exists. by_computation.
  - apply (Hfilled Hscenario _ 2 (VFloat (Q2Qc (1 # 20)))); by vm_compute.
Defined.

(** * Further properties of the resolver *)

Section Reordering.
Context `{EqDecision A}.
Implicit Types (s : list A) (v : A).

Lemma value_count_Permutation v s s' :
  s ≡ₚ s' → value_count v s = value_count v s'.
Proof. intros H. unfold value_count. by rewrite H. Qed.

Lemma unique_Permutation s s' : s ≡ₚ s' → unique s ≡ₚ unique s'.
Proof.
  intros H. apply NoDup_Permutation; [apply NoDup_unique..|].
  intros v. rewrite !elem_of_unique. by rewrite H.
Qed.

Lemma mode_Permutation s s' : s ≡ₚ s' → mode s ≡ₚ mode s'.
Proof.
  intros H. apply NoDup_Permutation; [apply NoDup_mode..|].
  intros v. rewrite !elem_of_mode.
  assert (∀ u, u ∈ s ↔ u ∈ s') as Hin by (intros u; by rewrite H).
  assert (∀ u, value_count u s = value_count u s') as Hc
    by (intros u; by apply value_count_Permutation).
  split; intros [Hv Hmax]; (split; [by apply Hin|]); intros u Hu.
  - rewrite <-!Hc. by apply Hmax, Hin.
  - rewrite !Hc. by apply Hmax, Hin.
Qed.

End Reordering.

Lemma iloc0_Permutation (l l' : Series) :
  l ≡ₚ l' → length l = 1 → iloc0 l = iloc0 l'.
Proof.
  intros H Hlen. destruct l as [|v [|]]; try done.
  by apply Permutation_singleton_l in H as ->.
Qed.

(** X1.  The resolver does not depend on the order of the rows of a
    customer: two series with the same cells in any order resolve to the
    same value and the same flag. *)
Theorem resolve_Permutation (series series' : Series) :
  series ≡ₚ series' → resolve series = resolve series'.
Proof.
  intros H. unfold resolve.
  assert (dropna series ≡ₚ dropna series') as Hd
    by (unfold dropna; by rewrite H).
  pose proof (unique_Permutation _ _ Hd) as Hu.
  pose proof (mode_Permutation _ _ Hd) as Hm.
  rewrite <-(Permutation_length Hd), <-(Permutation_length Hu),
    <-(Permutation_length Hm).
  destruct (length (dropna series) =? 0); [done|].
  destruct (length (unique (dropna series)) =? 1) eqn:E1.
  { apply Nat.eqb_eq in E1. by rewrite (iloc0_Permutation _ _ Hu E1). }
  destruct (length (mode (dropna series)) =? 1) eqn:E2; [|done].
  apply Nat.eqb_eq in E2. by rewrite (iloc0_Permutation _ _ Hm E2).
Qed.

Lemma resolve_Permutation_witness :
  resolve [VStr "M"; NA; VStr "F"; VStr "F"]
  = resolve [VStr "F"; VStr "F"; VStr "M"; NA].
Proof.
  apply resolve_Permutation.
  change ([VStr "M"; NA] ++ [VStr "F"; VStr "F"] ≡ₚ [VStr "F"; VStr "F"] ++ [VStr "M"; NA]).
  apply Permutation_app_comm.
Defined.

Lemma iloc0_singleton (l : Series) :
  length l = 1 → iloc0 l ∈ l.
Proof. destruct l as [|v [|]]; try done. intros _. simpl. set_solver. Qed.

(** X2.  The resolved value is never missing; it is a cell of the
    series or one of the two markers "Unknown" and "Conflict".  The flag
    is 0 or 1, and it is 1 exactly when the series holds two different
    values that are not missing. *)
Theorem resolve_value (series : Series) :
  (resolve series).1 ≠ NA ∧
  ((resolve series).1 ∈ series ∨ (resolve series).1 = VStr "Unknown" ∨
   (resolve series).1 = VStr "Conflict") ∧
  ((resolve series).2 = 0%Z ∨ (resolve series).2 = 1%Z) ∧
  ((resolve series).2 = 1%Z ↔
   ∃ v w, v ∈ series ∧ w ∈ series ∧ v ≠ NA ∧ w ≠ NA ∧ v ≠ w).
Proof.
  unfold resolve.
  destruct (length (dropna series) =? 0) eqn:E0.
  { apply Nat.eqb_eq, nil_length_inv in E0. simpl.
    split_and!; [done|by right; left|by left|].
    split; [done|]. intros (v & _ & Hv & _ & Hna & _).
    assert (v ∈ dropna series) as Hin by by apply elem_of_dropna.
    rewrite E0 in Hin. by apply elem_of_nil in Hin. }
  destruct (length (unique (dropna series)) =? 1) eqn:E1.
  { apply Nat.eqb_eq in E1. simpl.
    pose proof (iloc0_singleton _ E1) as Hin.
    apply elem_of_unique, elem_of_dropna in Hin as [Hin Hna].
    split_and!; [done|by left|by left|].
    split; [done|]. intros (v & w & Hv & Hw & Hvna & Hwna & Hne).
    assert (v ∈ unique (dropna series)) as Hv'
      by by apply elem_of_unique, elem_of_dropna.
    assert (w ∈ unique (dropna series)) as Hw'
      by by apply elem_of_unique, elem_of_dropna.
    destruct (unique (dropna series)) as [|u [|]]; try done.
    apply list_elem_of_singleton in Hv', Hw'. congruence. }
  assert (∃ v w, v ∈ series ∧ w ∈ series ∧ v ≠ NA ∧ w ≠ NA ∧ v ≠ w) as Htwo.
  { pose proof (NoDup_unique (dropna series)) as Hnd.
    assert (∀ u, u ∈ unique (dropna series) → u ∈ series ∧ u ≠ NA) as Hu
      by (intros u; by rewrite elem_of_unique, elem_of_dropna).
    apply Nat.eqb_neq in E0, E1.
    destruct (dropna series) as [|x t] eqn:Ed; [done|].
    simpl in *.
    destruct (filter (λ y, y ≠ x) (unique t)) as [|y t'] eqn:Ef; [done|].
    exists x, y.
    destruct (Hu x) as [? ?]; [set_solver|].
    destruct (Hu y) as [? ?]; [set_solver|].
    split_and!; try done.
    apply NoDup_cons in Hnd as [Hnd _]. set_solver. }
  destruct (length (mode (dropna series)) =? 1) eqn:E2; simpl.
  - apply Nat.eqb_eq in E2.
    pose proof (iloc0_singleton _ E2) as Hin.
    apply elem_of_mode in Hin as [Hin _].
    apply elem_of_dropna in Hin as [Hin Hna].
    split_and!; [done|by left|by right|done].
  - split_and!; [done|by right; right|by right|done].
Qed.

(** * The standardized table as a whole *)

Lemma returns_Return {A} (r : Result A) :
  (match r with Return _ => true | Raise _ => false end) = true →
  ∃ a, r = Return a.
Proof. destruct r; [done|]. by eexists. Qed.

(** A table without any customer: the customer-level table has no column
    and the merge has no key to join on. *)
Lemma standardize_no_customer_aux df :
  customers df = [] → standardize df = Raise (KeyError "customer_id").
Proof.
  intros Hnil. unfold standardize, build_customer_table, groupby, getitem.
  destruct (decide ("customer_id" ∈ columns df)) as [Hid|Hid]; [|done].
  simpl. fold (customers df). rewrite Hnil. simpl.
  unfold merge_left. rewrite decide_False; [done|].
  intros [_ Hin]. simpl in Hin. by apply elem_of_nil in Hin.
Qed.

Lemma customer_record_columns k group rec :
  customer_record k group = Return rec →
  "customer_gender" ∈ columns group ∧ "country" ∈ columns group.
Proof.
  unfold customer_record, getitem.
  destruct (decide ("customer_gender" ∈ columns group)); [|done]. simpl.
  destruct (resolve _).
  by destruct (decide ("country" ∈ columns group)).
Qed.

Lemma standardize_Return_inv df out :
  standardize df = Return out →
  "customer_id" ∈ columns df ∧ "customer_gender" ∈ columns df ∧
  "country" ∈ columns df ∧ customers df ≠ [].
Proof.
  intros Hout.
  assert (customers df ≠ []) as Hne.
  { intros Hnil. by rewrite standardize_no_customer_aux in Hout. }
  unfold standardize in Hout.
  apply bind_Return_inv in Hout as (tbl & Htbl & _).
  unfold build_customer_table in Htbl.
  apply bind_Return_inv in Htbl as (groups & Hg & Hrec).
  apply bind_Return_inv in Hrec as (records & Hrec & _).
  unfold groupby, getitem in Hg.
  destruct (decide ("customer_id" ∈ columns df)) as [Hid|Hid]; [|done].
  simpl in Hg. injection Hg as <-. fold (customers df) in Hrec.
  apply mapM_Return_inv in Hrec.
  destruct (customers df) as [|k t]; [done|].
  rewrite fmap_cons in Hrec. apply Forall2_cons_inv_l in Hrec
    as (rec & ? & Hk & _ & _).
  apply customer_record_columns in Hk as [? ?]. done.
Qed.

Section Rows.
Variable df : DataFrame.
Hypothesis Hfresh : fresh_columns df.

Lemma fresh_derived c : c ∈ "customer_gender_std" :: derived → c ∉ columns df.
Proof. apply Hfresh. Qed.

Lemma lookup_join_derived l p c :
  c ∈ derived →
  join_rows df (customer_table df) "customer_id" l p !! c
  = Some (from_option (λ rec, cell rec c) NA p).
Proof.
  intros Hc. rewrite (join_rows_customer df fresh_derived), list_to_map_app,
    lookup_union_r.
  - unfold derived in *. simpl.
    repeat (apply elem_of_cons in Hc as [->|Hc]; [by simplify_map_eq|]).
    by apply elem_of_nil in Hc.
  - rewrite lookup_left_part, decide_False; [done|].
    apply Hfresh. by right.
Qed.

(** The cells of any row of the merged and renamed table. *)
Lemma renamed_row l p :
  let r := join_rows df (customer_table df) "customer_id" l p in
  let r' := match r !! "gender_std" with
            | Some v => <["customer_gender_std" := v]> (delete "gender_std" r)
            | None => r
            end in
  cell r' "customer_gender_std" = from_option (λ rec, cell rec "gender_std") NA p ∧
  cell r' "gender_conflict" = from_option (λ rec, cell rec "gender_conflict") NA p ∧
  cell r' "country_std" = from_option (λ rec, cell rec "country_std") NA p ∧
  cell r' "country_conflict" = from_option (λ rec, cell rec "country_conflict") NA p ∧
  ∀ c, c ∈ columns df → cell r' c = cell l c.
Proof.
  intros r r'. subst r'.
  assert (Hr : ∀ c, c ∈ derived →
            r !! c = Some (from_option (λ rec, cell rec c) NA p))
    by (intros; by apply lookup_join_derived).
  rewrite (Hr "gender_std") by by left.
  set (v := from_option (λ rec, cell rec "gender_std") NA p).
  assert (Hother : ∀ c, c ≠ "customer_gender_std" → c ≠ "gender_std" →
            cell (<["customer_gender_std" := v]> (delete "gender_std" r)) c
            = cell r c).
  { intros c ??. unfold cell. by rewrite lookup_insert_ne, lookup_delete_ne. }
  assert (Hcell : ∀ c, c ∈ derived →
            cell r c = from_option (λ rec, cell rec c) NA p).
  { intros c Hc. unfold cell at 1. by rewrite Hr. }
  split; [unfold cell at 1; by rewrite lookup_insert_eq|].
  do 3 (split; [rewrite Hother by done; apply Hcell; unfold derived;
                set_solver|]).
  intros c Hc.
  assert (c ≠ "customer_gender_std") by (intros ->; by eapply Hfresh; [left|]).
  assert (c ≠ "gender_std") by (intros ->; by eapply Hfresh; [right; left|]).
  rewrite Hother by done. unfold cell at 1.
  subst r. by rewrite (lookup_join_left df fresh_derived).
Qed.

Lemma renamed_columns :
  (λ c, if decide (c = "gender_std") then "customer_gender_std" else c)
    <$> (columns df ++ derived)%list
  = (columns df ++ ["customer_gender_std"; "gender_conflict"; "country_std";
                    "country_conflict"])%list.
Proof.
  rewrite fmap_app. f_equal.
  rewrite <-(list_fmap_id (columns df)) at 2.
  apply list_fmap_ext. intros _ c Hc%list_elem_of_lookup_2.
  rewrite decide_False; [done|]. intros ->.
  by eapply Hfresh; [right; left|].
Qed.

End Rows.

(** X3.  On a table that does not yet hold the derived columns, a
    standardization that returns appends the four derived columns after
    the columns of the input, keeps the number and the order of the
    policy rows, and leaves every cell of the input columns as it was. *)
Theorem standardize_keeps_policies (df out : DataFrame) :
  fresh_columns df → standardize df = Return out →
  columns out = (columns df ++ ["customer_gender_std"; "gender_conflict";
                                "country_std"; "country_conflict"])%list ∧
  length (rows out) = length (rows df) ∧
  ∀ i r, rows df !! i = Some r →
    ∃ r', rows out !! i = Some r' ∧ ∀ c, c ∈ columns df → cell r' c = cell r c.
Proof.
  intros Hfresh Hout.
  destruct (standardize_Return_inv _ _ Hout) as (Hid & Hgender & Hcountry & Hne).
  rewrite (standardize_eq df Hid Hgender Hcountry Hfresh Hne) in Hout.
  injection Hout as <-. unfold rename. simpl.
  split; [by apply renamed_columns|].
  split; [by rewrite !length_fmap|].
  intros i r Hi. rewrite !list_lookup_fmap, Hi. simpl.
  eexists. split; [done|].
  apply (renamed_row df Hfresh r (partner df r)).
Qed.

Lemma standardize_keeps_policies_witness :
  ∃ out, standardize scenario = Return out ∧
    columns out = ["policy_id"; "customer_id"; "customer_gender"; "country";
                   "customer_gender_std"; "gender_conflict"; "country_std";
                   "country_conflict"] ∧
    length (rows out) = 4.
Proof.
  assert (fresh_columns scenario) as Hfresh.
  { intros c Hc.
    repeat (apply elem_of_cons in Hc as [->|Hc]; [by_computation|]).
    by apply elem_of_nil in Hc. }
  destruct (returns_Return (standardize scenario)) as [out E];
    [by vm_compute|].
  exists out. split; [exact E|].
  destruct (standardize_keeps_policies scenario out Hfresh E) as (Hc & Hl & _).
  split; [exact Hc|exact Hl].
Defined.

(** X4.  A table in which no row names a customer cannot be
    standardized: the customer-level table is built from no record, has
    no column, and the merge raises [KeyError] on its key. *)
Theorem standardize_no_customer (df : DataFrame) :
  (∀ r, r ∈ rows df → cell r "customer_id" = NA) →
  standardize df = Raise (KeyError "customer_id").
Proof.
  intros Hna. apply standardize_no_customer_aux.
  unfold customers.
  destruct (unique _) as [|k t] eqn:E; [done|].
  assert (k ∈ unique (dropna (column df "customer_id"))) as Hk
    by (rewrite E; by left).
  apply elem_of_unique, elem_of_dropna in Hk as [Hk Hne].
  unfold column in Hk. apply list_elem_of_fmap in Hk as (r & -> & Hr).
  by rewrite Hna in Hne.
Qed.

(** X5.  A policy row without customer_id belongs to no group of the
    customer-level table: in the standardized table its four derived cells
    are missing, whatever its own gender and country. *)
Theorem standardize_null_customer (df out : DataFrame) i r :
  fresh_columns df → standardize df = Return out →
  rows df !! i = Some r → cell r "customer_id" = NA →
  ∃ r', rows out !! i = Some r' ∧
    cell r' "customer_gender_std" = NA ∧ cell r' "gender_conflict" = NA ∧
    cell r' "country_std" = NA ∧ cell r' "country_conflict" = NA.
Proof.
  intros Hfresh Hout Hi Hna.
  destruct (standardize_Return_inv _ _ Hout) as (Hid & Hgender & Hcountry & Hne).
  rewrite (standardize_eq df Hid Hgender Hcountry Hfresh Hne) in Hout.
  injection Hout as <-. unfold rename. simpl.
  rewrite !list_lookup_fmap, Hi. simpl.
  eexists. split; [done|].
  assert (partner df r = None) as Hp.
  { unfold partner. rewrite decide_False; [done|].
    unfold customers. rewrite elem_of_unique, elem_of_dropna, Hna. tauto. }
  destruct (renamed_row df Hfresh r (partner df r)) as (Hg & Hgc & Hc & Hcc & _).
  rewrite Hp in *. by rewrite Hg, Hgc, Hc, Hcc.
Qed.

Lemma standardize_no_customer_witness :
  standardize anonymous_policies = Raise (KeyError "customer_id").
Proof.
  apply standardize_no_customer.
  intros r Hr. revert r Hr. apply Forall_forall. by_computation.
Defined.

Lemma standardize_null_customer_witness :
  ∃ out r', standardize stray_policy = Return out ∧
    rows out !! 1 = Some r' ∧
    cell r' "customer_gender_std" = NA ∧ cell r' "gender_conflict" = NA ∧
    cell r' "country_std" = NA ∧ cell r' "country_conflict" = NA.
Proof.
  assert (fresh_columns stray_policy) as Hfresh.
  { intros c Hc.
    repeat (apply elem_of_cons in Hc as [->|Hc]; [by_computation|]).
    by apply elem_of_nil in Hc. }
  destruct (returns_Return (standardize stray_policy)) as [out Hout];
    [by vm_compute|].
  destruct (standardize_null_customer stray_policy out 1
              (default ∅ (rows stray_policy !! 1)) Hfresh Hout)
    as (r' & Hr' & Hcells); [reflexivity|by vm_compute|].
  exists out, r'. split; [exact Hout|]. split; [exact Hr'|exact Hcells].
Defined.

(** * Preparation of the raw table *)

Lemma blank_blank c : blank (blank c) = blank c.
Proof. unfold blank. by repeat case_decide. Qed.

Lemma blank_ne c : blank c ≠ VStr "".
Proof. unfold blank. by case_decide. Qed.

Lemma cell_blank (r : gmap string Cell) c :
  cell (blank <$> r) c = blank (cell r c).
Proof. unfold cell. rewrite lookup_fmap. by destruct (r !! c). Qed.

Lemma prepare_rows df :
  rows (prepare df) = prepare_row (columns df) <$> rows df.
Proof.
  unfold prepare, prepare_row. simpl. apply list_fmap_ext. intros _ r _.
  by rewrite cell_blank.
Qed.

Lemma cell_prepare_row cols r c :
  cell (prepare_row cols r) c
  = if decide (c = "income_band" ∧ "income_band" ∈ cols ∧
               blank (cell r "income_band") = NA)
    then VStr "Unknown" else blank (cell r c).
Proof.
  unfold prepare_row.
  destruct (decide ("income_band" ∈ cols)) as [Hin|Hin].
  - destruct (blank (cell r "income_band")) eqn:E; simpl;
      try (rewrite decide_False by (intros (_ & _ & ?); done);
           by rewrite cell_blank).
    destruct (decide (c = "income_band")) as [->|Hne].
    + rewrite decide_True by done. unfold cell. by rewrite lookup_insert_eq.
    + rewrite decide_False by (intros (? & _); done).
      unfold cell at 1. rewrite lookup_insert_ne by done.
      apply cell_blank.
  - rewrite decide_False by (intros (_ & ? & _); done). apply cell_blank.
Qed.

Lemma blank_fmap_prepare_row cols r :
  blank <$> prepare_row cols r = prepare_row cols r.
Proof.
  assert (∀ m : gmap string Cell, blank <$> (blank <$> m) = blank <$> m) as H.
  { intros m. rewrite <-map_fmap_compose. apply map_fmap_ext.
    intros ?? _. apply blank_blank. }
  unfold prepare_row. repeat case_match; rewrite ?fmap_insert, ?H; done.
Qed.

Lemma prepare_row_idemp cols r :
  prepare_row cols (prepare_row cols r) = prepare_row cols r.
Proof.
  unfold prepare_row at 1.
  rewrite blank_fmap_prepare_row, cell_prepare_row.
  destruct (decide ("income_band" ∈ cols)) as [Hin|Hin]; [|done].
  destruct (decide (_ ∧ _)) as [?|Hno]; [done|].
  rewrite blank_blank.
  destruct (blank (cell r "income_band")) eqn:E; try done.
  destruct Hno. done.
Qed.

(** X6.  After the preparation of lines 26-29 no cell is an empty
    string and, when the table has an income_band column, no income band
    is missing: an income band that was missing or empty now reads
    "Unknown", every other empty string became a missing cell, and all
    other cells are unchanged.  Preparing a prepared table changes
    nothing. *)
Theorem prepare_clean (df : DataFrame) :
  (∀ r c, r ∈ rows (prepare df) → cell r c ≠ VStr "") ∧
  ("income_band" ∈ columns df →
   ∀ r, r ∈ rows (prepare df) → cell r "income_band" ≠ NA) ∧
  (∀ i r, rows df !! i = Some r →
     ∃ r', rows (prepare df) !! i = Some r' ∧
       ∀ c, cell r' c =
            if decide (c = "income_band" ∧ "income_band" ∈ columns df ∧
                       (cell r c = NA ∨ cell r c = VStr ""))
            then VStr "Unknown"
            else if decide (cell r c = VStr "") then NA else cell r c) ∧
  prepare (prepare df) = prepare df.
Proof.
  split_and!.
  - intros r' c. rewrite prepare_rows.
    intros (r & -> & _)%list_elem_of_fmap. rewrite cell_prepare_row.
    case_decide; [done|]. apply blank_ne.
  - intros Hin r'. rewrite prepare_rows.
    intros (r & -> & _)%list_elem_of_fmap. rewrite cell_prepare_row.
    case_decide as Hc; [done|]. intros Hna. destruct Hc. done.
  - intros i r Hi. rewrite prepare_rows, list_lookup_fmap, Hi. simpl.
    eexists. split; [done|]. intros c. rewrite cell_prepare_row.
    unfold blank.
    destruct (decide (c = "income_band")) as [->|Hne].
    + destruct (decide ("income_band" ∈ columns df)).
      * destruct (decide (cell r "income_band" = VStr "")) as [E|E].
        { rewrite !decide_True; [done|by auto|done]. }
        destruct (decide (cell r "income_band" = NA)) as [E'|E'].
        { rewrite !decide_True; [done|by auto|done]. }
        rewrite !decide_False; [done|tauto|tauto].
      * rewrite !(decide_False (P := _ ∧ _)); [done|tauto|tauto].
    + rewrite !(decide_False (P := _ ∧ _)); [done|tauto|tauto].
  - destruct df as [cols rws].
    assert (rows (prepare (prepare {| columns := cols; rows := rws |}))
            = rows (prepare {| columns := cols; rows := rws |})) as Hrows.
    { rewrite (prepare_rows (prepare _)), prepare_rows. simpl.
      rewrite <-list_fmap_compose. apply list_fmap_ext. intros _ r _.
      apply prepare_row_idemp. }
    unfold prepare in *. simpl in *. by f_equal.
Qed.

(** * Order of sorted output *)

Section Sorting.
Context {A : Type} (before : A → A → bool).

(** [x] may stand in front of [y]. *)
Let R (x y : A) : Prop := before y x = false.

Hypothesis before_asym : ∀ x y, before x y = true → before y x = false.
Hypothesis before_trans : ∀ x y z, R x y → R y z → R x z.

Lemma insert_by_sorted x l :
  StronglySorted R l → StronglySorted R (insert_by before x l).
Proof.
  induction 1 as [|y t Ht IH Hy]; simpl.
  - repeat constructor.
  - destruct (before y x) eqn:E.
    + constructor; [done|].
      rewrite insert_by_Permutation. constructor; [|done].
      by apply before_asym.
    + constructor; [by constructor|].
      constructor; [done|].
      eapply Forall_impl; [exact Hy|]. intros z Hz. by eapply before_trans.
Qed.

Lemma sort_by_sorted l : StronglySorted R (sort_by before l).
Proof.
  induction l as [|x t IH]; simpl; [constructor|].
  by apply insert_by_sorted.
Qed.

Lemma sort_by_lookup l i j a b :
  i < j → sort_by before l !! i = Some a → sort_by before l !! j = Some b →
  before b a = false.
Proof.
  pose proof (sort_by_sorted l) as Hs. revert i j.
  induction Hs as [|y t Ht IH Hy]; intros i j Hij Hi Hj; [done|].
  destruct j as [|j]; [lia|]. simpl in Hj.
  destruct i as [|i]; simpl in Hi.
  - injection Hi as ->. rewrite Forall_forall in Hy.
    apply Hy. by eapply list_elem_of_lookup_2.
  - apply (IH i j); [lia|done..].
Qed.

End Sorting.

Lemma flt_irrefl_neg x y : flt x y = true → flt y x = false.
Proof.
  destruct x, y; simpl; try done.
  rewrite bool_decide_eq_true, bool_decide_eq_false.
  intros H. by apply Qcle_not_lt, Qclt_le_weak.
Qed.

Lemma flt_neg_trans x y z :
  x ≠ NaN → y ≠ NaN → z ≠ NaN →
  flt x y = false → flt y z = false → flt x z = false.
Proof.
  destruct x, y, z; simpl; try done; intros _ _ _.
  rewrite !bool_decide_eq_false.
  intros H1 H2. apply Qcle_not_lt.
  eapply Qcle_trans; by apply Qcnot_lt_le.
Qed.

Lemma before_asym (x y : GrpRow) : before x y = true → before y x = false.
Proof.
  unfold before. destruct (Rate x) eqn:Ex, (Rate y) eqn:Ey; try done;
    apply flt_irrefl_neg.
Qed.

Lemma before_neg_trans (x y z : GrpRow) :
  before y x = false → before z y = false → before z x = false.
Proof.
  unfold before.
  destruct (Rate x) eqn:Ex, (Rate y) eqn:Ey, (Rate z) eqn:Ez; try done;
    intros H1 H2; eapply flt_neg_trans; try exact H1; try exact H2; done.
Qed.

(** X7.  The lines of a breakdown come in order of decreasing churn
    rate: no line has a strictly higher rate than a line above it, and
    lines whose rate is not a number come last. *)
Theorem churn_table_sorted overall df col title t i j a b :
  churn_table overall df col title = Return t →
  i < j → lines t !! i = Some a → lines t !! j = Some b →
  flt (rate_percent a) (rate_percent b) = false ∧
  (rate_percent a = NaN → rate_percent b = NaN).
Proof.
  unfold churn_table.
  destruct (groupby df col) as [e|groups]; simpl; [done|].
  destruct (agg df col groups) as [e|aggregated]; simpl; [done|].
  intros [= <-] Hij. simpl. rewrite !list_lookup_fmap.
  destruct (sort_values aggregated !! i) as [a'|] eqn:Ea; [|done].
  destruct (sort_values aggregated !! j) as [b'|] eqn:Eb; [|done].
  simpl. intros [= <-] [= <-]. simpl.
  pose proof (sort_by_lookup before before_asym before_neg_trans
                aggregated i j a' b' Hij Ea Eb) as H.
  unfold before in H.
  destruct (Rate a'), (Rate b'); try done.
Qed.

(** * The groups of a breakdown *)

Lemma agg_group_val g row : agg_group g = Return row → val row = g.1.
Proof.
  unfold agg_group.
  destruct (getitem g.2 "policy_id"); simpl; [done|].
  destruct (getitem g.2 "churned"); simpl; [done|].
  destruct (sum _); simpl; [done|]. by intros [= <-].
Qed.

Lemma agg_vals df col groups aggregated :
  agg df col groups = Return aggregated → val <$> aggregated = groups.*1.
Proof.
  unfold agg. repeat case_decide; try done.
  intros Hall%mapM_Return_inv.
  induction Hall as [|g row groups aggregated Hg _ IH]; [done|].
  simpl. f_equal; [by apply agg_group_val|done].
Qed.

Lemma groupby_fst df col groups :
  groupby df col = Return groups →
  groups.*1 = unique (dropna (column df col)).
Proof.
  unfold groupby, getitem. case_decide; [|done]. simpl. intros [= <-].
  rewrite <-list_fmap_compose. apply list_fmap_id.
Qed.

Lemma churn_table_keys overall df col title t :
  churn_table overall df col title = Return t →
  Value <$> lines t ≡ₚ unique (dropna (column df col)).
Proof.
  unfold churn_table.
  destruct (groupby df col) as [e|groups] eqn:Eg; simpl; [done|].
  destruct (agg df col groups) as [e|aggregated] eqn:Ea; simpl; [done|].
  intros [= <-]. simpl. rewrite <-list_fmap_compose.
  rewrite <-(groupby_fst _ _ _ Eg), <-(agg_vals _ _ _ _ Ea).
  unfold sort_values. by rewrite sort_by_Permutation.
Qed.

(** X8.  No two lines of a breakdown carry the same value and none
    carries a missing value; every value of the group column that is not
    missing has its line; and a line that counts at least one policy
    carries a value that occurs in the column. *)
Theorem churn_table_values overall df col title t :
  churn_table overall df col title = Return t →
  NoDup (Value <$> lines t) ∧
  (∀ line, line ∈ lines t → Value line ≠ NA) ∧
  (∀ v, v ≠ NA → v ∈ column df col → v ∈ Value <$> lines t) ∧
  (∀ line, line ∈ lines t → total_count line ≠ 0 →
     Value line ∈ column df col).
Proof.
  intros Ht%churn_table_keys.
  assert (∀ v, v ∈ Value <$> lines t ↔ v ≠ NA ∧ v ∈ column df col) as Hin.
  { intros v. rewrite Ht, elem_of_unique, elem_of_dropna. tauto. }
  split_and!.
  - rewrite Ht. apply NoDup_unique.
  - intros line Hline. apply (Hin (Value line)).
    apply list_elem_of_fmap. by exists line.
  - intros v Hv Hcol. by apply Hin.
  - intros line Hline _. apply (Hin (Value line)).
    apply list_elem_of_fmap. by exists line.
Qed.

Lemma churn_table_values_witness :
  ∃ t, churn_table (Fin 0%Qc) sample_policies "payment_frequency"
                   "Payment Frequency" = Return t ∧
    NoDup (Value <$> lines t) ∧
    (∀ line, line ∈ lines t → Value line ≠ NA) ∧
    (∀ v, v ≠ NA → v ∈ column sample_policies "payment_frequency" →
          v ∈ Value <$> lines t) ∧
    (∀ line, line ∈ lines t → total_count line ≠ 0 →
       Value line ∈ column sample_policies "payment_frequency").
Proof.
  destruct (returns_Return (churn_table (Fin 0%Qc) sample_policies
              "payment_frequency" "Payment Frequency")) as [t Ht];
    [by vm_compute|].
  exists t. split; [exact Ht|].
  exact (churn_table_values _ _ _ _ _ Ht).
Defined.

Lemma churn_table_sorted_witness :
  ∃ t a b, churn_table (Fin 0%Qc) sample_policies "product_type"
                       "Product Type" = Return t ∧
    lines t !! 0 = Some a ∧ lines t !! 1 = Some b ∧
    flt (rate_percent a) (rate_percent b) = false.
Proof.
  destruct (returns_Return (churn_table (Fin 0%Qc) sample_policies
              "product_type" "Product Type")) as [t Ht];
    [by vm_compute|].
  pose proof Ht as Ht'. vm_compute in Ht'. injection Ht' as <-.
  eexists _, _, _. split; [exact Ht|].
  split; [reflexivity|]. split; [reflexivity|].
  eapply (churn_table_sorted _ _ _ _ _ 0 1 _ _ Ht); [lia|reflexivity..].
Defined.

(** * Rates as percentages *)

Lemma churn_flags_bounds (g : list (gmap string Cell)) :
  Forall (λ r, is_bool (cell r "churned") = true) g →
  (0 ≤ qsum (churn_flag <$> g))%Qc ∧
  (qsum (churn_flag <$> g) ≤ of_nat (length g))%Qc.
Proof.
  induction 1 as [|r g Hr _ [IH0 IH1]]; [done|].
  simpl. rewrite of_nat_S. unfold churn_flag at 1 3.
  destruct (cell r "churned") as [|[]| | |]; try done; simpl; split.
  - replace 0%Qc with (0 + 0)%Qc by apply Qcplus_0_l.
    by apply Qcplus_le_compat.
  - apply Qcplus_le_compat; [apply Qcle_refl|done].
  - by rewrite Qcplus_0_l.
  - rewrite Qcplus_0_l. eapply Qcle_trans; [exact IH1|].
    rewrite <-(Qcplus_0_l (of_nat (length g))) at 1.
    by apply Qcplus_le_compat.
Qed.

Lemma percentage (c n : Qc) :
  (0 ≤ c)%Qc → (c ≤ n)%Qc → (0 < n)%Qc →
  (0 ≤ c / n * Qc_of_Z 100)%Qc ∧ (c / n * Qc_of_Z 100 ≤ Qc_of_Z 100)%Qc.
Proof.
  intros H0 H1 Hn.
  assert (n ≠ 0%Qc) as Hne by (apply not_eq_sym, Qclt_not_eq; done).
  assert ((c / n) * n = c)%Qc as Hdiv
    by (rewrite Qcmult_comm; by apply Qcmult_div_r).
  assert (0 ≤ c / n)%Qc as Hlo.
  { apply (Qcmult_lt_0_le_reg_r _ _ n Hn). by rewrite Qcmult_0_l, Hdiv. }
  assert (c / n ≤ 1)%Qc as Hhi.
  { apply (Qcmult_lt_0_le_reg_r _ _ n Hn). by rewrite Qcmult_1_l, Hdiv. }
  split.
  - rewrite <-(Qcmult_0_l (Qc_of_Z 100)). by apply Qcmult_le_compat_r.
  - rewrite <-(Qcmult_1_l (Qc_of_Z 100)) at 2. by apply Qcmult_le_compat_r.
Qed.

Lemma filter_all {A} (P : A → Prop) `{∀ x, Decision (P x)} (l : list A) :
  (∀ x, x ∈ l → P x) → filter P l = l.
Proof.
  induction l as [|x l IH]; intros Hall; [done|].
  rewrite filter_cons_True by (apply Hall; by left).
  f_equal. apply IH. intros y Hy. apply Hall. by right.
Qed.

Lemma unique_NoDup {A} `{EqDecision A} (l : list A) : NoDup l → unique l = l.
Proof.
  induction 1 as [|x l Hx _ IH]; [done|]. simpl. rewrite IH. f_equal.
  apply filter_all. intros y Hy ->. done.
Qed.

Lemma dropna_complete (s : Series) : NA ∉ s → dropna s = s.
Proof.
  intros Hna. unfold dropna. apply filter_all.
  intros c Hc. destruct c; try done.
Qed.

Lemma churn_table_ready overall df col title t :
  churn_table overall df col title = Return t →
  Forall (λ r, is_bool (cell r "churned") = true) (rows df) →
  churn_ready df col.
Proof.
  intros Ht Hbool.
  pose proof (churn_table_column _ _ _ _ _ Ht) as Hcol.
  unfold churn_table in Ht.
  destruct (groupby df col) as [e|groups]; simpl in Ht; [done|].
  unfold agg in Ht. repeat case_decide; try done.
  split; try tauto; try (apply dec_stable; tauto).
  eapply Forall_impl; [exact Hbool|].
  intros r. simpl. by destruct (cell r "churned").
Qed.

(** X9.  When the policy identifiers of the table are all present and
    all different, and the churn column is boolean, every line of a
    breakdown counts the rows of its group, its churned count lies
    between 0 and that total, and, when the line counts at least one
    policy, its rate is a number between 0 and 100. *)
Theorem rate_is_percentage overall df col title t line :
  NoDup (column df "policy_id") → NA ∉ column df "policy_id" →
  Forall (λ r, is_bool (cell r "churned") = true) (rows df) →
  churn_table overall df col title = Return t → line ∈ lines t →
  total_count line = length (group_rows df col (Value line)) ∧
  (0 ≤ churned_count line)%Qc ∧
  (churned_count line ≤ of_nat (total_count line))%Qc ∧
  (total_count line ≠ 0 →
   ∃ q, rate_percent line = Fin q ∧ (0 ≤ q)%Qc ∧ (q ≤ Qc_of_Z 100)%Qc).
Proof.
  intros Hnd Hna Hbool Ht Hline.
  pose proof (churn_table_ready _ _ _ _ _ Ht Hbool) as Hready.
  rewrite (lines_Permutation df col Hready overall title t Ht) in Hline.
  apply list_elem_of_fmap in Hline as (row & -> & Hrow).
  apply list_elem_of_fmap in Hrow as (k & -> & Hk).
  simpl.
  set (g := group_rows df col k).
  assert (length (policy_ids g) = length g) as Htotal.
  { unfold policy_ids.
    assert ((λ r, cell r "policy_id") <$> g
            `sublist_of` column df "policy_id") as Hsub
      by (apply fmap_sublist, sublist_filter).
    rewrite dropna_complete, unique_NoDup, length_fmap; [done|..].
    - by eapply sublist_NoDup.
    - intros Hin. apply Hna. by eapply elem_of_sublist. }
  assert (Forall (λ r, is_bool (cell r "churned") = true) g) as Hg.
  { apply Forall_forall. intros r [_ Hr]%list_elem_of_filter.
    revert r Hr. by apply Forall_forall. }
  destruct (churn_flags_bounds g Hg) as [H0 H1].
  rewrite Htotal. split_and!; try done.
  intros Hpos.
  assert (0 < of_nat (length g))%Qc as Hn by (apply of_nat_pos; lia).
  unfold fdiv. rewrite decide_False by (apply not_eq_sym, Qclt_not_eq; done).
  simpl. eexists. split; [done|].
  by apply percentage.
Qed.

Lemma rate_is_percentage_witness :
  ∃ t, churn_table (Fin 0%Qc) sample_policies "product_type" "Product Type"
       = Return t ∧
    ∀ line, line ∈ lines t →
      (churned_count line ≤ of_nat (total_count line))%Qc ∧
      (total_count line ≠ 0 →
       ∃ q, rate_percent line = Fin q ∧ (0 ≤ q)%Qc ∧ (q ≤ Qc_of_Z 100)%Qc).
Proof.
  assert (NoDup (column sample_policies "policy_id")) as Hnd
    by by_computation.
  assert (NA ∉ column sample_policies "policy_id") as Hna
    by by_computation.
  assert (Forall (λ r, is_bool (cell r "churned") = true)
            (rows sample_policies)) as Hbool by by_computation.
  destruct (returns_Return (churn_table (Fin 0%Qc) sample_policies
              "product_type" "Product Type")) as [t Ht];
    [by vm_compute|].
  exists t. split; [exact Ht|]. intros line Hline.
  exact (proj2 (proj2
           (rate_is_percentage _ _ _ _ _ _ Hnd Hna Hbool Ht Hline))).
Defined.

(** * Bands *)

Lemma Qc_of_Z_le a b : (a ≤ b)%Z → (Qc_of_Z a ≤ Qc_of_Z b)%Qc.
Proof.
  intros H. unfold Qcle, Qc_of_Z. cbn [this]. by rewrite <-Zle_Qle.
Qed.

Lemma Qc_of_Z_lt a b : (a < b)%Z → (Qc_of_Z a < Qc_of_Z b)%Qc.
Proof.
  intros H. unfold Qclt, Qc_of_Z. cbn [this]. by rewrite <-Zlt_Qlt.
Qed.

Section Cut.
Variables (right : bool) (x : Qc).

Lemma cut_label_cons lo hi bins lab labels :
  cut_label right x (lo :: hi :: bins) (lab :: labels)
  = if decide (in_bin right x lo hi) then VStr lab
    else cut_label right x (hi :: bins) labels.
Proof.
  simpl. unfold in_bin.
  destruct right; repeat case_bool_decide; simpl;
    destruct (decide _); try done; tauto.
Qed.

Lemma in_bin_empty lo : ¬ in_bin right x lo lo.
Proof.
  unfold in_bin. destruct right; intros [H1 H2].
  - by eapply Qclt_not_le.
  - by eapply Qclt_not_le.
Qed.

(** Bins that follow each other make one bin. *)
Lemma in_bin_join lo mid hi :
  (lo < mid)%Z → (mid ≤ hi)%Z →
  in_bin right x lo hi ↔ in_bin right x lo mid ∨ in_bin right x mid hi.
Proof.
  intros H1%Qc_of_Z_lt H2%Qc_of_Z_le. unfold in_bin.
  destruct right; split.
  - intros [Hlo Hhi].
    destruct (Qclt_le_dec (Qc_of_Z mid) x); [right|left]; done.
  - intros [[Hlo Hhi]|[Hlo Hhi]]; split; try done.
    + by eapply Qcle_trans.
    + by eapply Qclt_trans.
  - intros [Hlo Hhi].
    destruct (Qclt_le_dec x (Qc_of_Z mid)); [left|right]; done.
  - intros [[Hlo Hhi]|[Hlo Hhi]]; split; try done.
    + by eapply Qclt_le_trans.
    + eapply Qcle_trans; [|done]. by apply Qclt_le_weak.
Qed.

Lemma in_bin_disjoint lo mid hi hi' :
  (mid ≤ hi)%Z → in_bin right x lo mid → in_bin right x hi hi' → False.
Proof.
  intros H%Qc_of_Z_le. unfold in_bin. destruct right; intros [_ H1] [H2 _].
  - eapply Qclt_not_le; [exact H2|]. by eapply Qcle_trans.
  - eapply Qclt_not_le; [exact H1|]. by eapply Qcle_trans.
Qed.

Lemma sorted_head_last (b hi : Z) bins :
  StronglySorted Z.lt (b :: bins) → last (b :: bins) = Some hi → (b ≤ hi)%Z.
Proof.
  intros Hs Hlast. apply StronglySorted_inv in Hs as [_ Hall].
  destruct bins as [|b' bins]; [by injection Hlast as ->|].
  assert (hi ∈ b' :: bins) as Hin.
  { rewrite last_cons_cons in Hlast. apply last_Some in Hlast as [l ->].
    apply elem_of_app. right. by left. }
  rewrite Forall_forall in Hall. specialize (Hall hi Hin). lia.
Qed.

Lemma sorted_head_lookup (b z : Z) bins i :
  StronglySorted Z.lt (b :: bins) → (b :: bins) !! i = Some z → (b ≤ z)%Z.
Proof.
  intros Hs Hi. apply StronglySorted_inv in Hs as [_ Hall].
  destruct i as [|i]; [by injection Hi as ->|]. simpl in Hi.
  rewrite Forall_forall in Hall.
  specialize (Hall z (list_elem_of_lookup_2 _ _ _ Hi)). lia.
Qed.

(** No label: the number lies outside the range of the bins. *)
Lemma cut_label_NA bins labels lo hi :
  StronglySorted Z.lt bins → length bins = S (length labels) →
  head bins = Some lo → last bins = Some hi →
  cut_label right x bins labels = NA ↔ ¬ in_bin right x lo hi.
Proof.
  revert labels lo. induction bins as [|b0 bins IH]; intros labels lo Hs Hlen;
    [done|].
  intros [= ->] Hlast.
  destruct bins as [|b1 bins].
  { injection Hlast as <-. destruct labels; [|done]. simpl.
    split; [intros _; apply in_bin_empty|done]. }
  destruct labels as [|lab labels]; [done|].
  rewrite cut_label_cons.
  pose proof Hs as Hs'. apply StronglySorted_inv in Hs' as [Hs' Hall].
  rewrite last_cons_cons in Hlast.
  pose proof (sorted_head_last _ _ _ Hs' Hlast) as Hhi.
  assert (lo < b1)%Z as Hlo
    by (apply Forall_inv in Hall; done).
  rewrite (in_bin_join lo b1 hi) by done.
  destruct (decide (in_bin right x lo b1)) as [Hin|Hout].
  - split; [done|]. intros []. by left.
  - rewrite (IH labels b1); [tauto|done|simpl in *; lia|done|done].
Qed.

(** The label of the bin that holds the number. *)
Lemma cut_label_hit bins labels i lo hi lab :
  StronglySorted Z.lt bins →
  bins !! i = Some lo → bins !! S i = Some hi → labels !! i = Some lab →
  in_bin right x lo hi → cut_label right x bins labels = VStr lab.
Proof.
  revert bins labels. induction i as [|i IH]; intros bins labels Hs.
  - destruct bins as [|b0 [|b1 bins]]; try done.
    destruct labels as [|l0 labels]; [done|].
    intros [= ->] [= ->] [= ->] Hin.
    by rewrite cut_label_cons, decide_True.
  - destruct bins as [|b0 [|b1 bins]]; try done.
    destruct labels as [|l0 labels]; [done|].
    intros Hlo Hhi Hlab Hin. rewrite cut_label_cons.
    change ((b1 :: bins) !! i = Some lo) in Hlo.
    change ((b1 :: bins) !! S i = Some hi) in Hhi.
    change (labels !! i = Some lab) in Hlab.
    apply StronglySorted_inv in Hs as [Hs _].
    rewrite decide_False.
    + by apply (IH (b1 :: bins) labels).
    + intros Hin0. eapply (in_bin_disjoint b0 b1 lo hi); [|done..].
      by eapply (sorted_head_lookup _ _ _ i).
Qed.

End Cut.

Lemma cut_band s bins labels right banded :
  cut s bins labels right = Return banded →
  banded = band right bins labels <$> s.
Proof.
  unfold cut. intros H%mapM_Return_inv.
  induction H as [|c b s banded Hc _ IH]; [done|].
  simpl. f_equal; [|done].
  unfold band. destruct c; simpl in *; by simplify_eq.
Qed.

Lemma setitem_lookup df col values i r v :
  rows df !! i = Some r → values !! i = Some v →
  rows (setitem df col values) !! i = Some (<[col := v]> r).
Proof.
  intros Hr Hv. simpl. by rewrite lookup_zip_with, Hr, Hv.
Qed.

Lemma cell_insert (r : gmap string Cell) col v c :
  cell (<[col := v]> r) c = if decide (c = col) then v else cell r c.
Proof.
  unfold cell. destruct (decide (c = col)) as [->|Hne].
  - by rewrite lookup_insert_eq.
  - by rewrite lookup_insert_ne.
Qed.

(** The rows of the table with its two band columns. *)
Lemma add_bands_rows df banded i r :
  add_bands df = Return banded → rows df !! i = Some r →
  ∃ r', rows banded !! i = Some r' ∧
    cell r' "age_group" = band true age_bins age_labels (cell r "customer_age") ∧
    cell r' "tenure_group"
      = band false tenure_bins tenure_labels (cell r "tenure_months") ∧
    ∀ c, c ≠ "age_group" → c ≠ "tenure_group" → cell r' c = cell r c.
Proof.
  intros Hb Hi. unfold add_bands in Hb.
  apply bind_Return_inv in Hb as (age & Hage & Hb).
  apply bind_Return_inv in Hb as (age_group & Hag & Hb).
  apply bind_Return_inv in Hb as (tenure & Hten & Hb).
  apply bind_Return_inv in Hb as (tenure_group & Htg & Hb).
  injection Hb as <-.
  apply cut_band in Hag, Htg. fold age_bins age_labels in Hag.
  fold tenure_bins tenure_labels in Htg.
  unfold getitem in Hage, Hten.
  destruct (decide ("customer_age" ∈ columns df)); [|done].
  destruct (decide (_ ∈ columns (setitem _ _ _))); [|done].
  injection Hage as <-. injection Hten as <-.
  set (r1 := <["age_group" := band true age_bins age_labels
                                (cell r "customer_age")]> r).
  assert (rows (setitem df "age_group" age_group) !! i = Some r1) as H1.
  { apply setitem_lookup; [done|]. subst age_group. unfold column.
    by rewrite !list_lookup_fmap, Hi. }
  eexists. split.
  { apply setitem_lookup; [exact H1|]. subst tenure_group. unfold column.
    rewrite !list_lookup_fmap, H1. reflexivity. }
  subst r1. rewrite !cell_insert. simpl.
  split; [done|]. split; [done|].
  intros c ??. rewrite !cell_insert. by rewrite !decide_False.
Qed.

(** X10.  The age band of a policy (lines 45-49): an age above 17 and
    up to 120 gets the label of the band that holds it, each band
    including its upper limit; an age of 17 or less, an age above 120 and
    a missing age get no band. *)
Theorem age_group_bands df banded i r :
  add_bands df = Return banded → rows df !! i = Some r →
  ∃ r', rows banded !! i = Some r' ∧
    (cell r "customer_age" = NA → cell r' "age_group" = NA) ∧
    ∀ age, num_opt (cell r "customer_age") = Some age →
      (cell r' "age_group" = NA ↔
       (age ≤ Qc_of_Z 17)%Qc ∨ (Qc_of_Z 120 < age)%Qc) ∧
      ∀ k lo hi label,
        age_bins !! k = Some lo → age_bins !! S k = Some hi →
        age_labels !! k = Some label →
        (Qc_of_Z lo < age)%Qc → (age ≤ Qc_of_Z hi)%Qc →
        cell r' "age_group" = VStr label.
Proof.
  intros Hb Hi.
  destruct (add_bands_rows _ _ _ _ Hb Hi) as (r' & Hr' & Hage & _ & _).
  exists r'. split; [done|]. rewrite Hage. unfold band.
  split; [by intros ->|].
  intros age ->. simpl.
  assert (StronglySorted Z.lt age_bins) as Hs
    by (repeat constructor; lia).
  split.
  - rewrite (cut_label_NA true age age_bins age_labels 17 120 Hs)
      by done.
    unfold in_bin. split.
    + intros Hno. destruct (Qclt_le_dec (Qc_of_Z 17) age) as [Hlo|Hlo];
        [|by left].
      right. apply Qcnot_le_lt. tauto.
    + intros [Hlo|Hhi] [H1 H2];
        [exact (Qclt_not_le _ _ H1 Hlo)|exact (Qclt_not_le _ _ Hhi H2)].
  - intros k lo hi label Hlo Hhi Hlab H1 H2.
    by apply (cut_label_hit true age age_bins age_labels k lo hi).
Qed.

(** X11.  The tenure band of a policy (lines 51-57): a tenure from 0
    up to, but not including, 9999 months gets the label of the band that
    holds it, each band including its lower limit; a negative tenure, a
    tenure of 9999 months or more and a missing tenure get no band. *)
Theorem tenure_group_bands df banded i r :
  add_bands df = Return banded → rows df !! i = Some r →
  ∃ r', rows banded !! i = Some r' ∧
    (cell r "tenure_months" = NA → cell r' "tenure_group" = NA) ∧
    ∀ months, num_opt (cell r "tenure_months") = Some months →
      (cell r' "tenure_group" = NA ↔
       (months < Qc_of_Z 0)%Qc ∨ (Qc_of_Z 9999 ≤ months)%Qc) ∧
      ∀ k lo hi label,
        tenure_bins !! k = Some lo → tenure_bins !! S k = Some hi →
        tenure_labels !! k = Some label →
        (Qc_of_Z lo ≤ months)%Qc → (months < Qc_of_Z hi)%Qc →
        cell r' "tenure_group" = VStr label.
Proof.
  intros Hb Hi.
  destruct (add_bands_rows _ _ _ _ Hb Hi) as (r' & Hr' & _ & Hten & _).
  exists r'. split; [done|]. rewrite Hten. unfold band.
  split; [by intros ->|].
  intros months ->. simpl.
  assert (StronglySorted Z.lt tenure_bins) as Hs
    by (repeat constructor; lia).
  split.
  - rewrite (cut_label_NA false months tenure_bins tenure_labels 0 9999 Hs)
      by done.
    unfold in_bin. split.
    + intros Hno. destruct (Qclt_le_dec months (Qc_of_Z 0)) as [Hlo|Hlo];
        [by left|].
      right. apply Qcnot_lt_le. tauto.
    + intros [Hlo|Hhi] [H1 H2];
        [exact (Qclt_not_le _ _ Hlo H1)|exact (Qclt_not_le _ _ H2 Hhi)].
  - intros k lo hi label Hlo Hhi Hlab H1 H2.
    by apply (cut_label_hit false months tenure_bins tenure_labels k lo hi).
Qed.

Lemma age_group_bands_witness :
  ∃ banded r', add_bands sample_policies = Return banded ∧
    rows banded !! 0 = Some r' ∧ cell r' "age_group" = VStr "18-30".
Proof.
  destruct (returns_Return (add_bands sample_policies)) as [banded Hb];
    [by vm_compute|].
  assert (rows sample_policies !! 0
          = Some (default ∅ (rows sample_policies !! 0))) as Hi
    by reflexivity.
  destruct (age_group_bands sample_policies banded 0 _ Hb Hi)
    as (r' & Hr' & _ & Hage).
  exists banded, r'. split; [exact Hb|]. split; [exact Hr'|].
  destruct (Hage (Qc_of_Z 25) eq_refl) as [_ Hlabel].
  apply (Hlabel 0 17%Z 30%Z "18-30"); [reflexivity..| |]; by_computation.
Defined.

Lemma tenure_group_bands_witness :
  ∃ banded r', add_bands sample_policies = Return banded ∧
    rows banded !! 2 = Some r' ∧ cell r' "tenure_group" = VStr "10yr+".
Proof.
  destruct (returns_Return (add_bands sample_policies)) as [banded Hb];
    [by vm_compute|].
  assert (rows sample_policies !! 2
          = Some (default ∅ (rows sample_policies !! 2))) as Hi
    by reflexivity.
  destruct (tenure_group_bands sample_policies banded 2 _ Hb Hi)
    as (r' & Hr' & _ & Hten).
  exists banded, r'. split; [exact Hb|]. split; [exact Hr'|].
  destruct (Hten (Qc_of_Z 130) eq_refl) as [_ Hlabel].
  apply (Hlabel 10 120%Z 9999%Z "10yr+"); [reflexivity..| |]; by_computation.
Defined.

(** * Distributions *)

Section ValueCounts.
Context `{EqDecision A}.
Implicit Types (s : list A).

Lemma sum_value_count s :
  sum_list ((λ v, value_count v s) <$> unique s) = length s.
Proof.
  unfold value_count.
  rewrite (sum_list_length_bind (λ v, filter (λ y, y = v) s)).
  rewrite (groups_partition id (unique s) s (NoDup_unique s)).
  f_equal. apply filter_all. intros x Hx. by apply elem_of_unique.
Qed.

Lemma value_counts_Permutation s :
  value_counts s ≡ₚ (λ v, (v, value_count v s)) <$> unique s.
Proof. apply sort_by_Permutation. Qed.

Lemma sum_value_counts s : sum_list (value_counts s).*2 = length s.
Proof.
  rewrite value_counts_Permutation, <-list_fmap_compose.
  apply sum_value_count.
Qed.

(** Most frequent first. *)
Lemma value_counts_sorted s i j a b :
  i < j → (value_counts s).*2 !! i = Some a →
  (value_counts s).*2 !! j = Some b → b ≤ a.
Proof.
  intros Hij. rewrite !list_lookup_fmap.
  destruct (value_counts s !! i) as [x|] eqn:Ei; [|done].
  destruct (value_counts s !! j) as [y|] eqn:Ej; [|done].
  simpl. intros [= <-] [= <-].
  assert ((x.2 <? y.2) = false) as H.
  { eapply (sort_by_lookup (λ x y : A * nat, y.2 <? x.2)); [..|done|done|done].
    - intros u v Huv%Nat.ltb_lt. apply Nat.ltb_ge. lia.
    - intros u v w Huv%Nat.ltb_ge Hvw%Nat.ltb_ge. apply Nat.ltb_ge. lia. }
  apply Nat.ltb_ge in H. done.
Qed.

End ValueCounts.

Lemma lift_Return_bind {A B} (a : A) (f : A → Print B) :
  lift (Return a) ≫= f = f a.
Proof. unfold lift. simpl. by destruct (f a). Qed.

Lemma loc_mask {A} (f : A → bool) (l : list A) :
  (filter (λ rm, rm.2 = true) (zip l (f <$> l))).*1
  = filter (λ r, f r = true) l.
Proof.
  induction l as [|r l IH]; [done|].
  rewrite fmap_cons. change (zip (r :: l) (f r :: (f <$> l)))
    with ((r, f r) :: zip l (f <$> l)).
  rewrite !filter_cons. cbn [snd].
  destruct (decide (f r = true)); [|done].
  rewrite fmap_cons. cbn [fst]. by f_equal.
Qed.

Lemma printed_counts_print {B} text a (m : Print B) :
  printed_count {| text := text; args := a |} = None →
  printed_counts (print text a ≫= λ _, m) = printed_counts m.
Proof.
  intros H. unfold printed_counts, print. destruct m as [out res].
  change (output (Printed [{| text := text; args := a |}] (Return ())
                  ≫= λ _, Printed out res))
    with ({| text := text; args := a |} :: out).
  simpl. by rewrite H.
Qed.

Lemma printed_counts_value_counts s total :
  printed_counts (print_value_counts s total) = (value_counts s).*2.
Proof.
  unfold printed_counts, print_value_counts.
  rewrite for_each_return by done. simpl.
  generalize (value_counts s). intros l.
  induction l as [|vc l IH]; [done|].
  simpl. unfold printed_count at 1. simpl. by f_equal.
Qed.

(** X12.  For a categorical column of the table, the counts that
    section 3 prints, missing values included as their own line, add up to
    the number of rows of the table, and they are printed from the most
    frequent value to the least frequent. *)
Theorem categorical_counts df col :
  col ∈ columns df →
  sum_list (printed_counts (categorical_section df col)) = len df ∧
  ∀ i j a b, i < j →
    printed_counts (categorical_section df col) !! i = Some a →
    printed_counts (categorical_section df col) !! j = Some b → b ≤ a.
Proof.
  intros Hcol.
  assert (printed_counts (categorical_section df col)
          = (value_counts (column df col)).*2) as ->.
  { unfold categorical_section. rewrite decide_False by tauto.
    rewrite getitem_Return by done.
    rewrite !printed_counts_print, lift_Return_bind by done.
    apply printed_counts_value_counts. }
  split.
  - rewrite sum_value_counts. unfold column, len. by rewrite length_fmap.
  - intros i j a b. apply value_counts_sorted.
Qed.

Lemma categorical_counts_witness :
  sum_list (printed_counts (categorical_section sample_policies "product_type"))
  = 3.
Proof.
  apply (proj1 (categorical_counts sample_policies "product_type"
                  ltac:(by_computation))).
Defined.

(** X13.  The churn reasons of section 3 are counted over the churned
    policies only: the printed counts, a missing reason included, add up
    to the number of rows whose churn flag equals True. *)
Theorem churn_reason_counts df :
  "churn_reason" ∈ columns df → "churned" ∈ columns df →
  sum_list (printed_counts (churn_reason_section df))
  = count_if (eq_pybool true) (column df "churned").
Proof.
  intros Hreason Hchurned.
  unfold churn_reason_section. rewrite decide_True by done.
  rewrite getitem_Return, lift_Return_bind by done.
  set (churned_df := loc df (eq_pybool true <$> column df "churned")).
  rewrite (getitem_Return churned_df) by done.
  assert (len churned_df = count_if (eq_pybool true) (column df "churned"))
    as Hlen.
  { unfold churned_df, loc, len, column. simpl.
    rewrite <-list_fmap_compose, loc_mask, count_if_fmap. done. }
  rewrite <-Hlen.
  rewrite !printed_counts_print, lift_Return_bind by done.
  rewrite printed_counts_value_counts, sum_value_counts.
  unfold column, len. by rewrite length_fmap.
Qed.

Lemma churn_reason_counts_witness :
  sum_list (printed_counts (churn_reason_section churn_reasons)) = 2.
Proof.
  apply (churn_reason_counts churn_reasons); by_computation.
Defined.

(** * Duplicates *)

Section Duplicated.
Context `{EqDecision A}.
Implicit Types (l : list A).

Lemma length_unique l : length (unique l) ≤ length l.
Proof.
  induction l as [|x l IH]; simpl; [done|].
  pose proof (length_filter (λ y, y ≠ x) (unique l)). lia.
Qed.

Lemma length_unique_NoDup l : length (unique l) = length l → NoDup l.
Proof.
  induction l as [|x l IH]; simpl; [constructor|].
  intros Hlen.
  pose proof (length_filter (λ y, y ≠ x) (unique l)) as H1.
  pose proof (length_unique l) as H2.
  constructor; [|apply IH; lia].
  intros Hx. rewrite <-elem_of_unique in Hx.
  pose proof (length_filter_lt (λ y, y ≠ x) (unique l) x Hx) as H3.
  specialize (H3 ltac:(tauto)). lia.
Qed.

Lemma duplicated_count_0 l : duplicated_count l = 0 ↔ NoDup l.
Proof.
  unfold duplicated_count. pose proof (length_unique l). split.
  - intros. apply length_unique_NoDup. lia.
  - intros ->%unique_NoDup. lia.
Qed.

Lemma elem_of_value_counts l v c :
  (v, c) ∈ value_counts l ↔ v ∈ l ∧ c = value_count v l.
Proof.
  unfold value_counts. rewrite sort_by_Permutation, list_elem_of_fmap.
  split.
  - intros (w & [= -> ->] & Hw). by rewrite elem_of_unique in Hw.
  - intros [Hv ->]. exists v. by rewrite elem_of_unique.
Qed.

Lemma value_count_filter (P : A → Prop) `{∀ x, Decision (P x)} l v :
  P v → value_count v (filter P l) = value_count v l.
Proof.
  intros Hv. unfold value_count. rewrite list_filter_filter.
  f_equal. apply filter_ext_in. intros x _. split; [tauto|].
  by intros ->.
Qed.

End Duplicated.

Lemma elem_of_top_repeated (s : Series) pid count :
  (pid, count) ∈ top_repeated s →
  pid ≠ NA ∧ count = value_count pid s ∧ 2 ≤ count.
Proof.
  unfold top_repeated.
  intros (i & H%list_elem_of_lookup_2 & _)%elem_of_take.
  apply elem_of_value_counts in H as [Hin ->].
  apply elem_of_dropna in Hin as [Hin Hna].
  apply list_elem_of_filter in Hin as [Hrep _].
  rewrite value_count_dropna by done.
  rewrite (value_count_filter (λ v, 1 < value_count v s)) by done.
  split; [done|]. split; [done|lia].
Qed.

(** X14.  The policy-identifier part of section 5 prints the number of
    rows that repeat an earlier identifier, which is zero exactly when all
    identifiers differ, a missing identifier counting as a value.  The
    listing that follows has at most ten lines and is empty when nothing
    is repeated; each line names an identifier that is not missing and
    occurs at least twice, with its number of occurrences. *)
Theorem policy_id_listing df :
  "policy_id" ∈ columns df →
  ∃ lines,
    policy_id_duplicates df
    = Printed ({| text := "  Duplicate policy_id:    {id_dupes:,}";
                  args := [ANat (duplicated_count (column df "policy_id"))] |}
               :: lines) (Return ()) ∧
    (duplicated_count (column df "policy_id") = 0
     ↔ NoDup (column df "policy_id")) ∧
    (NoDup (column df "policy_id") → lines = []) ∧
    length lines ≤ 10 ∧
    ∀ line, line ∈ lines →
      ∃ pid count, args line = [ACell pid; ANat count] ∧ pid ≠ NA ∧
        count = value_count pid (column df "policy_id") ∧ 2 ≤ count.
Proof.
  intros Hcol. unfold policy_id_duplicates.
  rewrite decide_True, getitem_Return, lift_Return_bind by done.
  set (ids := column df "policy_id").
  destruct (0 <? duplicated_count ids) eqn:E.
  - rewrite for_each_return by done.
    rewrite (bind_singleton
               (λ pc : Cell * nat,
                  {| text := "    {pid}: {count} occurrences";
                     args := [ACell pc.1; ANat pc.2] |})).
    eexists. split; [reflexivity|].
    split; [apply duplicated_count_0|].
    apply Nat.ltb_lt in E. split.
    { intros Hnd%duplicated_count_0. lia. }
    split.
    { rewrite length_fmap. unfold top_repeated. rewrite length_take. lia. }
    intros line ([pid count] & -> & Hpc)%list_elem_of_fmap.
    exists pid, count. split; [done|].
    by apply elem_of_top_repeated.
  - exists []. split; [reflexivity|].
    split; [apply duplicated_count_0|].
    split; [done|]. split; [simpl; lia|].
    intros line Hline. by apply elem_of_nil in Hline.
Qed.

Lemma policy_id_listing_witness :
  ∃ lines,
    policy_id_duplicates repeated_policy
    = Printed ({| text := "  Duplicate policy_id:    {id_dupes:,}";
                  args := [ANat 1] |} :: lines) (Return ()) ∧
    ∀ line, line ∈ lines →
      ∃ pid count, args line = [ACell pid; ANat count] ∧ pid ≠ NA ∧
        count = value_count pid (column repeated_policy "policy_id") ∧
        2 ≤ count.
Proof.
  destruct (policy_id_listing repeated_policy ltac:(by_computation))
    as (lines & Hout & _ & _ & _ & Hlines).
  exists lines. split; [exact Hout|exact Hlines].
Defined.

(** * Agreement of the missing-value marks with the consistency checks *)

Lemma count_if_0 {A} (f : A → bool) (l : list A) :
  count_if f l = 0 → ∀ x, x ∈ l → f x = false.
Proof.
  unfold count_if. intros Hlen%nil_length_inv x Hx.
  destruct (f x) eqn:E; [|done].
  assert (x ∈ filter (λ x, f x = true) l) as Hin
    by by apply list_elem_of_filter.
  rewrite Hlen in Hin. by apply elem_of_nil in Hin.
Qed.

Lemma count_if_cons {A} (f : A → bool) x (l : list A) :
  count_if f (x :: l) = (if f x then 1 else 0) + count_if f l.
Proof.
  unfold count_if. rewrite filter_cons.
  destruct (f x); [by rewrite decide_True|by rewrite decide_False].
Qed.

(** Two columns whose tests agree row by row have equal counts. *)
Lemma count_if_zip {A B} (p : A → bool) (q : B → bool)
    (l : list A) (k : list B) :
  length l = length k →
  (∀ a b, (a, b) ∈ zip l k → q b = p a) →
  count_if q k = count_if p l.
Proof.
  revert k. induction l as [|a l IH]; intros [|b k]; try done.
  intros [= Hlen] Hall. rewrite !count_if_cons.
  rewrite (Hall a b) by (simpl; by left).
  f_equal. apply IH; [done|]. intros a' b' Hin. apply Hall. simpl. by right.
Qed.

Lemma issue_nil text args n : issue text args n = [] → n = 0.
Proof. unfold issue. destruct n; [done|]. by simpl. Qed.

Lemma elem_of_zip_columns df c1 c2 a b :
  (a, b) ∈ zip (column df c1) (column df c2) →
  ∃ r, r ∈ rows df ∧ a = cell r c1 ∧ b = cell r c2.
Proof.
  unfold column. induction (rows df) as [|r l IH]; simpl.
  - by intros ?%elem_of_nil.
  - intros [[= -> ->]|Hin]%elem_of_cons.
    + exists r. split; [by left|done].
    + destruct (IH Hin) as (r' & ? & ? & ?). exists r'. split; [by right|done].
Qed.

(** X15.  When the discount flag is boolean and section 6 finds no
    inconsistency between discount_applied and discount_rate, the test of
    section 4 succeeds: the missing discount rates are exactly those of the
    rows without discount, and discount_rate gets its justification. *)
Theorem consistent_discounts_are_justified df j :
  "discount_applied" ∈ columns df → "discount_rate" ∈ columns df →
  Forall (λ c, is_bool c = true) (column df "discount_applied") →
  discount_issues df = Return [] →
  justify_discount df j
  = Return (<["discount_rate" := "✓ discount_applied=False"]> j).
Proof.
  intros Happlied Hrate Hbool. unfold discount_issues, justify_discount.
  rewrite !decide_True, !getitem_Return by done. simpl.
  intros [= Hissues]. apply app_eq_nil in Hissues as [H1 H2].
  apply issue_nil in H1, H2.
  pose proof (count_if_0 _ _ H1) as Hn1.
  pose proof (count_if_0 _ _ H2) as Hn2.
  unfold count_na.
  rewrite (count_if_zip (eq_pybool false) isna
             (column df "discount_applied") (column df "discount_rate")).
  - by rewrite Nat.eqb_refl.
  - unfold column. by rewrite !length_fmap.
  - intros a b Hin. specialize (Hn1 _ Hin). specialize (Hn2 _ Hin).
    simpl in Hn1, Hn2.
    assert (is_bool a = true) as Ha.
    { rewrite Forall_forall in Hbool. apply Hbool.
      apply elem_of_zip_columns in Hin as (r & Hr & -> & _).
      unfold column. apply list_elem_of_fmap. eauto. }
    destruct a as [|[]| | |]; try done; destruct b; simpl in *; done.
Qed.

Lemma consistent_discounts_are_justified_witness :
  justify_discount consistent_discounts ∅
  = Return {["discount_rate" := "✓ discount_applied=False"]}.
Proof.
  apply (consistent_discounts_are_justified consistent_discounts ∅);
    [by_computation..|by vm_compute].
Defined.

Lemma elem_of_zip_fmap_l {A B C} (f : A → C) (l : list A) (k : list B) a b :
  (a, b) ∈ zip l k → (f a, b) ∈ zip (f <$> l) k.
Proof.
  revert k. induction l as [|x l IH]; intros [|y k]; simpl;
    try by intros ?%elem_of_nil.
  intros [[= -> ->]|Hin]%elem_of_cons; [by left|].
  right. by apply IH.
Qed.

Lemma str_lower_Return s lowered :
  str_lower s = Return lowered →
  lowered = (λ c, match c with VStr t => VStr (lower_string t) | _ => NA end)
              <$> s.
Proof. unfold str_lower. destruct (_ || _); by intros [= <-]. Qed.

(** X16.  When section 6 finds no inconsistency between
    acquisition_channel and agent_id, the test of section 4 succeeds: the
    missing agents are exactly those of the rows whose channel is not
    "agent" in lower case, and agent_id gets its justification. *)
Theorem consistent_agents_are_justified df j :
  "acquisition_channel" ∈ columns df → "agent_id" ∈ columns df →
  agent_issues df = Return [] →
  justify_agent df j
  = Return (<["agent_id" := "✓ acquisition_channel != Agent"]> j).
Proof.
  intros Hchannel Hagent. unfold agent_issues, justify_agent.
  rewrite !decide_True, !getitem_Return by done. simpl.
  destruct (str_lower (column df "acquisition_channel"))
    as [e|lowered] eqn:Hlow; simpl; [done|].
  intros [= Hissues]. apply app_eq_nil in Hissues as [H1 H2].
  apply issue_nil in H1, H2.
  pose proof (count_if_0 _ _ H1) as Hn1.
  pose proof (count_if_0 _ _ H2) as Hn2.
  apply str_lower_Return in Hlow.
  unfold count_na.
  rewrite (count_if_zip (λ c, bool_decide (c ≠ VStr "agent")) isna
             lowered (column df "agent_id")).
  - by rewrite Nat.eqb_refl.
  - subst lowered. unfold column. by rewrite !length_fmap.
  - intros a b Hin.
    assert ((bool_decide (a = VStr "agent"), b)
            ∈ zip ((λ c, bool_decide (c = VStr "agent")) <$> lowered)
                  (column df "agent_id")) as Hin'.
    { exact (elem_of_zip_fmap_l (λ c : Cell, bool_decide (c = VStr "agent"))
               lowered (column df "agent_id") a b Hin). }
    specialize (Hn1 _ Hin'). specialize (Hn2 _ Hin'). simpl in Hn1, Hn2.
    destruct (decide (a = VStr "agent")) as [Ha|Ha].
    + rewrite bool_decide_eq_true_2 in Hn1 by done.
      rewrite bool_decide_eq_false_2 by tauto.
      by destruct b.
    + rewrite bool_decide_eq_false_2 in Hn2 by done.
      rewrite bool_decide_eq_true_2 by done.
      by destruct b.
Qed.

Lemma consistent_agents_are_justified_witness :
  justify_agent consistent_agents ∅
  = Return {["agent_id" := "✓ acquisition_channel != Agent"]}.
Proof.
  apply (consistent_agents_are_justified consistent_agents ∅);
    [by_computation..|by vm_compute].
Defined.

(** X17.  When the churn flag is boolean and section 6 finds no
    inconsistency between churned and policy_end_date, the test of
    section 4 succeeds: the end dates that are missing or unreadable are
    exactly those of the policies that did not churn, and both
    policy_end_date and churn_reason get their justification. *)
Theorem consistent_end_dates_are_justified parse_date df j :
  "churned" ∈ columns df → "policy_end_date" ∈ columns df →
  Forall (λ c, is_bool c = true) (column df "churned") →
  churn_issues parse_date df = Return [] →
  justify_end_date parse_date df j
  = Return (<["churn_reason" := "✓ churned=False"]>
            (<["policy_end_date" := "✓ churned=False"]> j)).
Proof.
  intros Hchurned Hend Hbool. unfold churn_issues, justify_end_date.
  rewrite !decide_True, !getitem_Return by done. simpl.
  destruct (to_datetime parse_date (column df "policy_end_date"))
    as [e|end_date] eqn:Hdates; simpl; [done|].
  intros [= Hissues]. apply app_eq_nil in Hissues as [H1 H2].
  apply issue_nil in H1, H2.
  pose proof (count_if_0 _ _ H1) as Hn1.
  pose proof (count_if_0 _ _ H2) as Hn2.
  rewrite (count_if_zip (eq_pybool false) isnat
             (column df "churned") end_date).
  - by rewrite Nat.eqb_refl.
  - apply mapM_Return_inv, Forall2_length in Hdates.
    rewrite <-Hdates. unfold column. by rewrite !length_fmap.
  - intros a b Hin. specialize (Hn1 _ Hin). specialize (Hn2 _ Hin).
    simpl in Hn1, Hn2.
    assert (is_bool a = true) as Ha.
    { rewrite Forall_forall in Hbool. apply Hbool.
      by apply elem_of_zip_l in Hin. }
    destruct a as [|[]| | |]; try done; destruct b; simpl in *; done.
Qed.

Lemma consistent_end_dates_are_justified_witness :
  justify_end_date never_a_date consistent_end_dates ∅
  = Return (<["churn_reason" := "✓ churned=False"]>
            {["policy_end_date" := "✓ churned=False"]}).
Proof.
  apply (consistent_end_dates_are_justified never_a_date
           consistent_end_dates ∅);
    [by_computation..|by vm_compute].
Defined.

(** * Tables without missing cells *)

Lemma sort_by_nil_inv {A} (before : A → A → bool) (l : list A) :
  sort_by before l = [] → l = [].
Proof.
  intros H. apply Permutation_nil_r. rewrite <-H.
  symmetry. apply sort_by_Permutation.
Qed.

Lemma count_na_0 (s : Series) : count_na s = 0 ↔ NA ∉ s.
Proof.
  unfold count_na. split.
  - intros H Hin. by pose proof (count_if_0 _ _ H _ Hin).
  - intros Hna. unfold count_if. rewrite (proj2 (length_zero_iff_nil _)); [done|].
    destruct (filter _ s) as [|c t] eqn:E; [done|].
    assert (c ∈ filter (λ x, isna x = true) s) as Hin by (rewrite E; by left).
    apply list_elem_of_filter in Hin as [Hc Hin]. by destruct c.
Qed.

Lemma missing_df_nil df :
  missing_df df = [] ↔ ∀ c, c ∈ columns df → NA ∉ column df c.
Proof.
  split.
  - intros Hnil c Hc. apply count_na_0.
    destruct (count_na (column df c)) as [|m] eqn:E; [done|].
    assert ((c, S m) ∈ missing_df df) as Hin.
    { apply (proj2 (elem_of_missing_df never_a_date df c (S m))).
      split; [done|]. split; [done|lia]. }
    rewrite Hnil in Hin. by apply elem_of_nil in Hin.
  - intros Hall. destruct (missing_df df) as [|[c m] t] eqn:E; [done|].
    assert ((c, m) ∈ missing_df df) as Hin by (rewrite E; by left).
    apply (proj1 (elem_of_missing_df never_a_date df c m)) in Hin as (Hc & -> & Hpos).
    apply Hall, count_na_0 in Hc. lia.
Qed.

(** X18.  Section 4 prints its banner and the single line "No missing
    values found." and then returns, without looking at any column type,
    when no column of the table has a missing cell; on every other table
    that line is not printed. *)
Theorem no_missing_values parse_date df :
  ((∀ c, c ∈ columns df → NA ∉ column df c) →
   print_missing_values parse_date df
   = Printed (output (banner "4. MISSING VALUES") ++ [no_missing_line])%list
             (Return ())) ∧
  (no_missing_line ∈ output (print_missing_values parse_date df) →
   ∀ c, c ∈ columns df → NA ∉ column df c).
Proof.
  split.
  - intros Hall%missing_df_nil. unfold print_missing_values. cbv zeta.
    by rewrite Hall.
  - intros Hline. apply missing_df_nil.
    destruct (decide (missing_df df = [])) as [|Hne]; [done|]. exfalso.
    destruct (justifications parse_date df) as [e|j] eqn:Hj.
    + revert Hline. unfold print_missing_values. cbv zeta.
      rewrite bool_decide_eq_false_2, Hj by done. simpl.
      intros Hline.
      repeat (apply elem_of_cons in Hline as [Hline|Hline];
              [by vm_compute in Hline|]).
      by apply elem_of_nil in Hline.
    + rewrite (output_missing_values parse_date df j Hj Hne) in Hline.
      apply elem_of_app in Hline as [Hline|Hline].
      * unfold missing_head in Hline. simpl in Hline.
        repeat (apply elem_of_cons in Hline as [Hline|Hline];
                [by vm_compute in Hline|]).
        by apply elem_of_nil in Hline.
      * apply list_elem_of_fmap in Hline as (row & Hrow & _).
        apply (f_equal text) in Hrow. discriminate Hrow.
Qed.

Lemma no_missing_values_witness :
  print_missing_values never_a_date complete_policies
  = Printed (output (banner "4. MISSING VALUES") ++ [no_missing_line])%list
            (Return ()).
Proof.
  apply (proj1 (no_missing_values never_a_date complete_policies)).
  intros c Hc.
  repeat (apply elem_of_cons in Hc as [->|Hc]; [by_computation|]).
  by apply elem_of_nil in Hc.
Defined.

(** X19.  The table of section 4 lists exactly the columns of the table
    that have a missing cell, each with the number of its missing cells,
    and lists them from the largest number to the smallest. *)
Theorem missing_table_order df :
  (∀ c m, (c, m) ∈ missing_df df ↔
          c ∈ columns df ∧ m = count_na (column df c) ∧ 0 < m) ∧
  ∀ i j a b, i < j →
    missing_df df !! i = Some a → missing_df df !! j = Some b → b.2 ≤ a.2.
Proof.
  split; [intros c m; apply (elem_of_missing_df never_a_date)|].
  intros i j a b Hij Ha Hb.
  assert ((a.2 <? b.2) = false) as H.
  { eapply (sort_by_lookup (λ x y : string * nat, y.2 <? x.2));
      [..|exact Hij|exact Ha|exact Hb].
    - intros u v Huv%Nat.ltb_lt. apply Nat.ltb_ge. lia.
    - intros u v w Huv%Nat.ltb_ge Hvw%Nat.ltb_ge. apply Nat.ltb_ge. lia. }
  by apply Nat.ltb_ge in H.
Qed.

(** * Checks that run to their end *)

Lemma ok_Return {A} (a : A) : ok (Return a).
Proof. by exists a. Qed.

Lemma ok_bind {A B} (r : Result A) (f : A → Result B) :
  ok r → (∀ a, r = Return a → ok (f a)) → ok (r ≫= f).
Proof. intros [a ->] Hf. simpl. by apply Hf. Qed.

Lemma ok_fmap {A B} (r : Result A) (f : A → B) : ok r → ok (f <$> r).
Proof. intros [a ->]. by eexists. Qed.

Lemma ok_mapM {A B} (f : A → Result B) (l : list A) :
  (∀ x, x ∈ l → ok (f x)) → ok (mapM f l).
Proof.
  induction l as [|x l IH]; intros Hall; [by eexists|].
  simpl. destruct (Hall x) as [y ->]; [by left|]. simpl.
  destruct IH as [k ->]; [intros; apply Hall; by right|].
  by eexists.
Qed.

Lemma ok_getitem df col : col ∈ columns df → ok (getitem df col).
Proof. intros. rewrite getitem_Return by done. by eexists. Qed.

Lemma completes_mret {A} (a : A) : completes (mret a : Print A).
Proof. by exists a. Qed.

Lemma completes_print text args : completes (print text args).
Proof. by exists (). Qed.

Lemma completes_lift {A} (r : Result A) : ok r → completes (lift r).
Proof. done. Qed.

Lemma completes_bind {A B} (m : Print A) (f : A → Print B) :
  completes m → (∀ a, outcome m = Return a → completes (f a)) →
  completes (m ≫= f).
Proof.
  destruct m as [out [e|a]]; intros [a' Ha] Hf; simpl in *; [done|].
  specialize (Hf a eq_refl). destruct (f a) as [out' res]. done.
Qed.

Lemma completes_banner title : completes (banner title).
Proof. by exists (). Qed.

Lemma completes_for_each {A} (l : list A) (body : A → Print ()) :
  (∀ x, x ∈ l → completes (body x)) → completes (for_each l body).
Proof.
  intros Hall. rewrite for_each_return; [by exists ()|].
  intros x Hx. destruct (Hall x Hx) as [[] Ha]. done.
Qed.

Lemma completes_unit (m : Print ()) : completes m → outcome m = Return ().
Proof. by intros [[] ?]. Qed.

Ltac ok_step :=
  cbv beta;
  lazymatch goal with
  | |- completes (print _ _) => apply completes_print
  | |- completes (banner _) => apply completes_banner
  | |- completes (mret _) => apply completes_mret
  | |- completes (Printed _ (Return _)) => by eexists
  | |- completes (for_each _ _) => apply completes_for_each; intros ? _
  | |- completes (lift _) => apply completes_lift
  | |- completes (_ ≫= _) => apply completes_bind; [|intros ? _]
  | |- ok (Return _) => apply ok_Return
  | |- ok (getitem _ _) =>
      apply ok_getitem; simpl; first [tauto | apply dec_stable; tauto]
  | |- ok (_ ≫= _) => apply ok_bind; [|intros ? _]
  | |- ok (_ <$> _) => apply ok_fmap
  | |- context [decide ?P] => destruct (decide P)
  | |- context [if ?b then _ else _] => destruct b
  | |- context [match ?x with _ => _ end] => destruct x
  end.

Lemma completes_print_shape df : completes (print_shape df).
Proof. unfold print_shape. repeat ok_step. Qed.

Lemma completes_print_dtypes df : completes (print_dtypes df).
Proof. unfold print_dtypes. repeat ok_step. Qed.

Lemma completes_print_categorical_distribution df :
  completes (print_categorical_distribution df).
Proof.
  unfold print_categorical_distribution, categorical_section,
    churn_reason_section, print_value_counts.
  repeat ok_step.
Qed.

Lemma completes_print_duplicates df : completes (print_duplicates df).
Proof.
  unfold print_duplicates, policy_id_duplicates, customer_id_duplicates.
  repeat ok_step.
Qed.

(** X20.  The checks of sections 1, 2, 3 and 5 read no value as a
    number, a date or a text: on every table, whatever its columns hold,
    they run to their end without raising. *)
Theorem untyped_checks_complete df :
  outcome (print_shape df) = Return () ∧
  outcome (print_dtypes df) = Return () ∧
  outcome (print_categorical_distribution df) = Return () ∧
  outcome (print_duplicates df) = Return ().
Proof.
  split_and!; apply completes_unit.
  - apply completes_print_shape.
  - apply completes_print_dtypes.
  - apply completes_print_categorical_distribution.
  - apply completes_print_duplicates.
Qed.

(** * Numbers for the outlier check *)

Lemma mapM_Raise_inv {A B} (f : A → Result B) (l : list A) e :
  mapM f l = Raise e → ∃ x, x ∈ l ∧ f x = Raise e.
Proof.
  induction l as [|x l IH]; simpl; [done|].
  destruct (f x) as [e'|y] eqn:Ex; simpl.
  - intros [= ->]. exists x. split; [by left|done].
  - destruct (mapM f l) as [e'|k]; simpl; [|done].
    intros [= ->]. destruct (IH eq_refl) as (x' & ? & ?).
    exists x'. split; [by right|done].
Qed.

Lemma mapM_to_num s :
  Forall (λ c, is_str c = false) s → mapM to_num s = Return (num_opt <$> s).
Proof.
  intros Hs. apply mapM_Return. intros c Hc.
  rewrite Forall_forall in Hs. specialize (Hs c Hc). by destruct c.
Qed.

Lemma Return_bind {A B} (a : A) (f : A → Result B) : Return a ≫= f = f a.
Proof. done. Qed.

(** A column has the dtype bool when it has a row and all its cells are
    booleans. *)
Lemma dtype_of_bool (s : Series) :
  dtype_of s = bool_ ↔ s ≠ [] ∧ Forall (λ c, is_bool c = true) s.
Proof.
  assert (forallb is_bool s = true ↔ Forall (λ c, is_bool c = true) s) as H.
  { rewrite forallb_forall, Forall_forall.
    split; intros Hall c Hc; apply Hall; by apply list_elem_of_In. }
  unfold dtype_of. destruct s as [|c t]; [naive_solver|].
  rewrite <-H. destruct (forallb is_bool (c :: t)); [naive_solver|].
  split; [|naive_solver]. by repeat case_match.
Qed.

Lemma numeric_numbers s : numeric s → ok (numbers s).
Proof.
  intros Hs. unfold numbers. apply ok_fmap, ok_mapM. intros c Hc.
  unfold numeric in Hs. rewrite Forall_forall in Hs. specialize (Hs c Hc).
  destruct c; try done; by eexists.
Qed.

Lemma ok_outlier_stats s : numeric s → ok (outlier_stats s).
Proof.
  intros Hs. unfold outlier_stats. cbv zeta.
  destruct (length (dropna s) =? 0); [apply ok_Return|].
  rewrite decide_False.
  2:{ intros [Hne Hbool]%dtype_of_bool. destruct s as [|c t]; [done|].
      apply Forall_cons in Hs as [Hc _], Hbool as [Hb _]. by destruct c. }
  apply ok_bind.
  - apply numeric_numbers. apply Forall_forall.
    intros c [Hc _]%elem_of_dropna. revert c Hc. by apply Forall_forall.
  - intros xs _. destruct (decide _); apply ok_Return.
Qed.

Lemma outlier_stats_bool s :
  s ≠ [] → Forall (λ c, is_bool c = true) s →
  outlier_stats s = Raise TypeError.
Proof.
  intros Hne Hbool. unfold outlier_stats. cbv zeta.
  rewrite dropna_complete.
  2:{ intros Hna. rewrite Forall_forall in Hbool. by specialize (Hbool _ Hna). }
  destruct s as [|c t]; [done|]. simpl length. simpl Nat.eqb.
  rewrite decide_True; [done|]. by apply dtype_of_bool.
Qed.

(** The quartiles fail in one way only. *)
Lemma outlier_stats_raises s e : outlier_stats s = Raise e → e = TypeError.
Proof.
  unfold outlier_stats. cbv zeta. destruct (_ =? 0); [done|].
  destruct (decide _); [by intros [= <-]|].
  destruct (numbers (dropna s)) as [e'|xs] eqn:E.
  - intros H. change (Raise e' = Raise e :> Result (option Outliers)) in H.
    injection H as <-. unfold numbers in E.
    destruct (mapM to_num (dropna s)) as [e|ns] eqn:Em; [|done].
    injection E as <-. apply mapM_Raise_inv in Em as (c & _ & Hc).
    destruct c; try done. by injection Hc as <-.
  - rewrite Return_bind. by destruct (decide _).
Qed.

Lemma outlier_row_raises df col e :
  outcome (outlier_row df col) = Raise e → e = TypeError.
Proof.
  unfold outlier_row. destruct (decide _); [done|].
  assert (col ∈ columns df) as Hcol by (apply dec_stable; tauto).
  rewrite getitem_Return, lift_Return_bind by done.
  destruct (outlier_stats (column df col)) as [e'|[o|]] eqn:E; simpl.
  - intros [= <-]. by eapply outlier_stats_raises.
  - done.
  - done.
Qed.

Lemma outlier_row_bool df col :
  col ∈ columns df → rows df ≠ [] →
  Forall (λ c, is_bool c = true) (column df col) →
  outcome (outlier_row df col) = Raise TypeError.
Proof.
  intros Hcol Hne Hbool. unfold outlier_row.
  rewrite decide_False by tauto.
  rewrite getitem_Return, lift_Return_bind by done.
  rewrite outlier_stats_bool; [done| |done].
  unfold column. by destruct (rows df).
Qed.

Lemma outcome_bind {A B} (m : Print A) (f : A → Print B) :
  outcome (m ≫= f)
  = match outcome m with
    | Raise e => Raise e
    | Return a => outcome (f a)
    end.
Proof. destruct m as [out [e|a]]; simpl; [done|]. by destruct (f a). Qed.

Lemma outliers_loop_raises df cols any_outliers col :
  col ∈ cols → outcome (outlier_row df col) = Raise TypeError →
  outcome (outliers_loop df cols any_outliers) = Raise TypeError.
Proof.
  revert any_outliers. induction cols as [|c rest IH];
    intros any_outliers Hin Hcol; [by apply elem_of_nil in Hin|].
  simpl. rewrite outcome_bind.
  destruct (outcome (outlier_row df c)) as [e|found] eqn:E.
  - by rewrite (outlier_row_raises _ _ _ E).
  - apply IH; [|done]. apply elem_of_cons in Hin as [->|]; [congruence|done].
Qed.

Lemma outliers_loop_completes df cols any_outliers :
  (∀ col, col ∈ cols → col ∈ columns df → numeric (column df col)) →
  completes (outliers_loop df cols any_outliers).
Proof.
  revert any_outliers. induction cols as [|col rest IH];
    intros any_outliers Hcols; [apply completes_mret|].
  simpl. apply completes_bind;
    [|intros; apply IH; intros; apply Hcols; [by right|done]].
  unfold outlier_row. destruct (decide _); [apply completes_mret|].
  assert (col ∈ columns df) as Hcol by (apply dec_stable; tauto).
  rewrite getitem_Return, lift_Return_bind by done.
  apply completes_bind.
  - apply completes_lift, ok_outlier_stats, Hcols; [by left|done].
  - intros [o|] _; repeat ok_step.
Qed.

Lemma for_each_outcome {A} (l : list A) (body : A → Print ()) x e :
  x ∈ l → outcome (body x) = Raise e →
  outcome (for_each l body) ≠ Return ().
Proof.
  induction l as [|y l IH]; intros Hin Hx; [by apply elem_of_nil in Hin|].
  unfold for_each in *. simpl. rewrite outcome_bind.
  destruct (outcome (body y)) as [e'|[]] eqn:E; [done|].
  apply elem_of_cons in Hin as [->|Hin]; [congruence|by apply IH].
Qed.

(** X21.  Section 7 needs numbers.  On a table whose section-7 columns,
    where present, hold only integers, floats and missing cells, the
    outlier check runs to its end.  A section-7 column that was read as
    booleans passes the range checks of section 6 but stops the outlier
    check with a [TypeError], so that the run of checks does not reach
    its closing banner. *)
Theorem outliers_need_numbers parse_date df :
  ((∀ col, col ∈ numeric_cols → col ∈ columns df →
      numeric (column df col)) →
   outcome (print_outliers df) = Return ()) ∧
  (∀ col, col ∈ numeric_cols → col ∈ columns df → rows df ≠ [] →
     Forall (λ c, is_bool c = true) (column df col) →
     (∀ check, check ∈ checks → check.1.1 = col →
        ok (range_issue df check)) ∧
     outcome (print_outliers df) = Raise TypeError ∧
     outcome (run_quality_checks parse_date (Some df)) ≠ Return ()).
Proof.
  split.
  - intros Hnum. apply completes_unit. unfold print_outliers.
    do 3 (apply completes_bind; [repeat ok_step|intros ? _]).
    apply completes_bind; [by apply outliers_loop_completes|intros ? _].
    repeat ok_step.
  - intros col Hcol Hin Hne Hbool.
    assert (outcome (print_outliers df) = Raise TypeError) as Hout.
    { unfold print_outliers. rewrite !outcome_bind.
      change (outcome (banner _)) with (Return () : Result ()).
      cbv iota beta.
      change (outcome (print _ _)) with (Return () : Result ()).
      cbv iota beta.
      change (outcome (print _ _)) with (Return () : Result ()).
      cbv iota beta.
      rewrite (outliers_loop_raises df numeric_cols false col);
        [done|done|by apply outlier_row_bool]. }
    split_and!.
    + intros [[c fn] label] _ Hc. simpl in Hc. subst c. simpl.
      unfold range_issue. rewrite decide_True by done.
      rewrite getitem_Return by done. simpl.
      unfold count_where. rewrite mapM_to_num.
      2:{ eapply Forall_impl; [exact Hbool|]. intros c. by destruct c. }
      by eexists.
    + exact Hout.
    + unfold run_quality_checks. rewrite !outcome_bind.
      change (outcome (print _ _)) with (Return () : Result ()).
      cbv iota beta.
      change (outcome (print _ _)) with (Return () : Result ()).
      cbv iota beta.
      change (outcome (print _ _)) with (Return () : Result ()).
      cbv iota beta.
      rewrite run_checks_battery, outcome_bind.
      destruct (outcome (for_each _ _)) as [e|[]] eqn:E; [done|].
      exfalso. revert E.
      apply (for_each_outcome _ _ print_outliers TypeError); [|done].
      unfold battery. set_solver.
Qed.

Lemma outliers_need_numbers_witness :
  outcome (print_outliers flat_premium) = Return () ∧
  outcome (print_outliers boolean_premium) = Raise TypeError ∧
  outcome (run_quality_checks never_a_date (Some boolean_premium))
  ≠ Return ().
Proof.
  split.
  - apply (proj1 (outliers_need_numbers never_a_date flat_premium)).
    intros col Hcol Hin. revert Hin. unfold numeric_cols in Hcol.
    repeat (apply elem_of_cons in Hcol as [->|Hcol];
            [intros _; by_computation
             || (intros Hin; exfalso; revert Hin; by_computation)|]).
    by apply elem_of_nil in Hcol.
  - apply (proj2 (outliers_need_numbers never_a_date boolean_premium)
             "premium"); by_computation.
Defined.

(** * Range checks *)


Lemma count_where_TypeError fn s c :
  c ∈ s → is_str c = true → count_where fn s = Raise TypeError.
Proof.
  intros Hc Hstr. unfold count_where.
  destruct (mapM to_num s) as [e|ns] eqn:E.
  - apply mapM_Raise_inv in E as (x & _ & Hx). simpl.
    destruct x; simpl in Hx; try done. by injection Hx as <-.
  - apply mapM_Return_inv in E.
    apply list_elem_of_lookup in Hc as [i Hi].
    destruct (Forall2_lookup_l _ _ _ _ _ E Hi) as (y & _ & Hy).
    by destruct c.
Qed.

(** X22.  A range check of section 6 on a column that is present: text
    in the column makes the comparison raise [TypeError]; otherwise the
    check returns at most one issue line, which carries the number of
    cells outside the range, and it returns none exactly when no cell that
    holds a number lies outside the range, a missing cell never
    counting. *)
Theorem range_check df col fn label :
  col ∈ columns df →
  ((∃ c, c ∈ column df col ∧ is_str c = true) →
   range_issue df (col, fn, label) = Raise TypeError) ∧
  (Forall (λ c, is_str c = false) (column df col) →
   let n := count_if (λ c, from_option fn false (num_opt c)) (column df col) in
   range_issue df (col, fn, label)
   = Return (if 0 <? n
             then [{| text := "  {col} {label}: {n:,}";
                      args := [AStr col; AStr label; ANat n] |}]
             else []) ∧
   (n = 0 ↔ ∀ c q, c ∈ column df col → num_opt c = Some q → fn q = false)).
Proof.
  intros Hcol. unfold range_issue.
  rewrite decide_True, getitem_Return by done. simpl. split.
  - intros (c & Hc & Hstr).
    by rewrite (count_where_TypeError fn _ c).
  - intros Hnum. unfold count_where. rewrite mapM_to_num by done.
    simpl. rewrite count_if_fmap.
    set (n := count_if _ (column df col)). split; [done|].
    split.
    + intros Hn c q Hc Hq.
      pose proof (count_if_0 _ _ Hn c Hc) as H. simpl in H.
      by rewrite Hq in H.
    + intros Hall. unfold n, count_if.
      apply length_zero_iff_nil.
      destruct (filter _ _) as [|c t] eqn:E; [done|].
      assert (c ∈ filter (λ x, (from_option fn false ∘ num_opt) x = true)
                         (column df col)) as Hin by (rewrite E; by left).
      apply list_elem_of_filter in Hin as [Hc Hin]. simpl in Hc.
      destruct (num_opt c) as [q|] eqn:Hq; [|done].
      simpl in Hc. by rewrite (Hall c q) in Hc.
Qed.

Lemma range_check_witness :
  range_issue some_ages
    ("customer_age", (λ s, qlt s (Qc_of_Z 18) || qlt (Qc_of_Z 120) s),
     "not in [18–120]")
  = Return [{| text := "  {col} {label}: {n:,}";
               args := [AStr "customer_age"; AStr "not in [18–120]";
                        ANat 1] |}].
Proof.
  apply (proj2 (range_check some_ages "customer_age"
                  (λ s, qlt s (Qc_of_Z 18) || qlt (Qc_of_Z 120) s)
                  "not in [18–120]" ltac:(by_computation))).
  by_computation.
Defined.

(** * Columns without spread *)

Lemma quantile_position (n : nat) (quart : Qc) :
  (0 ≤ quart)%Qc → (quart ≤ 1)%Qc →
  Z.to_nat (Qfloor (of_nat n * quart)%Qc) ≤ n.
Proof.
  intros H0 H1.
  assert (of_nat n * quart ≤ of_nat n)%Qc as Hle.
  { rewrite <-(Qcmult_1_r (of_nat n)) at 2. rewrite !(Qcmult_comm (of_nat n)).
    apply Qcmult_le_compat_r; [done|apply of_nat_nonneg]. }
  apply Qfloor_resp_le in Hle.
  change (this (of_nat n)) with (inject_Z (Z.of_nat n)) in Hle.
  rewrite Qfloor_Z in Hle. lia.
Qed.

Lemma quantile_constant (xs : list Qc) (q quart : Qc) :
  xs ≠ [] → (∀ x, x ∈ xs → x = q) →
  (0 ≤ quart)%Qc → (quart ≤ 1)%Qc → quantile xs quart = q.
Proof.
  intros Hne Hall H0 H1. unfold quantile. cbv zeta.
  set (sorted := sort_by qlt xs).
  assert (∀ i x, sorted !! i = Some x → x = q) as Hsorted.
  { intros i x Hi%list_elem_of_lookup_2. apply Hall.
    unfold sorted in Hi. by rewrite sort_by_Permutation in Hi. }
  assert (length sorted = length xs) as Hlen
    by (unfold sorted; by rewrite sort_by_Permutation).
  set (i := Z.to_nat (Qfloor (of_nat (length xs - 1) * quart)%Qc)).
  assert (i < length sorted) as Hi.
  { pose proof (quantile_position (length xs - 1) quart H0 H1).
    destruct xs; [done|]. simpl in *. lia. }
  apply lookup_lt_is_Some_2 in Hi as [lo Hlo].
  rewrite Hlo. simpl. rewrite (Hsorted _ _ Hlo).
  destruct (sorted !! (i + 1)) as [hi|] eqn:Hhi; simpl.
  - rewrite (Hsorted _ _ Hhi). ring.
  - ring.
Qed.


Lemma outlier_stats_constant (s : Series) v :
  is_number v = true → (∀ c, c ∈ s → c = NA ∨ c = v) →
  outlier_stats s = Return None.
Proof.
  intros Hv Hall. unfold outlier_stats. cbv zeta.
  destruct (length (dropna s) =? 0) eqn:E; [done|].
  assert (∀ c, c ∈ dropna s → c = v) as Hd.
  { intros c [Hc Hna]%elem_of_dropna. by destruct (Hall c Hc). }
  assert (Forall (λ c, is_str c = false) (dropna s)) as Hnum.
  { apply Forall_forall. intros c ->%Hd. by destruct v. }
  rewrite decide_False.
  2:{ intros [_ Hbool]%dtype_of_bool. rewrite Forall_forall in Hbool.
      destruct (dropna s) as [|c t] eqn:Es; [done|].
      assert (c ∈ dropna s) as Hc by (rewrite Es; by left).
      assert (c = v) as -> by (apply Hd; by left).
      apply elem_of_dropna in Hc as [Hc _].
      specialize (Hbool v Hc). by destruct v. }
  rewrite numbers_Return, Return_bind by done.
  destruct (dropna s) as [|c t] eqn:Es; [done|].
  assert (c = v) as -> by (apply Hd; by left).
  assert (v ≠ NA) as Hna.
  { assert (v ∈ dropna s) as Hin by (rewrite Es; by left).
    by apply elem_of_dropna in Hin as [_ ?]. }
  destruct (num_opt v) as [q|] eqn:Hq; [|by destruct v].
  set (xs := omap num_opt (v :: t)).
  assert (xs ≠ []) as Hne by (unfold xs; simpl; by rewrite Hq).
  assert (∀ x, x ∈ xs → x = q) as Hxs.
  { intros x (c & Hc & Hx)%list_elem_of_omap.
    rewrite (Hd c) in Hx by done. congruence. }
  rewrite !(quantile_constant xs q) by (done || by_computation).
  rewrite decide_True; [done|]. ring.
Qed.

(** X23.  A column of section 7 whose values, where present, are all
    the same integer or float has an interquartile range of zero: the
    loop skips it, prints no row for it and does not flag it, and nothing
    is divided by the zero range.  The same holds for a column without
    any value. *)
Theorem constant_column_skipped df col v :
  col ∈ columns df → is_number v = true →
  (∀ c, c ∈ column df col → c = NA ∨ c = v) →
  outlier_row df col = mret false.
Proof.
  intros Hcol Hv Hall. unfold outlier_row.
  rewrite decide_False by tauto.
  rewrite getitem_Return, lift_Return_bind by done.
  by rewrite (outlier_stats_constant _ v).
Qed.

Lemma constant_column_skipped_witness :
  outlier_row flat_premium "premium" = mret false.
Proof.
  apply (constant_column_skipped flat_premium "premium" (VInt 100));
    [by_computation|done|].
  intros c Hc. revert c Hc. apply Forall_forall. by_computation.
Defined.

(** * Errors of a run *)

(** X24.  [main] never ends in an exception, whatever the file holds
    and whether or not it exists, while [run_quality_checks] ends the way
    its checks end.  When the file does not exist no check runs: the
    report of [main] is its banner followed by the not-found message, and
    [run_quality_checks] raises [FileNotFoundError] after its banner. *)
Theorem report_errors parse_date file :
  outcome (main parse_date file) = Return () ∧
  outcome (run_quality_checks parse_date file)
    = outcome (run_checks parse_date file) ∧
  main parse_date None
    = Printed (output (banner "DATA SANITY CHECKS — policies.csv") ++
               [{| text := "Error: '{CSV_FILE}' not found. Run from the folder containing the file.";
                   args := [] |}])%list (Return ()) ∧
  run_quality_checks parse_date None
    = Printed (output (banner "DATA QUALITY CHECKS — policies.csv"))
              (Raise FileNotFoundError).
Proof.
  split; [apply outcome_main|].
  split; [|by split].
  unfold run_quality_checks.
  destruct (run_checks parse_date file) as [out res]. by destruct res.
Qed.

(** * Buckets of the tenure chart *)

Section TenureBuckets.
Import TenureChurnPlot.

Lemma qmax_ge (l : list Qc) m x : qmax l = Some m → x ∈ l → (x ≤ m)%Qc.
Proof.
  revert m. induction l as [|y l IH]; intros m Hm Hx;
    [by apply elem_of_nil in Hx|].
  simpl in Hm. injection Hm as <-.
  destruct (qmax l) as [m'|] eqn:E.
  - unfold qlt. case_bool_decide as Hlt.
    + apply elem_of_cons in Hx as [->|Hx]; [by apply Qclt_le_weak|].
      by apply IH.
    + apply Qcnot_lt_le in Hlt.
      apply elem_of_cons in Hx as [->|Hx]; [apply Qcle_refl|].
      eapply Qcle_trans; [by apply IH|done].
  - destruct l as [|z l]; [|done].
    apply elem_of_cons in Hx as [->|Hx]; [apply Qcle_refl|].
    by apply elem_of_nil in Hx.
Qed.

Lemma range12_length n : length (range12 n) = Z.to_nat ((n + 11) / 12).
Proof. unfold range12. by rewrite length_fmap, length_seq. Qed.

Lemma range12_lookup n k :
  k < Z.to_nat ((n + 11) / 12) →
  range12 n !! k = Some (12 * Z.of_nat k)%Z.
Proof.
  intros Hk. unfold range12.
  by rewrite list_lookup_fmap, lookup_seq_lt.
Qed.

Lemma range12_sorted n : StronglySorted Z.lt (range12 n).
Proof.
  unfold range12. generalize (Z.to_nat ((n + 11) / 12)). intros len.
  generalize 0. induction len as [|len IH]; intros start; simpl;
    constructor; [apply IH|].
  apply Forall_forall. intros z (k & -> & Hk)%list_elem_of_fmap.
  apply elem_of_seq in Hk. lia.
Qed.

Lemma labels_lookup n k :
  S k < Z.to_nat ((n + 11) / 12) →
  labels (range12 n) !! k = Some (bucket (Z.of_nat k)).
Proof.
  intros Hk. unfold labels.
  rewrite list_lookup_fmap, lookup_take_lt, range12_lookup
    by (rewrite ?range12_length; lia).
  simpl. f_equal. f_equal. rewrite Z.mul_comm. by apply Z.div_mul.
Qed.

Lemma Qfloor_nonneg (x : Qc) : (0 ≤ x)%Qc → (0 ≤ Qfloor x)%Z.
Proof.
  intros H. change 0%Z with (Qfloor (inject_Z 0)).
  by apply Qfloor_resp_le.
Qed.

(** The bucket of the year that a tenure falls into. *)
Lemma tenure_in_bucket (t : Qc) :
  (0 ≤ t)%Qc →
  in_bin false t (12 * Z.of_nat (Z.to_nat (Qfloor t / 12)))
                 (12 * Z.of_nat (S (Z.to_nat (Qfloor t / 12)))).
Proof.
  intros Ht%Qfloor_nonneg.
  assert (0 ≤ Qfloor t / 12)%Z as Hk by (apply Z.div_pos; lia).
  rewrite Nat2Z.inj_succ, Z2Nat.id by done.
  pose proof (Z.mul_div_le (Qfloor t) 12 ltac:(lia)) as Hlo.
  pose proof (Z.mul_succ_div_gt (Qfloor t) 12 ltac:(lia)) as Hhi.
  unfold in_bin, Qcle, Qclt, Qc_of_Z. cbn [this]. split.
  - eapply Qle_trans; [|apply Qfloor_le]. rewrite <-Zle_Qle. lia.
  - eapply Qlt_le_trans; [apply Qlt_floor|]. rewrite <-Zle_Qle. lia.
Qed.

(** X25.  The tenure chart cuts tenure_months into 12-month buckets
    whose last edge lies beyond the largest tenure of the table: every
    tenure that is not negative, the largest included, gets the label of
    its own year, "k-(k+1)yr" for a tenure from 12k up to but not
    including 12(k+1) months, and is never left without a bucket. *)
Theorem every_tenure_has_a_bucket tenure max_tenure i c t :
  max tenure = Return (Some max_tenure) →
  tenure !! i = Some c → num_opt c = Some t → (0 ≤ t)%Qc →
  ∃ banded, tenure_bin max_tenure tenure = Return banded ∧
    banded !! i = Some (VStr (bucket (Qfloor t / 12))).
Proof.
  intros Hmax Hi Hc Ht. unfold max in Hmax.
  destruct (numbers tenure) as [e|xs] eqn:Hxs; [done|].
  injection Hmax as Hmax.
  assert (Forall (λ c, is_str c = false) tenure) as Hnum.
  { apply Forall_forall. intros c' Hc'.
    destruct (is_str c') eqn:E; [|done]. exfalso.
    unfold numbers in Hxs.
    destruct (mapM to_num tenure) as [e|ns] eqn:Hm; [done|].
    apply mapM_Return_inv in Hm.
    apply list_elem_of_lookup in Hc' as [j Hj].
    destruct (Forall2_lookup_l _ _ _ _ _ Hm Hj) as (y & _ & Hy).
    by destruct c'. }
  assert (t ∈ xs) as Hin.
  { rewrite numbers_Return in Hxs by done. injection Hxs as <-.
    apply list_elem_of_omap. exists c. split; [|done].
    by eapply list_elem_of_lookup_2. }
  pose proof (qmax_ge _ _ _ Hmax Hin) as Hle.
  assert (0 ≤ max_tenure)%Qc as Hpos by by eapply Qcle_trans.
  unfold tenure_bin, cut.
  rewrite (mapM_Return _ (band false (bins max_tenure)
                               (labels (bins max_tenure)))).
  2:{ intros c' Hc'. rewrite Forall_forall in Hnum. specialize (Hnum c' Hc').
      unfold band. by destruct c'. }
  eexists. split; [done|].
  rewrite list_lookup_fmap, Hi. simpl. f_equal.
  unfold band. rewrite Hc. simpl.
  unfold bins, int. rewrite bool_decide_eq_true_2 by done.
  set (k := Z.to_nat (Qfloor t / 12)).
  pose proof (Qfloor_nonneg t Ht) as Hft.
  assert (0 ≤ Qfloor t / 12)%Z as Hk by (apply Z.div_pos; lia).
  assert (Qfloor t ≤ Qfloor max_tenure)%Z as Hfloor
    by by apply Qfloor_resp_le.
  assert (S k < Z.to_nat ((Qfloor max_tenure + 13 + 11) / 12)) as Hlen.
  { replace (Qfloor max_tenure + 13 + 11)%Z
      with (Qfloor max_tenure + 2 * 12)%Z by lia.
    rewrite Z.div_add by lia.
    pose proof (Z.div_le_mono (Qfloor t) (Qfloor max_tenure) 12
                  ltac:(lia) Hfloor).
    unfold k. lia. }
  replace (Qfloor t / 12)%Z with (Z.of_nat k) by (unfold k; lia).
  apply (cut_label_hit false t _ _ k (12 * Z.of_nat k) (12 * Z.of_nat (S k))).
  - apply range12_sorted.
  - apply range12_lookup. lia.
  - apply range12_lookup. lia.
  - by apply labels_lookup.
  - by apply tenure_in_bucket.
Qed.

Lemma every_tenure_has_a_bucket_witness :
  ∃ banded,
    tenure_bin (Qc_of_Z 24) (VInt <$> [6; 24; 13]%Z) = Return banded ∧
    banded !! 1 = Some (VStr "2-3yr").
Proof.
  apply (every_tenure_has_a_bucket (VInt <$> [6; 24; 13]%Z) (Qc_of_Z 24)
           1 (VInt 24) (Qc_of_Z 24)); [|done|done|by_computation].
  unfold max. simpl. do 2 f_equal.
Defined.

End TenureBuckets.

(** * Bars above and below the average *)

Lemma Qcplus_lt_le_compat (x y z t : Qc) :
  (x < y)%Qc → (z ≤ t)%Qc → (x + z < y + t)%Qc.
Proof.
  unfold Qclt, Qcle, Qcplus, Q2Qc. cbn [this]. intros H1 H2.
  rewrite !Qred_correct. by apply Qplus_lt_le_compat.
Qed.

Lemma qsum_cons x l : qsum (x :: l) = (x + qsum l)%Qc.
Proof. done. Qed.

(** A sum of smaller terms is smaller, when there is a term. *)
Lemma qsum_lt {A} (f g : A → Qc) (l : list A) :
  l ≠ [] → (∀ x, x ∈ l → (f x < g x)%Qc) →
  (qsum (f <$> l) < qsum (g <$> l))%Qc.
Proof.
  induction l as [|x l IH]; [done|]. intros _ Hall.
  rewrite !fmap_cons, !qsum_cons.
  apply Qcplus_lt_le_compat; [apply Hall; by left|].
  destruct l as [|y l]; [apply Qcle_refl|].
  apply Qclt_le_weak, IH; [done|]. intros z Hz. apply Hall. by right.
Qed.

Lemma qsum_scale {A} (c : Qc) (f : A → Qc) (l : list A) :
  qsum ((λ x, c * f x)%Qc <$> l) = (c * qsum (f <$> l))%Qc.
Proof.
  induction l as [|x l IH]; [simpl; ring|].
  rewrite !fmap_cons, !qsum_cons, IH. ring.
Qed.

(** Rates cannot all exceed the rate of the whole: the whole is their
    weighted mean. *)
Lemma not_all_above_mean {A} (churned weight : A → Qc) (l : list A) :
  l ≠ [] → (∀ x, x ∈ l → (0 < weight x)%Qc) →
  ¬ ∀ x, x ∈ l →
      (qsum (churned <$> l) / qsum (weight <$> l) * Qc_of_Z 100
       < churned x / weight x * Qc_of_Z 100)%Qc.
Proof.
  intros Hne Hpos Hall.
  set (C := qsum (churned <$> l)). set (W := qsum (weight <$> l)).
  assert (0 < W)%Qc as HW.
  { unfold W. replace 0%Qc with (qsum ((λ _, 0%Qc) <$> l)).
    - by apply qsum_lt.
    - clear. induction l as [|x l IH]; [done|].
      rewrite fmap_cons, qsum_cons, IH. ring. }
  assert (W ≠ 0%Qc) as HW0 by (apply not_eq_sym, Qclt_not_eq; done).
  assert (qsum ((λ x, C / W * Qc_of_Z 100 * weight x)%Qc <$> l)
          < qsum ((λ x, Qc_of_Z 100 * churned x)%Qc <$> l))%Qc as Hlt.
  { apply qsum_lt; [done|]. intros x Hx.
    assert (weight x ≠ 0%Qc) as Hw0
      by (apply not_eq_sym, Qclt_not_eq, Hpos; done).
    replace (Qc_of_Z 100 * churned x)%Qc
      with (churned x / weight x * Qc_of_Z 100 * weight x)%Qc
      by (field; done).
    apply Qcmult_lt_compat_r; [by apply Hpos|by apply Hall]. }
  rewrite !qsum_scale in Hlt. fold C W in Hlt.
  replace (C / W * Qc_of_Z 100 * W)%Qc with (Qc_of_Z 100 * C)%Qc in Hlt
    by (field; done).
  by apply Qclt_not_eq in Hlt.
Qed.

Lemma of_nat_plus a b : of_nat (a + b) = (of_nat a + of_nat b)%Qc.
Proof.
  induction a as [|a IH]; simpl.
  - replace (of_nat 0) with 0%Qc by (by apply Qc_is_canon). ring.
  - rewrite !of_nat_S, IH. ring.
Qed.

Lemma of_nat_sum_list (ns : list nat) :
  of_nat (sum_list ns) = qsum (of_nat <$> ns).
Proof.
  induction ns as [|n ns IH]; [by apply Qc_is_canon|].
  simpl. by rewrite of_nat_plus, IH.
Qed.

Lemma NoDup_fmap_elem {A B} (f : A → B) (l : list A) x y :
  NoDup (f <$> l) → x ∈ l → y ∈ l → f x = f y → x = y.
Proof.
  intros Hnd [i Hi]%list_elem_of_lookup [j Hj]%list_elem_of_lookup Hxy.
  assert (i = j) as ->; [|congruence].
  eapply NoDup_lookup; [exact Hnd|..];
    rewrite list_lookup_fmap; [by rewrite Hi|by rewrite Hj, Hxy].
Qed.

(** With identifiers that are present and distinct, the policies of some
    rows are as many as the rows. *)
Lemma policy_ids_sub df (g : list (gmap string Cell)) :
  NoDup (column df "policy_id") → NA ∉ column df "policy_id" →
  g `sublist_of` rows df → length (policy_ids g) = length g.
Proof.
  intros Hnd Hna Hsub. unfold policy_ids.
  assert ((λ r, cell r "policy_id") <$> g
          `sublist_of` column df "policy_id") as Hids
    by by apply fmap_sublist.
  rewrite dropna_complete, unique_NoDup, length_fmap; [done|..].
  - by eapply sublist_NoDup.
  - intros Hin. apply Hna. by eapply elem_of_sublist.
Qed.

Section Bars.
Import RiskyChannels.

Lemma rates_eq df col :
  churn_ready df col →
  rates df col = Return (sort_values (grp_row df col <$> keys df col)).
Proof.
  intros Hready. unfold rates. rewrite (groupby_keys df col Hready). simpl.
  by rewrite (agg_eq df col Hready _ eq_refl).
Qed.

Lemma rates_ready df col grp :
  rates df col = Return grp →
  Forall (λ r, is_bool (cell r "churned") = true) (rows df) →
  churn_ready df col.
Proof.
  intros Hgrp Hbool.
  apply (churn_table_ready (Fin 0%Qc) df col "" 
           {| title := ""; lines := line_of (Fin 0%Qc) <$> grp;
              TOTAL := (sum_list (Total <$> grp), qsum (Churned <$> grp)) |});
    [|done].
  unfold churn_table. unfold rates in Hgrp.
  destruct (groupby df col) as [e|groups]; simpl in *; [done|].
  destruct (agg df col groups) as [e|aggregated]; simpl in *; [done|].
  by injection Hgrp as <-.
Qed.

(** X26.  The payment-frequency chart cannot paint every bar in the
    colour of the groups above the average.  When the policy identifiers
    are present and distinct, the churn flag is boolean and every policy
    has a payment frequency, the overall churn rate is the mean of the
    group rates weighted by group size, so at least one bar has a rate
    that does not exceed it and is painted as below the average. *)
Theorem some_bar_is_not_above df bs :
  NoDup (column df "policy_id") → NA ∉ column df "policy_id" →
  Forall (λ r, is_bool (cell r "churned") = true) (rows df) →
  (∀ r, r ∈ rows df → cell r "payment_frequency" ≠ NA) →
  rows df ≠ [] →
  bars df = Return bs →
  ∃ b, b ∈ bs ∧ color b = BELOW_COLOR.
Proof.
  intros Hnd Hna Hbool Hkey Hrows Hbars. unfold bars in Hbars.
  apply bind_Return_inv in Hbars as (overall & Hoverall & Hbars).
  apply bind_Return_inv in Hbars as (grp & Hgrp & Hbars).
  injection Hbars as <-.
  set (col := "payment_frequency") in *.
  pose proof (rates_ready _ _ _ Hgrp Hbool) as Hready.
  rewrite (rates_eq _ _ Hready) in Hgrp. injection Hgrp as <-.
  rewrite (overall_churn_rate_bool df) in Hoverall
    by (done || apply Hready).
  injection Hoverall as <-.
  destruct (decide (Exists (λ b, color b = BELOW_COLOR)
                      (bar (fmul (fdiv (Fin (qsum (churn_flag <$> rows df)))
                                       (Fin (of_nat (len df)))) hundred)
                         <$> sort_values (grp_row df col <$> keys df col))))
    as [Hex|Hall]; [by apply Exists_exists in Hex|].
  exfalso. apply not_Exists_Forall in Hall; [|intros ?; apply _].
  rewrite Forall_forall in Hall.
  set (churned := λ k, qsum (churn_flag <$> group_rows df col k)).
  set (weight := λ k, of_nat (length (policy_ids (group_rows df col k)))).
  assert (∀ k, k ∈ keys df col →
            length (policy_ids (group_rows df col k))
            = length (group_rows df col k)) as Hsize.
  { intros k _. apply (policy_ids_sub df); [done..|].
    apply sublist_filter. }
  assert (dropna_rows df col = df) as Hdrop.
  { destruct df as [cols rws]. unfold dropna_rows. simpl. f_equal.
    apply filter_all. intros r Hr. by apply Hkey. }
  assert (qsum (churned <$> keys df col) = qsum (churn_flag <$> rows df))
    as HC.
  { pose proof (churned_sum df col) as H. rewrite Hdrop in H.
    rewrite <-H, <-list_fmap_compose. done. }
  assert (qsum (weight <$> keys df col) = of_nat (len df)) as HW.
  { unfold weight, len.
    assert (length (rows df) = length (keys df col ≫= group_rows df col))
      as -> by (by rewrite (groups_cover df col), Hdrop).
    rewrite <-sum_list_length_bind, of_nat_sum_list, <-!list_fmap_compose.
    f_equal. apply list_fmap_ext. intros _ k Hk%list_elem_of_lookup_2.
    simpl. f_equal. by apply Hsize. }
  apply (not_all_above_mean churned weight (keys df col)).
  - assert (∃ r, r ∈ rows df) as [r Hr]
      by (destruct (rows df) as [|r ?]; [done|exists r; by left]).
    assert (cell r col ∈ keys df col) as Hin.
    { apply elem_of_keys. split; [by apply Hkey|]. by exists r. }
    intros Hnil. rewrite Hnil in Hin. by apply elem_of_nil in Hin.
  - intros k Hk. unfold weight. apply of_nat_pos.
    rewrite (Hsize k Hk).
    apply elem_of_keys in Hk as (_ & r & Hr & Hkr).
    assert (r ∈ group_rows df col k) as Hin by by apply list_elem_of_filter.
    destruct (group_rows df col k); [by apply elem_of_nil in Hin|simpl; lia].
  - intros k Hk. rewrite HC, HW.
    specialize (Hall (bar (fmul (fdiv (Fin (qsum (churn_flag <$> rows df)))
                                      (Fin (of_nat (len df)))) hundred)
                          (grp_row df col k))).
    assert (0 < len df) as Hlen
      by (unfold len; destruct (rows df); [done|simpl; lia]).
    assert (0 < of_nat (length (policy_ids (group_rows df col k))))%Qc as Hpos.
    { apply of_nat_pos. rewrite (Hsize k Hk).
      apply elem_of_keys in Hk as (_ & r & Hr & Hkr).
      assert (r ∈ group_rows df col k) as Hin
        by by apply list_elem_of_filter.
      destruct (group_rows df col k); [by apply elem_of_nil in Hin|simpl; lia]. }
    pose proof (of_nat_pos _ Hlen) as HN.
    assert (Rate (grp_row df col k)
            = Fin (churned k / weight k * Qc_of_Z 100)) as HR.
    { unfold grp_row. cbn [Rate]. unfold fdiv.
      by rewrite decide_False by (apply not_eq_sym, Qclt_not_eq; done). }
    destruct (decide (qsum (churn_flag <$> rows df) / of_nat (len df)
                        * Qc_of_Z 100
                      < churned k / weight k * Qc_of_Z 100)%Qc)
      as [Hlt|Hge]; [exact Hlt|].
    exfalso. eapply Hall.
    + apply list_elem_of_fmap. eexists. split; [done|].
      unfold sort_values. rewrite sort_by_Permutation.
      apply list_elem_of_fmap. by exists k.
    + unfold bar. cbn [color]. rewrite HR. unfold fdiv.
      rewrite decide_False by (apply not_eq_sym, Qclt_not_eq; done).
      cbn [fmul hundred flt]. by rewrite bool_decide_eq_false_2.
Qed.

Lemma some_bar_is_not_above_witness :
  ∃ bs b, bars paying_policies = Return bs ∧ b ∈ bs ∧
    color b = BELOW_COLOR.
Proof.
  assert (NoDup (column paying_policies "policy_id")) as Hnd
    by by_computation.
  assert (NA ∉ column paying_policies "policy_id") as Hna
    by by_computation.
  assert (Forall (λ r, is_bool (cell r "churned") = true)
            (rows paying_policies)) as Hbool by by_computation.
  assert (∀ r, r ∈ rows paying_policies →
            cell r "payment_frequency" ≠ NA) as Hkey.
  { intros r Hr. revert r Hr. apply Forall_forall. by_computation. }
  assert (rows paying_policies ≠ []) as Hrows by done.
  destruct (returns_Return (bars paying_policies)) as [bs Hbs];
    [by vm_compute|].
  destruct (some_bar_is_not_above paying_policies bs Hnd Hna Hbool Hkey
              Hrows Hbs) as (b & Hb & Hcolor).
  exists bs, b. split; [exact Hbs|]. split; [exact Hb|exact Hcolor].
Defined.

End Bars.

(** * The summary of the standardization *)

Lemma resolve_flag series :
  (resolve series).2 = 0%Z ∨ (resolve series).2 = 1%Z.
Proof. unfold resolve. repeat case_match; simpl; auto. Qed.

(** The sum of a column of conflict flags counts the flags that are
    set. *)
Lemma sum_flags (flag : Cell → Z) (ks : list Cell) :
  (∀ k, flag k = 0%Z ∨ flag k = 1%Z) →
  qsum (omap num_opt ((λ k, VInt (flag k)) <$> ks))
  = of_nat (length (filter (λ k, flag k = 1%Z) ks)).
Proof.
  intros Hflag. induction ks as [|k ks IH]; [by apply Qc_is_canon|].
  rewrite fmap_cons.
  change (qsum (omap num_opt (VInt (flag k) :: ((λ k, VInt (flag k)) <$> ks))))
    with (Qc_of_Z (flag k)
          + qsum (omap num_opt ((λ k, VInt (flag k)) <$> ks)))%Qc.
  rewrite IH, filter_cons.
  destruct (Hflag k) as [H|H]; rewrite H.
  - rewrite decide_False by done.
    replace (Qc_of_Z 0) with 0%Qc by (by apply Qc_is_canon). ring.
  - rewrite decide_True by done.
    change (length (k :: ?l)) with (S (length l)). rewrite of_nat_S.
    replace (Qc_of_Z 1) with 1%Qc by (by apply Qc_is_canon). ring.
Qed.

Lemma length_flags (flag : Cell → Z) (ks : list Cell) :
  length (omap num_opt ((λ k, VInt (flag k)) <$> ks)) = length ks.
Proof.
  induction ks as [|k ks IH]; [done|]. rewrite fmap_cons.
  change (length (omap num_opt (VInt (flag k) :: ((λ k, VInt (flag k)) <$> ks))))
    with (S (length (omap num_opt ((λ k, VInt (flag k)) <$> ks)))).
  by rewrite IH.
Qed.

(** X27.  The summary of the standardization counts the customers, not
    the policies: it gives the number of distinct customer identifiers
    and, for gender and for country, the number of customers whose
    resolution raised the conflict flag, with that number as a percentage
    of the customers. *)
Theorem summary_counts_customers df df_customer :
  build_customer_table df = Return df_customer →
  customers df ≠ [] →
  ∃ s, summary df_customer = Return s ∧
    customers_total s = length (customers df) ∧
    gender_conflicts s
      = of_nat (length (in_conflict df "customer_gender")) ∧
    gender_percent s
      = fmul (fdiv (Fin (gender_conflicts s))
                   (Fin (of_nat (customers_total s)))) hundred ∧
    country_conflicts s = of_nat (length (in_conflict df "country")) ∧
    country_percent s
      = fmul (fdiv (Fin (country_conflicts s))
                   (Fin (of_nat (customers_total s)))) hundred.
Proof.
  intros Htable Hne.
  assert ("customer_id" ∈ columns df ∧ "customer_gender" ∈ columns df ∧
          "country" ∈ columns df) as (Hid & Hgender & Hcountry).
  { unfold build_customer_table in Htable.
    apply bind_Return_inv in Htable as (groups & Hg & Hrec).
    apply bind_Return_inv in Hrec as (records & Hrec & _).
    unfold groupby, getitem in Hg.
    destruct (decide ("customer_id" ∈ columns df)) as [Hid|Hid]; [|done].
    simpl in Hg. injection Hg as <-. fold (customers df) in Hrec.
    apply mapM_Return_inv in Hrec.
    destruct (customers df) as [|k t]; [done|].
    rewrite fmap_cons in Hrec. apply Forall2_cons_inv_l in Hrec
      as (rec & ? & Hk & _ & _).
    by apply customer_record_columns in Hk as [? ?]. }
  rewrite (build_customer_table_eq df Hid Hgender Hcountry) in Htable.
  injection Htable as <-.
  assert (from_records record_columns (record_of df <$> customers df)
          = customer_table df) as ->.
  { unfold from_records, customer_table. by destruct (customers df). }
  unfold summary, getitem. simpl.
  assert (column (customer_table df) "gender_conflict"
          = (λ k, VInt (resolve (observations df k "customer_gender")).2)
              <$> customers df) as Hg.
  { unfold column. simpl. rewrite <-list_fmap_compose.
    apply list_fmap_ext. intros _ k _. simpl.
    by destruct (record_of_cells df k) as (_ & -> & _). }
  assert (column (customer_table df) "country_conflict"
          = (λ k, VInt (resolve (observations df k "country")).2)
              <$> customers df) as Hc.
  { unfold column. simpl. rewrite <-list_fmap_compose.
    apply list_fmap_ext. intros _ k _. simpl.
    by destruct (record_of_cells df k) as (_ & _ & _ & ->). }
  rewrite Hg, Hc. unfold sum, mean.
  rewrite !numbers_Return
    by (apply Forall_forall; by intros c (k & -> & _)%list_elem_of_fmap).
  simpl. eexists. split; [reflexivity|]. simpl.
  rewrite !length_flags.
  rewrite !(sum_flags (λ k, (resolve (observations df k _)).2))
    by (intros; apply resolve_flag).
  unfold len, customer_table. simpl. rewrite !length_fmap.
  by split_and!.
Qed.

Lemma summary_counts_customers_witness :
  ∃ df_customer s,
    build_customer_table scenario = Return df_customer ∧
    summary df_customer = Return s ∧
    customers_total s = 2 ∧ gender_conflicts s = of_nat 1.
Proof.
  destruct (returns_Return (build_customer_table scenario))
    as [df_customer Htable]; [by vm_compute|].
  destruct (summary_counts_customers scenario df_customer Htable)
    as (s & Hs & Hn & Hg & _); [done|].
  exists df_customer, s. split; [exact Htable|]. split; [exact Hs|].
  split; [exact Hn|exact Hg].
Defined.

(** * The boxes of the price plot *)

Section Boxes.
Import PricePerCoverage.

Lemma scaled_not_nan x : is_nan x = false → fmul x (Fin (Qc_of_Z 1000)) ≠ NaN.
Proof. destruct x; simpl; try done; intros _; by case_decide. Qed.

Lemma price_of_row df prices r :
  price_per_coverage df = Return prices → r ∈ rows df →
  ∃ x, ratio (cell r "premium") (cell r "coverage_amount") = Return x ∧
       (cell r "product_type", x) ∈ zip (column df "product_type") prices.
Proof.
  unfold price_per_coverage, getitem.
  destruct (decide ("premium" ∈ columns df)) as [_|]; [|done].
  destruct (decide ("coverage_amount" ∈ columns df)) as [_|]; [|done]. simpl.
  unfold column. generalize (rows df). intros l. revert prices.
  induction l as [|r' l IH]; intros prices Hp Hr;
    [by apply elem_of_nil in Hr|].
  simpl in Hp.
  destruct (ratio (cell r' "premium") (cell r' "coverage_amount"))
    as [?|x] eqn:Ex; [done|]. simpl in Hp.
  destruct (mapM _ _) as [?|xs] eqn:Exs; [done|]. simpl in Hp.
  injection Hp as <-.
  apply elem_of_cons in Hr as [->|Hr].
  - exists x. split; [done|]. simpl. by left.
  - destruct (IH xs eq_refl Hr) as (y & Hy & Hin).
    exists y. split; [done|]. simpl. by right.
Qed.

Lemma to_num_num_opt c x : num_opt c = Some x → to_num c = Return (Some x).
Proof. destruct c; try done; simpl; by intros [= <-]. Qed.

Lemma scaled_infinity x :
  x = PInf ∨ x = NInf → fmul x (Fin (Qc_of_Z 1000)) = x.
Proof.
  intros [->| ->]; by vm_compute.
Qed.

(** X28.  The price plot has one box for each of the three product
    types, in their fixed order.  A box never holds a value that is not a
    number, since those are dropped; but a policy of its product type
    whose coverage amount is zero and whose premium is not contributes an
    infinite price, which is kept. *)
Theorem boxes_of_prices df boxes :
  data df = Return boxes →
  length boxes = 3 ∧
  (∀ values x, values ∈ boxes → x ∈ values → x ≠ NaN) ∧
  (∀ j pt r premium,
     PRODUCT_TYPES !! j = Some pt → r ∈ rows df →
     cell r "product_type" = VStr pt →
     num_opt (cell r "premium") = Some premium → premium ≠ 0%Qc →
     num_opt (cell r "coverage_amount") = Some 0%Qc →
     ∃ values, boxes !! j = Some values ∧ (PInf ∈ values ∨ NInf ∈ values)).
Proof.
  intros Hdata. unfold data in Hdata.
  apply bind_Return_inv in Hdata as (prices & Hprices & Hdata).
  apply bind_Return_inv in Hdata as (types & Htypes & Hdata).
  assert (boxes = box types prices <$> PRODUCT_TYPES) as ->
    by (by injection Hdata).
  clear Hdata. split; [done|]. split.
  - intros values x (pt & -> & _)%list_elem_of_fmap.
    unfold box. intros (y & -> & Hy)%list_elem_of_fmap.
    apply list_elem_of_filter in Hy as [Hy _]. by apply scaled_not_nan.
  - intros j pt r premium Hj Hr Htype Hp Hne Hc.
    rewrite list_lookup_fmap, Hj. simpl. eexists. split; [done|].
    destruct (price_of_row df prices r Hprices Hr) as (x & Hx & Hin).
    unfold getitem in Htypes. case_decide; [|done]. injection Htypes as <-.
    unfold ratio in Hx.
    rewrite (to_num_num_opt _ _ Hp), (to_num_num_opt _ _ Hc) in Hx.
    rewrite !Return_bind in Hx. unfold fdiv in Hx.
    rewrite decide_True in Hx by done.
    rewrite decide_False in Hx by done. injection Hx as <-.
    rewrite Htype in Hin.
    set (x := inf_of_sign (bool_decide (0 < premium)%Qc)) in *.
    assert (x = PInf ∨ x = NInf) as Hinf
      by (unfold x, inf_of_sign; case_bool_decide; auto).
    assert (x ∈ box (column df "product_type") prices pt) as Hbox.
    { unfold box. rewrite <-(scaled_infinity x Hinf) at 1.
      apply list_elem_of_fmap. exists x. split; [done|].
      apply list_elem_of_filter. split; [by destruct Hinf as [->| ->]|].
      apply list_elem_of_fmap. exists (VStr pt, x). split; [done|].
      by apply list_elem_of_filter. }
    destruct Hinf as [Hx|Hx]; rewrite Hx in Hbox; auto.
Qed.

Lemma boxes_of_prices_witness :
  ∃ boxes values, data uncovered_policy = Return boxes ∧
    boxes !! 1 = Some values ∧ (PInf ∈ values ∨ NInf ∈ values).
Proof.
  destruct (returns_Return (data uncovered_policy)) as [boxes Hboxes];
    [by vm_compute|].
  destruct (boxes_of_prices uncovered_policy boxes Hboxes)
    as (_ & _ & Hinf).
  destruct (Hinf 1 "Whole" (default ∅ (rows uncovered_policy !! 1))
              (Qc_of_Z 80)) as (values & Hvalues & Hin);
    [reflexivity|by_computation|reflexivity|reflexivity|by_computation
    |by_computation|].
  exists boxes, values. split; [exact Hboxes|]. split; [exact Hvalues|exact Hin].
Defined.

End Boxes.

(** * Order of the quartiles *)

Lemma Qc_mul_nonneg (a b : Qc) : (0 ≤ a)%Qc → (0 ≤ b)%Qc → (0 ≤ a * b)%Qc.
Proof.
  intros Ha Hb. rewrite <-(Qcmult_0_l b). by apply Qcmult_le_compat_r.
Qed.

Lemma Qc_sub_nonneg (a b : Qc) : (a ≤ b)%Qc → (0 ≤ b - a)%Qc.
Proof. apply Qcle_minus_iff. Qed.

Lemma Qc_le_of_sub (a b : Qc) : (0 ≤ b - a)%Qc → (a ≤ b)%Qc.
Proof. apply Qcle_minus_iff. Qed.

Lemma qlt_asym (x y : Qc) : qlt x y = true → qlt y x = false.
Proof.
  unfold qlt. rewrite bool_decide_eq_true, bool_decide_eq_false.
  intros H. by apply Qcle_not_lt, Qclt_le_weak.
Qed.

Lemma qlt_neg_trans (x y z : Qc) :
  qlt y x = false → qlt z y = false → qlt z x = false.
Proof.
  unfold qlt. rewrite !bool_decide_eq_false. intros H1 H2.
  apply Qcle_not_lt. eapply Qcle_trans; by apply Qcnot_lt_le.
Qed.

(** The sorted data increase with the position. *)
Lemma sorted_le (xs : list Qc) i j a b :
  i ≤ j → sort_by qlt xs !! i = Some a → sort_by qlt xs !! j = Some b →
  (a ≤ b)%Qc.
Proof.
  intros Hij Ha Hb. destruct (decide (i = j)) as [->|Hne].
  - rewrite Ha in Hb. injection Hb as ->. apply Qcle_refl.
  - assert (qlt b a = false) as H.
    { eapply (sort_by_lookup qlt qlt_asym qlt_neg_trans xs i j);
        [lia|done|done]. }
    unfold qlt in H. apply bool_decide_eq_false in H.
    by apply Qcnot_lt_le.
Qed.

Section Quantile.
Variable xs : list Qc.
Hypothesis Hne : xs ≠ [].

Let sorted := sort_by qlt xs.
Let n := length xs.

Lemma length_sorted : length sorted = n.
Proof. unfold sorted, n. by rewrite sort_by_Permutation. Qed.

(** The position of a quantile: its whole part and its fraction. *)
Lemma position (q : Qc) :
  (0 ≤ q)%Qc → (q ≤ 1)%Qc →
  let pos := (of_nat (n - 1) * q)%Qc in
  let i := Z.to_nat (Qfloor pos) in
  i < n ∧ (0 ≤ pos - of_nat i)%Qc ∧ (pos - of_nat i ≤ 1)%Qc ∧
  (of_nat i ≤ pos)%Qc ∧ (pos < of_nat (S i))%Qc.
Proof.
  intros H0 H1 pos i.
  assert (0 < n) as Hn by (unfold n; destruct xs; [done|simpl; lia]).
  pose proof (quantile_position (n - 1) q H0 H1) as Hi. fold pos i in Hi.
  assert (0 ≤ pos)%Qc as Hpos
    by (apply Qc_mul_nonneg; [apply of_nat_nonneg|done]).
  assert (0 ≤ Qfloor pos)%Z as Hfloor.
  { change 0%Z with (Qfloor (inject_Z 0)). by apply Qfloor_resp_le. }
  assert (of_nat i ≤ pos)%Qc as Hlo.
  { unfold of_nat, i, Qcle, Qc_of_Z. cbn [this]. rewrite Z2Nat.id by done.
    apply Qfloor_le. }
  assert (pos < of_nat (S i))%Qc as Hhi.
  { unfold of_nat, i, Qclt, Qc_of_Z. cbn [this].
    rewrite Nat2Z.inj_succ, Z2Nat.id by done.
    rewrite <-Z.add_1_r. apply Qlt_floor. }
  split; [lia|]. split; [by apply Qc_sub_nonneg|]. split; [|done].
  apply Qc_le_of_sub. rewrite of_nat_S in Hhi. apply Qclt_le_weak in Hhi.
  apply Qc_sub_nonneg in Hhi.
  replace (1 - (pos - of_nat i))%Qc with (1 + of_nat i - pos)%Qc by ring.
  exact Hhi.
Qed.

(** A quantile lies between its two neighbours in the sorted data. *)
Lemma quantile_between (q : Qc) :
  (0 ≤ q)%Qc → (q ≤ 1)%Qc →
  let i := Z.to_nat (Qfloor (of_nat (n - 1) * q)%Qc) in
  ∃ lo, sorted !! i = Some lo ∧ (lo ≤ quantile xs q)%Qc ∧
    (∀ hi, sorted !! (i + 1) = Some hi → (quantile xs q ≤ hi)%Qc).
Proof.
  intros H0 H1 i.
  destruct (position q H0 H1) as (Hi & Hf0 & Hf1 & _). fold i in Hi, Hf0, Hf1.
  rewrite <-length_sorted in Hi.
  apply lookup_lt_is_Some_2 in Hi as [lo Hlo]. exists lo. split; [done|].
  unfold quantile. cbv zeta. fold sorted n i. rewrite Hlo. simpl.
  set (frac := (of_nat (n - 1) * q - of_nat i)%Qc) in *.
  destruct (sorted !! (i + 1)) as [hi|] eqn:Hhi; simpl.
  - assert (lo ≤ hi)%Qc as Hle
      by (by apply (sorted_le xs i (i + 1)); [lia|..]).
    apply Qc_sub_nonneg in Hle. split.
    + apply Qc_le_of_sub.
      replace (lo + (hi - lo) * frac - lo)%Qc with ((hi - lo) * frac)%Qc
        by ring.
      by apply Qc_mul_nonneg.
    + intros ? [= <-]. apply Qc_le_of_sub.
      replace (hi - (lo + (hi - lo) * frac))%Qc
        with ((hi - lo) * (1 - frac))%Qc by ring.
      apply Qc_mul_nonneg; [done|]. by apply Qc_sub_nonneg.
  - split; [|done].
    replace (lo + (lo - lo) * frac)%Qc with lo by ring. apply Qcle_refl.
Qed.

(** A larger level gives a larger quantile. *)
Lemma quantile_le (q q' : Qc) :
  (0 ≤ q)%Qc → (q ≤ q')%Qc → (q' ≤ 1)%Qc →
  (quantile xs q ≤ quantile xs q')%Qc.
Proof.
  intros H0 Hqq H1.
  assert (q ≤ 1)%Qc as Hq1 by by eapply Qcle_trans.
  assert (0 ≤ q')%Qc as Hq0 by by eapply Qcle_trans.
  set (pos := (of_nat (n - 1) * q)%Qc).
  set (pos' := (of_nat (n - 1) * q')%Qc).
  assert (pos ≤ pos')%Qc as Hpos.
  { unfold pos, pos'. rewrite !(Qcmult_comm (of_nat (n - 1))).
    apply Qcmult_le_compat_r; [done|apply of_nat_nonneg]. }
  set (i := Z.to_nat (Qfloor pos)). set (i' := Z.to_nat (Qfloor pos')).
  assert (i ≤ i') as Hii.
  { unfold i, i'. apply Z2Nat.inj_le.
    - change 0%Z with (Qfloor (inject_Z 0)). apply Qfloor_resp_le.
      apply Qc_mul_nonneg; [apply of_nat_nonneg|done].
    - change 0%Z with (Qfloor (inject_Z 0)). apply Qfloor_resp_le.
      apply Qc_mul_nonneg; [apply of_nat_nonneg|done].
    - by apply Qfloor_resp_le. }
  destruct (quantile_between q H0 Hq1) as (lo & Hlo & Hlo_le & Hhi_le).
  destruct (quantile_between q' Hq0 H1) as (lo' & Hlo' & Hlo_le' & _).
  fold pos i in Hlo, Hhi_le. fold pos' i' in Hlo'.
  destruct (decide (i = i')) as [Heq|Hlt].
  - rewrite <-Heq in Hlo'. rewrite Hlo in Hlo'. injection Hlo' as <-.
    unfold quantile. cbv zeta. fold sorted n pos pos' i i'.
    rewrite <-Heq, Hlo. simpl.
    set (hi := default lo (sorted !! (i + 1))).
    assert (lo ≤ hi)%Qc as Hle.
    { unfold hi. destruct (sorted !! (i + 1)) as [hi'|] eqn:Hhi; simpl;
        [|apply Qcle_refl].
      by apply (sorted_le xs i (i + 1)); [lia|..]. }
    apply Qc_sub_nonneg in Hle. apply Qc_sub_nonneg in Hpos.
    apply Qc_le_of_sub.
    replace (lo + (hi - lo) * (pos' - of_nat i)
             - (lo + (hi - lo) * (pos - of_nat i)))%Qc
      with ((hi - lo) * (pos' - pos))%Qc by ring.
    by apply Qc_mul_nonneg.
  - destruct (position q' Hq0 H1) as (Hi' & _). fold pos' i' in Hi'.
    assert (i + 1 < length sorted) as Hnext
      by (rewrite length_sorted; lia).
    apply lookup_lt_is_Some_2 in Hnext as [hi Hhi].
    eapply Qcle_trans; [by apply Hhi_le|].
    eapply Qcle_trans; [|exact Hlo_le'].
    by apply (sorted_le xs (i + 1) i'); [lia|..].
Qed.

End Quantile.

Lemma Qc_mul_pos (a b : Qc) : (0 < a)%Qc → (0 < b)%Qc → (0 < a * b)%Qc.
Proof.
  intros Ha Hb. rewrite <-(Qcmult_0_l b). by apply Qcmult_lt_compat_r.
Qed.

Lemma Qc_lt_of_sub (a b : Qc) : (0 < b - a)%Qc → (a < b)%Qc.
Proof. apply Qclt_minus_iff. Qed.

Lemma Qc_sub_pos (a b : Qc) : (a < b)%Qc → (0 < b - a)%Qc.
Proof. apply Qclt_minus_iff. Qed.

Lemma length_numbers_dropna (s : Series) :
  Forall (λ c, is_str c = false) (dropna s) →
  length (omap num_opt (dropna s)) = length (dropna s).
Proof.
  intros Hs.
  assert (Forall (λ c, c ≠ NA) (dropna s)) as Hna.
  { apply Forall_forall. by intros c [_ ?]%elem_of_dropna. }
  induction Hs as [|c t Hc _ IH]; [done|].
  apply Forall_cons in Hna as [Hna Ht].
  destruct c; try done; simpl; f_equal; by apply IH.
Qed.

Lemma count_if_none {A} (f : A → bool) (l : list A) :
  (∀ x, x ∈ l → f x = false) → count_if f l = 0.
Proof.
  induction l as [|x l IH]; intros Hall; [done|].
  rewrite count_if_cons, (Hall x) by (by left).
  apply IH. intros y Hy. apply Hall. by right.
Qed.

Lemma count_if_le {A} (f : A → bool) (l : list A) :
  count_if f l ≤ length l.
Proof. apply length_filter. Qed.

(** X29.  Every row of the outlier table of section 7 has its figures
    in order: Lower < Q1 < Q3 < Upper, with IQR = Q3 - Q1 positive.  The
    number of outliers is at most the number of values present, and it is
    zero exactly when every value of the column lies within the two
    fences. *)
Theorem outlier_fences (column : Series) (o : Outliers) :
  outlier_stats column = Return (Some o) →
  (lower o < q1 o)%Qc ∧ (q1 o < q3 o)%Qc ∧ (q3 o < upper o)%Qc ∧
  iqr o = (q3 o - q1 o)%Qc ∧ (0 < iqr o)%Qc ∧
  n_out o ≤ length (dropna column) ∧
  (n_out o = 0 ↔
   ∀ c x, c ∈ column → num_opt c = Some x →
          (lower o ≤ x)%Qc ∧ (x ≤ upper o)%Qc).
Proof.
  intros H. unfold outlier_stats in H. cbv zeta in H.
  destruct (length (dropna column) =? 0) eqn:E; [done|].
  apply Nat.eqb_neq in E.
  destruct (decide (dtype_of column = bool_)); [done|].
  apply bind_Return_inv in H as (xs & Hxs & H).
  apply numbers_Return_inv in Hxs as [Hs ->].
  pose proof (length_numbers_dropna column Hs) as Hlen.
  set (xs := omap num_opt (dropna column)) in *.
  assert (xs ≠ []) as Hne by (intros Hnil; rewrite Hnil in Hlen; simpl in Hlen; lia).
  set (a := quantile xs (Q2Qc (1 # 4))) in *.
  set (b := quantile xs (Q2Qc (3 # 4))) in *.
  case_decide as Hiqr; [done|].
  assert (o = {| q1 := a; q3 := b; iqr := (b - a)%Qc;
                 lower := (a - Q2Qc (3 # 2) * (b - a))%Qc;
                 upper := (b + Q2Qc (3 # 2) * (b - a))%Qc;
                 n_out := count_if (λ x, qlt x (a - Q2Qc (3 # 2) * (b - a))%Qc
                                         || qlt (b + Q2Qc (3 # 2) * (b - a))%Qc x)
                                   xs |}) as ->
    by (by injection H).
  clear H. cbn [q1 q3 iqr lower upper n_out].
  assert (a ≤ b)%Qc as Hab
    by (apply quantile_le; [done|by_computation..]).
  assert (a < b)%Qc as Hlt.
  { destruct (Qcle_lt_or_eq _ _ Hab) as [?|Heq]; [done|].
    destruct Hiqr. rewrite Heq. ring. }
  assert (0 < b - a)%Qc as Hpos by by apply Qc_sub_pos.
  assert (0 < Q2Qc (3 # 2) * (b - a))%Qc as Hwide
    by (apply Qc_mul_pos; [by_computation|done]).
  split_and!.
  - apply Qc_lt_of_sub.
    by replace (a - (a - Q2Qc (3 # 2) * (b - a)))%Qc
      with (Q2Qc (3 # 2) * (b - a))%Qc by ring.
  - done.
  - apply Qc_lt_of_sub.
    by replace (b + Q2Qc (3 # 2) * (b - a) - b)%Qc
      with (Q2Qc (3 # 2) * (b - a))%Qc by ring.
  - done.
  - done.
  - rewrite <-Hlen. apply count_if_le.
  - split.
    + intros H0 c x Hc Hx.
      assert (x ∈ xs) as Hin.
      { apply list_elem_of_omap. exists c. split; [|done].
        apply elem_of_dropna. split; [done|]. by intros ->. }
      pose proof (count_if_0 _ _ H0 x Hin) as Hout.
      apply orb_false_elim in Hout as [H1 H2]. unfold qlt in H1, H2.
      apply bool_decide_eq_false in H1, H2.
      split; by apply Qcnot_lt_le.
    + intros Hall. apply count_if_none.
      intros x (c & [Hc _]%elem_of_dropna & Hx)%list_elem_of_omap.
      destruct (Hall c x Hc Hx) as [H1 H2].
      apply orb_false_intro; unfold qlt; apply bool_decide_eq_false;
        by apply Qcle_not_lt.
Qed.

Lemma outlier_fences_witness :
  ∃ o, outlier_stats some_premiums = Return (Some o) ∧
       (lower o < q1 o)%Qc ∧ (q3 o < upper o)%Qc ∧ n_out o = 1.
Proof.
  destruct (returns_Return (outlier_stats some_premiums)) as [[o|] Ho];
    [by vm_compute|..].
  - exists o.
    destruct (outlier_fences some_premiums o Ho) as (H1 & _ & H3 & _).
    split; [done|]. split; [exact H1|]. split; [exact H3|].
    revert Ho. vm_compute. by intros [= <-].
  - exfalso. revert Ho. by vm_compute.
Defined.
